(** * Trigger extension point: a shallow embedding of
      [src/extensionPoints/triggerExtension.ts]

    The development follows the TypeScript class [TriggerExtensionPoint] and
    its concrete subclass [RemoteTriggerExtensionPoint]:

    - JavaScript values, thrown values and the DOM handles the class touches
      are small inductive types;
    - the mutable fields of an instance ([installedEvents], [reportedEvents],
      [reportedErrors], the abort controller) together with the page state
      the class mutates (jQuery listeners, observers, interval loops) form one
      record [State], threaded through a state-and-exception monad [M];
    - calls that leave the class (telemetry, notifications, the reader, the
      pipeline interpreter, jQuery [on]/[off]) are recorded in a trace, most
      recent call first;
    - the collaborators whose code is outside the file (reader, pipeline
      interpreter, selector queries, event helpers) are fields of an
      environment record [Env], so every theorem holds for all of them.

    Asynchrony is modelled by running awaited tasks to completion in program
    order: the tasks of a [Promise.all] / [Promise.allSettled] settle in list
    order. *)

From Stdlib Require Import ZArith Lia Ascii.
From stdpp Require Import gmap strings list.

Local Open Scope string_scope.
Local Open Scope list_scope.

(** ** JavaScript values *)

Unset Elimination Schemes.
Inductive JsValue : Type :=
| JUndefined
| JNull
| JBool (b : bool)
| JNum (z : Z)
| JStr (s : string)
| JArr (items : list JsValue)
| JObj (fields : list (string * JsValue)).
Set Elimination Schemes.

(** Truthiness, as used by lodash [compact]. *)
Definition truthy (v : JsValue) : bool :=
  match v with
  | JUndefined | JNull => false
  | JBool b => b
  | JNum z => negb (z =? 0)%Z
  | JStr s => negb (String.eqb s "")
  | JArr _ | JObj _ => true
  end.

(** What a [throw] or a rejected promise carries: an [Error] object (with the
    name of its class) or any other value. *)
Inductive Thrown : Type :=
| ErrorObj (name message : string)
| PromiseCancelled
| ThrownValue (v : JsValue).

Definition thrown_truthy (t : Thrown) : bool :=
  match t with
  | ErrorObj _ _ | PromiseCancelled => true
  | ThrownValue v => truthy v
  end.

Definition BusinessError (message : string) : Thrown :=
  ErrorObj "BusinessError" message.
Definition Error (message : string) : Thrown := ErrorObj "Error" message.
Definition TypeError (message : string) : Thrown :=
  ErrorObj "TypeError" message.

Inductive Result (A : Type) : Type :=
| Ok (a : A)
| Throw (t : Thrown).
Arguments Ok {A} a.
Arguments Throw {A} t.

(** ** Configuration enumerations *)

Inductive AttachMode := AttachOnce | AttachWatch.
Inductive TargetMode := EventTarget | Root.
Inductive ReportMode := ReportOnce | ReportAll.

#[global] Instance AttachMode_eq_dec : EqDecision AttachMode.
Proof. solve_decision. Defined.
#[global] Instance ReportMode_eq_dec : EqDecision ReportMode.
Proof. solve_decision. Defined.

Inductive Trigger :=
| Load | Interval | Appear | Initialize
| Blur | Click | Dblclick | Mouseover | Keydown | Keyup | Keypress | Change
| Selectionchange | Statechange | Custom.

#[global] Instance Trigger_eq_dec : EqDecision Trigger.
Proof. solve_decision. Defined.

Definition trigger_name (t : Trigger) : string :=
  match t with
  | Load => "load" | Interval => "interval" | Appear => "appear"
  | Initialize => "initialize" | Blur => "blur" | Click => "click"
  | Dblclick => "dblclick" | Mouseover => "mouseover"
  | Keydown => "keydown" | Keyup => "keyup" | Keypress => "keypress"
  | Change => "change" | Selectionchange => "selectionchange"
  | Statechange => "statechange" | Custom => "custom"
  end.

Definition USER_ACTION_TRIGGERS : list Trigger :=
  [Click; Dblclick; Blur; Mouseover].

Definition getDefaultReportModeForTrigger (t : Trigger) : ReportMode :=
  if bool_decide (t ∈ USER_ACTION_TRIGGERS) then ReportAll else ReportOnce.

(** ** The page *)

Inductive Node := Document | Element (n : nat).

#[global] Instance Node_eq_dec : EqDecision Node.
Proof. solve_decision. Defined.

(** A [ReaderRoot] handed to a firing; [None] is [undefined] (what
    [$(...).get(0)] gives on an empty collection). *)
Definition ReaderRoot := option Node.

Definition UUID := string.

(** A DOM event as the handler sees it: the node it was dispatched on and the
    payload of the original event. *)
Record Event := {
  ev_type : string;
  ev_detail : JsValue;
}.

Record JQEvent := {
  target : Node;
  originalEvent : Event;
}.

Record DebounceOptions := {
  waitMillis : option Z;
  leading : option bool;
  trailing : option bool;
}.

Record CustomEventOptions := {
  eventName : string;
}.

(** An installed extension (automation): only the fields the trigger reads. *)
Record Extension := {
  ext_id : UUID;
  ext_action : JsValue;
  ext_services : JsValue;
  ext_optionsArgs : JsValue;
}.

Abbreviation ReaderOutput := (gmap string JsValue).

(** ** The instance: the abstract getters of [TriggerExtensionPoint]

    [trigger] is an option: the class tests [this.trigger] for truthiness in
    [run] and [attachDOMTrigger], so a missing kind ([None]) is a value the
    abstract class provides for. [self] identifies [boundEventHandler], the
    function reference that is unique to the instance. *)
Record Instance := {
  self : nat;
  trigger : option Trigger;
  attachMode : AttachMode;
  intervalMillis : Z;
  allowBackground : bool;
  targetMode : TargetMode;
  reportMode : ReportMode;
  debounceOptions : option DebounceOptions;
  customTriggerOptions : option CustomEventOptions;
  triggerSelector : option string;
  extensions : list Extension;
}.

(** ** Collaborators outside the file *)

Inductive AwaitOutcome :=
| AwaitResolved
| AwaitRejected (t : Thrown).

Record Env := {
  (** [this.defaultReader()] and then [reader.read(root)] *)
  defaultReader : Result (ReaderRoot -> Result ReaderOutput);
  (** [makeServiceContext(extension.services)] *)
  makeServiceContext : JsValue -> Result JsValue;
  (** [reduceExtensionPipeline(action, initialValues, options)] *)
  reduceExtensionPipeline :
    Extension -> ReaderOutput -> ReaderRoot -> Result JsValue;
  (** [pickEventProperties(nativeEvent)] *)
  pickEventProperties : Event -> JsValue;
  (** [makeShouldRunExtensionForStateChange(event)] *)
  makeShouldRunExtensionForStateChange : Event -> Extension -> bool;
  (** [awaitElementOnce(selector)]: how the returned promise settles *)
  awaitElementOnce : string -> AwaitOutcome;
  (** [$safeFind(selector)]: the elements matching now, without repetition *)
  safeFind : string -> list Node;
  (** [$(target).closest(selector).get(0)] *)
  closest : Node -> option string -> ReaderRoot;
  (** [guessSelectedElement()] *)
  guessSelectedElement : option Node;
  (** [initialize(selector, ...)]: the elements the new observer reports at
      once, those matching the selector already *)
  initializeExisting : option string -> list Node;
  (** [pluralize(count, singular, plural)] *)
  pluralize : nat -> string -> string -> string;
  (** [this.isAvailable()] *)
  isAvailable : Result bool;
}.

(** ** Calls that leave the class *)

Inductive Effect :=
| ReportError (t : Thrown) (extensionId : UUID)
| ReportEvent (name : string) (extensionId : UUID)
| NotifyError (message : string)
| ReaderRead (root : ReaderRoot)
| PipelineRun (extensionId : UUID) (input : ReaderOutput)
    (root : ReaderRoot)
| LoggerInfo (extensionId : UUID) (message : string)
| LoggerError (extensionId : UUID) (t : Thrown)
| LoggerDebug (message : string)
| LoggerWarn (message : string)
| DebounceCall (roots : list ReaderRoot) (nativeEvent : option Event)
| JqOff (elements : list Node) (event : string) (handler : nat)
| JqOn (elements : list Node) (event : string) (handler : nat).

(** ** Mutable state *)

(** Callbacks an observer created by [initialize(selector, callback, ...)]
    runs for each element that appears. *)
Inductive ObserverCallback :=
| CbRunTriggers
| CbObserveAppear (appearObserver : nat)
| CbAttachDOMTrigger.

Inductive Observer :=
| MutationObserver (selector : option string) (callback : ObserverCallback)
| IntersectionObserver (observed : list Node).

(** Listeners registered on the current abort signal. *)
Inductive CancelHandler :=
| CancelNoop
| CancelRun (selector : string)
| CancelDisconnect (observer : nat)
| CancelDocumentOff (event : string).

(** A running [interval] loop and the generation of the signal it polls. *)
Record IntervalLoop := {
  loop_generation : nat;
  loop_intervalMillis : Z;
  loop_requestAnimationFrame : bool;
}.

Inductive Dispatcher := Direct | Debounced (wait : Z) (options : DebounceOptions).

Record State := {
  (** a JavaScript [Set], iterated in insertion order *)
  installedEvents : list string;
  reportedEvents : gset UUID;
  reportedErrors : gset UUID;
  (** [abortController]: a counter of the controllers allocated so far and the
      abort listeners of the current one, in registration order *)
  generation : nat;
  cancelHandlers : list CancelHandler;
  (** [debouncedRunTriggersAndNotify], unset until [install] *)
  dispatcher : option Dispatcher;
  (** jQuery handlers on the page: node, event name, handler reference *)
  listeners : list (Node * string * nat);
  observers : list (nat * Observer);
  nextObserver : nat;
  intervals : list IntervalLoop;
  (** calls made so far, most recent first *)
  trace : list Effect;
}.

Definition initialState : State := {|
  installedEvents := []; reportedEvents := ∅; reportedErrors := ∅;
  generation := 0; cancelHandlers := []; dispatcher := None;
  listeners := []; observers := []; nextObserver := 0; intervals := [];
  trace := [];
|}.

(** ** State-and-exception monad

    A JavaScript exception does not roll the heap back, so a computation
    returns its result together with the state reached. *)
Definition M (A : Type) : Type := State -> Result A * State.

Definition ret {A} (a : A) : M A := fun s => (Ok a, s).
Definition throw {A} (t : Thrown) : M A := fun s => (Throw t, s).
Definition bind {A B} (m : M A) (k : A -> M B) : M B :=
  fun s => match m s with
           | (Ok a, s') => k a s'
           | (Throw t, s') => (Throw t, s')
           end.
Definition tryCatch {A} (m : M A) (handler : Thrown -> M A) : M A :=
  fun s => match m s with
           | (Ok a, s') => (Ok a, s')
           | (Throw t, s') => handler t s'
           end.
Definition liftResult {A} (r : Result A) : M A := fun s => (r, s).
Definition modify (f : State -> State) : M unit := fun s => (Ok tt, f s).
Definition gets {A} (f : State -> A) : M A := fun s => (Ok (f s), s).

Declare Scope js_scope.
Delimit Scope js_scope with js.
Notation "x <- m ;; k" := (bind m (fun x => k))
  (at level 100, m at next level, right associativity) : js_scope.
Notation "m ;; k" := (bind m (fun _ => k))
  (at level 100, right associativity) : js_scope.
Local Open Scope js_scope.

Definition when (b : bool) (m : M unit) : M unit := if b then m else ret tt.

Fixpoint forEach {A} (f : A -> M unit) (l : list A) : M unit :=
  match l with
  | [] => ret tt
  | a :: l' => f a ;; forEach f l'
  end.

Definition set_installedEvents f (s : State) : State :=
  {| installedEvents := f (installedEvents s);
     reportedEvents := reportedEvents s; reportedErrors := reportedErrors s;
     generation := generation s; cancelHandlers := cancelHandlers s;
     dispatcher := dispatcher s; listeners := listeners s;
     observers := observers s; nextObserver := nextObserver s;
     intervals := intervals s; trace := trace s |}.
Definition set_reportedEvents f (s : State) : State :=
  {| installedEvents := installedEvents s;
     reportedEvents := f (reportedEvents s); reportedErrors := reportedErrors s;
     generation := generation s; cancelHandlers := cancelHandlers s;
     dispatcher := dispatcher s; listeners := listeners s;
     observers := observers s; nextObserver := nextObserver s;
     intervals := intervals s; trace := trace s |}.
Definition set_reportedErrors f (s : State) : State :=
  {| installedEvents := installedEvents s;
     reportedEvents := reportedEvents s; reportedErrors := f (reportedErrors s);
     generation := generation s; cancelHandlers := cancelHandlers s;
     dispatcher := dispatcher s; listeners := listeners s;
     observers := observers s; nextObserver := nextObserver s;
     intervals := intervals s; trace := trace s |}.
Definition set_abortController (g : nat) (hs : list CancelHandler)
    (s : State) : State :=
  {| installedEvents := installedEvents s;
     reportedEvents := reportedEvents s; reportedErrors := reportedErrors s;
     generation := g; cancelHandlers := hs;
     dispatcher := dispatcher s; listeners := listeners s;
     observers := observers s; nextObserver := nextObserver s;
     intervals := intervals s; trace := trace s |}.
Definition set_dispatcher (d : option Dispatcher) (s : State) : State :=
  {| installedEvents := installedEvents s;
     reportedEvents := reportedEvents s; reportedErrors := reportedErrors s;
     generation := generation s; cancelHandlers := cancelHandlers s;
     dispatcher := d; listeners := listeners s;
     observers := observers s; nextObserver := nextObserver s;
     intervals := intervals s; trace := trace s |}.
Definition set_listeners f (s : State) : State :=
  {| installedEvents := installedEvents s;
     reportedEvents := reportedEvents s; reportedErrors := reportedErrors s;
     generation := generation s; cancelHandlers := cancelHandlers s;
     dispatcher := dispatcher s; listeners := f (listeners s);
     observers := observers s; nextObserver := nextObserver s;
     intervals := intervals s; trace := trace s |}.
Definition set_observers f (n : nat) (s : State) : State :=
  {| installedEvents := installedEvents s;
     reportedEvents := reportedEvents s; reportedErrors := reportedErrors s;
     generation := generation s; cancelHandlers := cancelHandlers s;
     dispatcher := dispatcher s; listeners := listeners s;
     observers := f (observers s); nextObserver := n;
     intervals := intervals s; trace := trace s |}.
Definition set_intervals f (s : State) : State :=
  {| installedEvents := installedEvents s;
     reportedEvents := reportedEvents s; reportedErrors := reportedErrors s;
     generation := generation s; cancelHandlers := cancelHandlers s;
     dispatcher := dispatcher s; listeners := listeners s;
     observers := observers s; nextObserver := nextObserver s;
     intervals := f (intervals s); trace := trace s |}.
Definition set_trace f (s : State) : State :=
  {| installedEvents := installedEvents s;
     reportedEvents := reportedEvents s; reportedErrors := reportedErrors s;
     generation := generation s; cancelHandlers := cancelHandlers s;
     dispatcher := dispatcher s; listeners := listeners s;
     observers := observers s; nextObserver := nextObserver s;
     intervals := intervals s; trace := f (trace s) |}.

(** Record one outgoing call. *)
Definition emit (e : Effect) : M unit := modify (set_trace (cons e)).

(** ** Report gate: [shouldReport], [shouldReportError], [shouldReportEvent]

    The [default] arm of the switch throws on a report mode that is neither
    ["once"] nor ["all"]; the type [ReportMode] has no such value. *)
Section Gate.
Variable this : Instance.

Definition shouldReport (alreadyReported : bool) : bool :=
  match reportMode this with
  | ReportOnce => negb alreadyReported
  | ReportAll => true
  end.

Definition shouldReportError (extensionId : UUID) : M bool :=
  alreadyReported <- gets (fun s => bool_decide (extensionId ∈ reportedErrors s)) ;;
  modify (set_reportedErrors (fun set => {[extensionId]} ∪ set)) ;;
  ret (shouldReport alreadyReported).

Definition shouldReportEvent (extensionId : UUID) : M bool :=
  alreadyReported <- gets (fun s => bool_decide (extensionId ∈ reportedEvents s)) ;;
  modify (set_reportedEvents (fun set => {[extensionId]} ∪ set)) ;;
  ret (shouldReport alreadyReported).
End Gate.

(** ** Promise combinators

    Every task is started, and runs whether or not an earlier one rejected. *)
Fixpoint allSettled {A} (tasks : list (M A)) : M (list (Result A)) :=
  match tasks with
  | [] => ret []
  | task :: rest =>
      fun s =>
        let (r, s1) := task s in
        match allSettled rest s1 with
        | (Ok rs, s2) => (Ok (r :: rs), s2)
        | (Throw t, s2) => (Throw t, s2)
        end
  end.

(** [Promise.all] fulfils with all the values, or rejects with the first
    rejection in list order. *)
Fixpoint collect {A} (rs : list (Result A)) : Result (list A) :=
  match rs with
  | [] => Ok []
  | Throw t :: _ => Throw t
  | Ok a :: rest =>
      match collect rest with
      | Ok l => Ok (a :: l)
      | Throw t => Throw t
      end
  end.

Definition promiseAll {A} (tasks : list (M A)) : M (list A) :=
  rs <- allSettled tasks ;; liftResult (collect rs).

(** lodash [compact] on an array of errors and [undefined]s. *)
Definition compact (l : list (option Thrown)) : list Thrown :=
  omap (fun x => match x with
                 | Some t => if thrown_truthy t then Some t else None
                 | None => None
                 end) l.

Definition stubTrue {A} (_ : A) : bool := true.

(** lodash [isEmpty] on [string | null]. *)
Definition isEmpty (selector : option string) : bool :=
  match selector with
  | None => true
  | Some s => String.eqb s ""
  end.

(** The options object of a dispatch. *)
Record RunArgs := {
  nativeEvent : option Event;
  shouldRunExtension : option (Extension -> bool);
}.

(** ** Firing pipeline *)
Section Firing.
Variable env : Env.
Variable this : Instance.

Definition runExtension (ctxt : ReaderOutput) (extension : Extension)
    (root : ReaderRoot) : M unit :=
  serviceContext <- liftResult (makeServiceContext env (ext_services extension)) ;;
  tryCatch
    (emit (PipelineRun (ext_id extension) ctxt root) ;;
     result <- liftResult (reduceExtensionPipeline env extension ctxt root) ;;
     emit (LoggerInfo (ext_id extension) "Successfully ran trigger"))
    (fun error => emit (LoggerError (ext_id extension) error)).

(** The object literal [{ event: ..., ...(await reader.read(root)) }]: the
    spread is written after [event], so a key of the reader's record
    replaces an equal key written before it. *)
Definition readerContext (nativeEvent : option Event)
    (readerOutput : ReaderOutput) : ReaderOutput :=
  readerOutput ∪
    {[ "event" := match nativeEvent with
                  | Some e => pickEventProperties env e
                  | None => JNull
                  end ]}.

(** The callback mapped over [extensionsToRun] in [_runTrigger]. *)
Definition runTask (ctxt : ReaderOutput) (root : ReaderRoot)
    (extension : Extension) : M (option Thrown) :=
  ran <- tryCatch
    (runExtension ctxt extension root ;; ret None)
    (fun error =>
       report <- shouldReportError this (ext_id extension) ;;
       when report (emit (ReportError error (ext_id extension))) ;;
       ret (Some error)) ;;
  match ran with
  | Some error => ret (Some error)
  | None =>
      report <- shouldReportEvent this (ext_id extension) ;;
      when report (emit (ReportEvent "TriggerRun" (ext_id extension))) ;;
      ret None
  end.

Definition _runTrigger (root : ReaderRoot) (args : RunArgs)
    : M (list Thrown) :=
  let shouldRun := default stubTrue (shouldRunExtension args) in
  let extensionsToRun := List.filter shouldRun (extensions this) in
  if (length extensionsToRun =? 0)%nat then ret []
  else
    reader <- liftResult (defaultReader env) ;;
    emit (ReaderRead root) ;;
    readerOutput <- liftResult (reader root) ;;
    let ctxt := readerContext (nativeEvent args) readerOutput in
    errors <- promiseAll (map (runTask ctxt root) extensionsToRun) ;;
    ret (compact errors).

(** [results.flatMap(x => fulfilled ? x.value : x.reason)]: [flatMap]
    flattens one level, so a rejection reason that is an array contributes
    its items. *)
Definition settledErrors (x : Result (list Thrown)) : list Thrown :=
  match x with
  | Ok value => value
  | Throw (ThrownValue (JArr items)) => map ThrownValue items
  | Throw reason => [reason]
  end.

Definition notifyErrors (errors : list Thrown) : M unit :=
  if (length errors =? 0)%nat then ret tt
  else
    let subject := pluralize env (length errors) "a trigger" "$$ triggers" in
    let message := String.append "An error occurred running " subject in
    emit (NotifyError message).

(** Only [nativeEvent] is destructured from the options object; the call to
    [_runTrigger] is made with [{ nativeEvent }]. *)
Definition _runTriggersAndNotify (roots : list ReaderRoot) (args : RunArgs)
    : M unit :=
  results <- allSettled
    (map (fun root =>
            _runTrigger root {| nativeEvent := nativeEvent args;
                                shouldRunExtension := None |}) roots) ;;
  let errors := flat_map settledErrors results in
  notifyErrors errors.

(** [this.debouncedRunTriggersAndNotify(roots, args)]. With debounce options
    the call goes to lodash's [debounce], which owns the timer. *)
Definition debouncedRunTriggersAndNotify (roots : list ReaderRoot)
    (args : RunArgs) : M unit :=
  d <- gets dispatcher ;;
  match d with
  | None =>
      throw (TypeError "this.debouncedRunTriggersAndNotify is not a function")
  | Some Direct => _runTriggersAndNotify roots args
  | Some (Debounced _ _) => emit (DebounceCall roots (nativeEvent args))
  end.

Definition install : M bool :=
  modify (set_dispatcher
    (Some match debounceOptions this with
          | Some o => Debounced (default 0%Z (waitMillis o)) o
          | None => Direct
          end)) ;;
  liftResult (isAvailable env).

(** Shared handler for DOM events. *)
Definition eventHandler (event : JQEvent) : M unit :=
  let element : ReaderRoot := Some (target event) in
  let element :=
    if bool_decide (trigger this = Some Selectionchange)
    then Some (default Document (guessSelectedElement env))
    else element in
  let element :=
    match targetMode this with
    | Root => closest env (target event) (triggerSelector this)
    | EventTarget => element
    end in
  debouncedRunTriggersAndNotify [element]
    {| nativeEvent := Some (originalEvent event);
       shouldRunExtension :=
         Some (if bool_decide (trigger this = Some Statechange)
               then makeShouldRunExtensionForStateChange env (originalEvent event)
               else stubTrue) |}.
End Firing.

(** ** Observers, listeners and the abort controller *)
Section Lifecycle.
Variable env : Env.
Variable this : Instance.

(** jQuery [$elements.off(event, handler)] and [$elements.on(event, handler)]
    for one event name: [off] removes every registration of the handler for
    that event on each element, [on] adds one registration per element. *)
Definition sameListener (elements : list Node) (event : string)
    (handler : nat) (l : Node * string * nat) : bool :=
  bool_decide (l.1.1 ∈ elements) && String.eqb l.1.2 event
    && Nat.eqb l.2 handler.

Definition jqOff (elements : list Node) (event : string) (handler : nat)
    : M unit :=
  emit (JqOff elements event handler) ;;
  modify (set_listeners
    (List.filter (fun l => negb (sameListener elements event handler l)))).

Definition jqOn (elements : list Node) (event : string) (handler : nat)
    : M unit :=
  emit (JqOn elements event handler) ;;
  modify (set_listeners
    (fun ls => ls ++ map (fun n => (n, event, handler)) elements)).

(** [Set.prototype.add] *)
Definition setAdd (x : string) (l : list string) : list string :=
  if bool_decide (x ∈ l) then l else l ++ [x].

Definition newObserver (o : Observer) : M nat :=
  id <- gets nextObserver ;;
  modify (set_observers (cons (id, o)) (S id)) ;;
  ret id.

Definition disconnect (id : nat) : M unit :=
  modify (fun s =>
    set_observers (List.filter (fun o => negb (Nat.eqb o.1 id)))
      (nextObserver s) s).

(** [appearObserver.observe(element)] *)
Definition observe (id : nat) (element : Node) : M unit :=
  modify (fun s =>
    set_observers
      (map (fun o =>
              match o with
              | (i, IntersectionObserver observed) =>
                  if Nat.eqb i id
                  then (i, IntersectionObserver (observed ++ [element]))
                  else o
              | _ => o
              end))
      (nextObserver s) s).

Definition runCancelHandler (h : CancelHandler) : M unit :=
  match h with
  | CancelNoop => ret tt
  | CancelRun _ => ret tt
  | CancelDisconnect id => disconnect id
  | CancelDocumentOff event => jqOff [Document] event (self this)
  end.

(** [abort()] runs the listeners of the current signal in registration
    order; then a new controller replaces the aborted one. *)
Definition cancelObservers : M unit :=
  handlers <- gets cancelHandlers ;;
  forEach runCancelHandler handlers ;;
  modify (fun s => set_abortController (S (generation s)) [] s).

Definition addCancelHandler (callback : CancelHandler) : M unit :=
  modify (fun s =>
    set_abortController (generation s) (cancelHandlers s ++ [callback]) s).

Definition uninstall : M unit :=
  cancelObservers ;;
  if isEmpty (triggerSelector this) then ret tt
  else
    let currentElements := safeFind env (default "" (triggerSelector this)) in
    if (0 <? length currentElements)%nat then
      events <- gets installedEvents ;;
      forEach (fun event => jqOff currentElements event (self this)) events ;;
      modify (set_installedEvents (fun _ => []))
    else ret tt.

(** A use of a value that is [undefined] at run time. *)
Definition deref {A} (x : option A) : M A :=
  match x with
  | Some a => ret a
  | None => throw (TypeError "undefined is not an object")
  end.

(** [getRoot] returns [undefined] ([None]) when the wait was cancelled. *)
Definition getRoot : M (option (list Node)) :=
  let rootSelector := triggerSelector this in
  if isEmpty rootSelector then
    addCancelHandler CancelNoop ;;
    ret (Some [Document])
  else
    let selector := default "" rootSelector in
    addCancelHandler (CancelRun selector) ;;
    match awaitElementOnce env selector with
    | AwaitRejected PromiseCancelled => ret None
    | AwaitRejected error => throw error
    | AwaitResolved => ret (Some (safeFind env selector))
    end.

Definition noEvent : RunArgs :=
  {| nativeEvent := None; shouldRunExtension := None |}.

Definition attachInterval : M unit :=
  cancelObservers ;;
  if (0 <? intervalMillis this)%Z then
    emit (LoggerDebug "Attaching interval trigger") ;;
    signal <- gets generation ;;
    modify (set_intervals
      (cons {| loop_generation := signal;
               loop_intervalMillis := intervalMillis this;
               loop_requestAnimationFrame := negb (allowBackground this) |}))
  else
    emit (LoggerWarn
      "Skipping interval trigger because interval is not greater than zero").

(** The trigger's native event name ([domTrigger] in [attachDOMTrigger]). *)
Definition domTrigger : option string :=
  match trigger this with
  | Some Custom => eventName <$> customTriggerOptions this
  | Some t => Some (trigger_name t)
  | None => None
  end.

(** [attachDOMTrigger] up to its [if (watch)]: all that the call made by the
    mutation observer, with [watch: false], executes. *)
Definition attachDOMTrigger_handlers (element : option (list Node))
    : M unit :=
  match domTrigger with
  | None => throw (BusinessError "No trigger event configured for extension point")
  | Some event =>
      if String.eqb event ""
      then throw (BusinessError "No trigger event configured for extension point")
      else
        elements <- deref element ;;
        jqOff elements event (self this) ;;
        jqOn elements event (self this) ;;
        modify (set_installedEvents (setAdd event))
  end.

Definition observerCallback (callback : ObserverCallback) (element : Node)
    : M unit :=
  match callback with
  | CbRunTriggers =>
      debouncedRunTriggersAndNotify env this [Some element] noEvent
  | CbObserveAppear appearObserver => observe appearObserver element
  | CbAttachDOMTrigger => attachDOMTrigger_handlers (Some [element])
  end.

(** [initialize(selector, callback, { target: document })]: the callback
    runs for the elements that match already, then an observer is left
    watching for insertions. *)
Definition initialize (selector : option string)
    (callback : ObserverCallback) : M nat :=
  forEach (observerCallback callback) (initializeExisting env selector) ;;
  newObserver (MutationObserver selector callback).

Definition attachInitializeTrigger (element : option (list Node)) : M unit :=
  cancelObservers ;;
  match attachMode this with
  | AttachOnce =>
      elements <- deref element ;;
      debouncedRunTriggersAndNotify env this (map Some elements) noEvent
  | AttachWatch =>
      observer <- initialize (triggerSelector this) CbRunTriggers ;;
      addCancelHandler (CancelDisconnect observer)
  end.

Definition attachAppearTrigger (element : option (list Node)) : M unit :=
  cancelObservers ;;
  appearObserver <- newObserver (IntersectionObserver []) ;;
  elements <- deref element ;;
  forEach (observe appearObserver) elements ;;
  match attachMode this with
  | AttachWatch =>
      mutationObserver <-
        initialize (triggerSelector this) (CbObserveAppear appearObserver) ;;
      addCancelHandler (CancelDisconnect mutationObserver)
  | AttachOnce => ret tt
  end ;;
  addCancelHandler (CancelDisconnect appearObserver).

Definition triggerString : string :=
  match trigger this with
  | Some t => trigger_name t
  | None => "undefined"
  end.

Definition attachDocumentTrigger : M unit :=
  jqOff [Document] triggerString (self this) ;;
  jqOn [Document] triggerString (self this) ;;
  modify (set_installedEvents (setAdd triggerString)) ;;
  addCancelHandler (CancelDocumentOff triggerString).

Definition attachDOMTrigger (element : option (list Node)) (watch : bool)
    : M unit :=
  attachDOMTrigger_handlers element ;;
  if watch then
    if bool_decide (head (default [] element) = Some Document) then ret tt
    else
      cancelObservers ;;
      mutationObserver <-
        initialize (triggerSelector this) CbAttachDOMTrigger ;;
      addCancelHandler (CancelDisconnect mutationObserver)
  else ret tt.

Definition assertElement (root : option (list Node)) : M unit :=
  elements <- deref root ;;
  if bool_decide (head elements = Some Document)
  then throw (Error (String.append "Trigger "
                      (String.append triggerString " requires a selector")))
  else ret tt.

Definition run : M unit :=
  cancelObservers ;;
  root <- getRoot ;;
  match trigger this with
  | Some Load =>
      elements <- deref root ;;
      debouncedRunTriggersAndNotify env this (map Some elements) noEvent
  | Some Interval => attachInterval
  | Some Initialize => attachInitializeTrigger root
  | Some Appear =>
      assertElement root ;;
      attachAppearTrigger root
  | Some Selectionchange => attachDocumentTrigger
  | Some Statechange => attachDocumentTrigger
  | Some Custom => attachDOMTrigger root false
  | Some _ =>
      assertElement root ;;
      attachDOMTrigger root (bool_decide (attachMode this = AttachWatch))
  | None =>
      throw (BusinessError "No trigger event configured for extension point")
  end.
End Lifecycle.

(** ** [RemoteTriggerExtensionPoint] and [fromJS] *)

Record TriggerDefinition := {
  def_type : string;
  def_rootSelector : option string;
  def_attachMode : option AttachMode;
  def_background : option bool;
  def_reportMode : option ReportMode;
  def_targetMode : option TargetMode;
  def_trigger : option Trigger;
  def_intervalMillis : option Z;
  def_customEvent : option CustomEventOptions;
  def_debounce : option DebounceOptions;
}.

(** The getters of the subclass, each [definition.field ?? default].
    [handler] names the bound handler created by the constructor and
    [installed] are the extensions added to the extension point. *)
Definition RemoteTriggerExtensionPoint (handler : nat)
    (definition : TriggerDefinition) (installed : list Extension) : Instance :=
  let trigger := default Load (def_trigger definition) in
  {| self := handler;
     trigger := Some trigger;
     attachMode := default AttachOnce (def_attachMode definition);
     intervalMillis := default 0%Z (def_intervalMillis definition);
     allowBackground := default false (def_background definition);
     targetMode := default EventTarget (def_targetMode definition);
     reportMode :=
       default (getDefaultReportModeForTrigger trigger)
               (def_reportMode definition);
     debounceOptions := def_debounce definition;
     customTriggerOptions := def_customEvent definition;
     triggerSelector := def_rootSelector definition;
     extensions := installed |}.

Definition fromJS (handler : nat) (definition : TriggerDefinition)
    (installed : list Extension) : Result Instance :=
  if String.eqb (def_type definition) "trigger"
  then Ok (RemoteTriggerExtensionPoint handler definition installed)
  else Throw (Error (String.append "Expected type=trigger, got "
                                   (def_type definition))).

(** ** The [interval] runner

    The loop has no bound, so it is run with fuel: each unit of fuel pays for
    one test of [signal.aborted]. The page supplies, for the [k]-th pass of
    the loop, the value of [signal.aborted] at its test, how long the
    animation frame took to arrive, and how long the effect ran and how it
    settled. The clock advances by exactly the time slept or awaited. *)

Inductive IntervalEvent :=
| Sleep (millis : Z)
| AnimationFrame
| EffectRun (pass : nat) (settled : Result unit)
| ConsoleDebug (message : string).

Inductive LoopOutcome :=
| LoopCompleted
| LoopRunning
| LoopThrew (t : Thrown).

Section IntervalRunner.
Variable intervalMillis : Z.
Variable requestAnimationFrame : bool.
Variable aborted : nat -> bool.
Variable frameDelay : nat -> Z.
Variable effectGenerator : nat -> Z * Result unit.

(** The [try] block of one pass: the result, the clock afterwards and the
    events. *)
Definition tryBlock (pass : nat) (now : Z)
    : Result unit * Z * list IntervalEvent :=
  let '(now1, frame) :=
    if requestAnimationFrame
    then ((now + frameDelay pass)%Z, [AnimationFrame])
    else (now, []) in
  let '(duration, settled) := effectGenerator pass in
  (settled, (now1 + duration)%Z, frame ++ [EffectRun pass settled]).

(** [try { ... } catch { /* NOP */ }] *)
Definition guarded (pass : nat) (now : Z)
    : Result unit * Z * list IntervalEvent :=
  match tryBlock pass now with
  | (Throw _, now1, events) => (Ok tt, now1, events)
  | ok => ok
  end.

Fixpoint loop (fuel : nat) (pass : nat) (now : Z)
    : LoopOutcome * list IntervalEvent :=
  match fuel with
  | O => (LoopRunning, [])
  | S fuel' =>
      if aborted pass then (LoopCompleted, [ConsoleDebug "interval:completed"])
      else
        let start := now in
        match guarded pass now with
        | (Throw t, _, events) => (LoopThrew t, events)
        | (Ok _, now1, events) =>
            let sleepDuration :=
              Z.max 0 (intervalMillis - (now1 - start)) in
            let '(outcome, rest) :=
              if (0 <? sleepDuration)%Z
              then
                let '(o, r) := loop fuel' (S pass) (now1 + sleepDuration)%Z in
                (o, Sleep sleepDuration :: r)
              else loop fuel' (S pass) now1 in
            (outcome, events ++ rest)
        end
  end.

Definition interval (fuel : nat) (now : Z)
    : LoopOutcome * list IntervalEvent :=
  let '(outcome, events) := loop fuel 0 (now + intervalMillis)%Z in
  (outcome, Sleep intervalMillis :: events).

(** The effect runs recorded in a log, in order. *)
Definition effectRuns (events : list IntervalEvent)
    : list (nat * Result unit) :=
  omap (fun e => match e with
                 | EffectRun pass settled => Some (pass, settled)
                 | _ => None
                 end) events.

(** How the run of the effect on a pass settles. *)
Definition settledAt (pass : nat) : nat * Result unit :=
  (pass, (effectGenerator pass).2).
End IntervalRunner.

(** * Vocabulary of the properties *)

(** ** Calls to the report gate *)

Inductive GateCall :=
| CallError (extensionId : UUID)
| CallEvent (extensionId : UUID).

Definition gateCall (this : Instance) (c : GateCall) : M bool :=
  match c with
  | CallError id => shouldReportError this id
  | CallEvent id => shouldReportEvent this id
  end.

(** The state after a sequence of calls to the gate. *)
Fixpoint gateCalls (this : Instance) (calls : list GateCall) (s : State)
    : State :=
  match calls with
  | [] => s
  | c :: rest => gateCalls this rest (gateCall this c s).2
  end.

(** ** Relating the state before and after a computation

    [preserves R m]: from every state [s], running [m] ends in a state related
    to [s] by [R]. For a preorder [R] the property is inherited by every way
    of putting computations together, whether they return or throw. *)
Definition preserves {A} (R : relation State) (m : M A) : Prop :=
  ∀ s, R s (m s).2.

(** ** What a computation adds to the trace

    [pushes P s s']: the trace of [s'] is the trace of [s] with calls
    satisfying [P] pushed on top. [emits P m]: that is all [m] does to the
    trace. *)
Definition pushes (P : Effect -> Prop) : relation State :=
  fun s s' => ∃ new, trace s' = new ++ trace s ∧ Forall P new.

Definition emits {A} (P : Effect -> Prop) (m : M A) : Prop :=
  preserves (pushes P) m.

(** ** A sample page, used for the concrete runs *)

Definition sampleReader (root : ReaderRoot) : Result ReaderOutput :=
  Ok {[ "title" := JStr "Inbox" ]}.

Definition sampleEnv : Env := {|
  defaultReader := Ok sampleReader;
  makeServiceContext := fun _ => Ok (JObj []);
  reduceExtensionPipeline := fun extension _ _ =>
    if String.eqb (ext_id extension) "ext-fail"
    then Throw (BusinessError "brick failed")
    else Ok JUndefined;
  pickEventProperties := fun e => JObj [("type", JStr (ev_type e))];
  makeShouldRunExtensionForStateChange := fun e extension =>
    String.eqb (ext_id extension) "ext-state";
  awaitElementOnce := fun _ => AwaitResolved;
  safeFind := fun selector =>
    if String.eqb selector ".btn" then [Element 1; Element 2] else [];
  closest := fun node _ => Some node;
  guessSelectedElement := None;
  initializeExisting := fun selector =>
    if bool_decide (selector = Some ".btn") then [Element 1; Element 2]
    else [];
  pluralize := fun count singular plural =>
    if Nat.eqb count 1 then singular else plural;
  isAvailable := Ok true;
|}.

Definition sampleExtension (id : UUID) : Extension :=
  {| ext_id := id; ext_action := JArr []; ext_services := JObj [];
     ext_optionsArgs := JObj [] |}.

Definition sampleDefinition (kind : option Trigger)
    (selector : option string) : TriggerDefinition :=
  {| def_type := "trigger"; def_rootSelector := selector;
     def_attachMode := None; def_background := None; def_reportMode := None;
     def_targetMode := None; def_trigger := kind; def_intervalMillis := None;
     def_customEvent := None; def_debounce := None |}.

(** The state of an instance after [install] without debounce options. *)
Definition installedState : State := set_dispatcher (Some Direct) initialState.

Definition isReportError (e : Effect) : bool :=
  match e with ReportError _ _ => true | _ => false end.
Definition isReaderRead (e : Effect) : bool :=
  match e with ReaderRead _ => true | _ => false end.
Definition isPipelineRun (e : Effect) : bool :=
  match e with PipelineRun _ _ _ => true | _ => false end.

(** The messages shown to the user, most recent first. *)
Definition notifications (t : list Effect) : list string :=
  omap (fun e => match e with NotifyError m => Some m | _ => None end) t.

(** The calls one task of a firing can make: telemetry, the extension's
    logger, and the pipeline on the context and root the task was given. *)
Definition taskEffect (ctxt : ReaderOutput) (root : ReaderRoot)
    (e : Effect) : Prop :=
  match e with
  | ReportError _ _ | ReportEvent _ _ | LoggerInfo _ _ | LoggerError _ _ =>
      True
  | PipelineRun _ input r => input = ctxt ∧ r = root
  | _ => False
  end.

(** The calls a firing can make. *)
Definition firingEffect (e : Effect) : Prop :=
  match e with
  | ReportError _ _ | ReportEvent _ _ | LoggerInfo _ _ | LoggerError _ _
  | PipelineRun _ _ _ | ReaderRead _ => True
  | _ => False
  end.

(** The calls a dispatch can make. *)
Definition dispatchEffect (e : Effect) : Prop :=
  match e with
  | NotifyError _ | DebounceCall _ _ => True
  | _ => firingEffect e
  end.

(** A firing changes the instance only through the gate's two sets and the
    trace. A relation that is a preorder, holds across an update of either
    set, and holds across pushing a call in [P], is a frame for every
    firing whose calls are in [P]. *)
Class FiringFrame (R : relation State) (P : Effect -> Prop) : Prop := {
  frame_preorder : PreOrder R;
  frame_emit : ∀ e s, P e -> R s (set_trace (cons e) s);
  frame_errors : ∀ f s, R s (set_reportedErrors f s);
  frame_events : ∀ f s, R s (set_reportedEvents f s);
}.
#[global] Existing Instance frame_preorder.

Definition reportedRuns (t : list Effect) : list (string * UUID) :=
  omap (fun e => match e with
                 | ReportEvent name id => Some (name, id)
                 | _ => None
                 end) t.

Definition loggedErrors (t : list Effect) : list (UUID * Thrown) :=
  omap (fun e => match e with
                 | LoggerError id error => Some (id, error)
                 | _ => None
                 end) t.

(** A click trigger (report mode [all] by default) with two extensions; the
    pipeline of ["ext-fail"] throws on the sample page. *)
Definition clickInstance : Instance :=
  RemoteTriggerExtensionPoint 7 (sampleDefinition (Some Click) (Some ".btn"))
    [sampleExtension "ext-fail"; sampleExtension "ext-ok"].

(** A [statechange] trigger whose only extension is rejected by the state
    change predicate of the sample page. *)
Definition stateInstance : Instance :=
  RemoteTriggerExtensionPoint 7 (sampleDefinition (Some Statechange) None)
    [sampleExtension "ext-other"].

Definition stateChange : JQEvent :=
  {| target := Document;
     originalEvent := {| ev_type := "statechange"; ev_detail := JObj [] |} |}.

(** How many times [handler] is registered for [event] on [node]: the number
    of calls of the handler when that event is dispatched on the node. *)
Definition registrations (ls : list (Node * string * nat)) (node : Node)
    (event : string) (handler : nat) : nat :=
  length (List.filter (sameListener [node] event handler) ls).

Definition singleListener (this : Instance) (s : State) : Prop :=
  ∀ node event,
    (registrations (listeners s) node event (self this) ≤ 1)%nat.

(** In a trace (most recent call first), every [on] comes directly after the
    [off] of the same handler for the same event on the same elements. *)
Inductive OffBeforeOn : list Effect -> Prop :=
| OffBeforeOn_nil : OffBeforeOn []
| OffBeforeOn_on elements event handler t :
    OffBeforeOn t ->
    OffBeforeOn (JqOn elements event handler
                   :: JqOff elements event handler :: t)
| OffBeforeOn_other e t :
    (∀ elements event handler, e ≠ JqOn elements event handler) ->
    OffBeforeOn t ->
    OffBeforeOn (e :: t).

Definition Tidy (this : Instance) (s : State) : Prop :=
  singleListener this s ∧ OffBeforeOn (trace s).

Definition keepsTidy (this : Instance) : relation State :=
  fun s s' => Tidy this s -> Tidy this s'.

Definition notOn (e : Effect) : Prop :=
  ∀ elements event handler, e ≠ JqOn elements event handler.

(** jQuery's [on] and [off] split their event string at white space into
    event types; a type ends at the dot that starts its namespaces, and an
    empty type is skipped. *)
Definition isWhite (c : Ascii.ascii) : bool :=
  existsb (Ascii.eqb c) [" "; "009"; "010"; "012"; "013"]%char.

Fixpoint splitWhite (word types : string) : list string :=
  match types with
  | EmptyString => [word]
  | String c rest =>
      if isWhite c then word :: splitWhite EmptyString rest
      else splitWhite (String.append word (String c EmptyString)) rest
  end.

Fixpoint beforeDot (word : string) : string :=
  match word with
  | EmptyString => EmptyString
  | String c rest =>
      if Ascii.eqb c "."%char then EmptyString else String c (beforeDot rest)
  end.

Definition eventTypes (types : string) : list string :=
  List.filter (fun type => negb (String.eqb type ""))
    (map beforeDot (splitWhite "" types)).

(** How many times a handler bound with the event string [types] is bound
    for the event type [name]. *)
Definition typeCount (types name : string) : nat :=
  length (List.filter (String.eqb name) (eventTypes types)).

(** The handler calls jQuery makes for an event of type [name] that travels
    along [path]: on each node of the path, one call per binding of the
    handler for that type. *)
Definition handlerCalls (registered : list (Node * string * nat))
    (handler : nat) (name : string) (path : list Node)
    : list (Node * string * nat) :=
  flat_map (fun node =>
    flat_map (fun l =>
      if bool_decide (l.1.1 = node) && Nat.eqb l.2 handler
      then repeat l (typeCount l.1.2 name)
      else []) registered) path.

Inductive Action :=
| CallInstall
| CallRun
| CallUninstall
(** a mutation observer reports an inserted element matching its selector *)
| NodeInserted (observer : nat) (element : Node)
(** an event of type [name] is dispatched on the target of the event object
    and bubbles through [ancestors], innermost first ([[]] for an event that
    does not bubble) *)
| EventDispatched (name : string) (event : JQEvent) (ancestors : list Node).

(** jQuery calls the handler once per binding of the event's type, on the
    target and then on each ancestor the event bubbles through, with the same
    event object. The handler returns a promise, never [false], so no call
    stops the propagation, and a call whose promise rejects does not stop the
    others. *)
Definition act (env : Env) (this : Instance) (a : Action) : M unit :=
  match a with
  | CallInstall => install env this ;; ret tt
  | CallRun => run env this
  | CallUninstall => uninstall env this
  | NodeInserted id element =>
      connected <- gets observers ;;
      match List.find (fun o => Nat.eqb o.1 id) connected with
      | Some (_, MutationObserver _ callback) =>
          observerCallback env this callback element
      | _ => ret tt
      end
  | EventDispatched name event ancestors =>
      registered <- gets listeners ;;
      settled <- allSettled
        (map (fun _ => eventHandler env this event)
           (handlerCalls registered (self this) name
              (target event :: ancestors))) ;;
      ret tt
  end.

(** The state after a script; each action comes with the page it finds. An
    action that throws leaves the state it reached. *)
Fixpoint exec (this : Instance) (script : list (Env * Action)) (s : State)
    : State :=
  match script with
  | [] => s
  | (env, a) :: rest => exec this rest (act env this a s).2
  end.

(** jQuery collections hold each element once. *)
Definition distinctMatches (env : Env) : Prop :=
  ∀ selector, NoDup (safeFind env selector).

(** [returns Q m]: whenever [m] returns normally, its value satisfies [Q]. *)
Definition returns {A} (Q : A -> Prop) (m : M A) : Prop :=
  ∀ s a, (m s).1 = Ok a -> Q a.

(** A click trigger in [watch] mode on [.btn]. *)
Definition watchInstance : Instance :=
  RemoteTriggerExtensionPoint 7
    {| def_type := "trigger"; def_rootSelector := Some ".btn";
       def_attachMode := Some AttachWatch; def_background := None;
       def_reportMode := None; def_targetMode := None;
       def_trigger := Some Click; def_intervalMillis := None;
       def_customEvent := None; def_debounce := None |}
    [sampleExtension "ext-ok"].

(** Install, arm twice, a [.btn] is inserted, a click, arm again. *)
Definition rearmScript : list (Env * Action) :=
  [ (sampleEnv, CallInstall); (sampleEnv, CallRun); (sampleEnv, CallRun);
    (sampleEnv, NodeInserted 1 (Element 3));
    (sampleEnv,
     EventDispatched "click"
       {| target := Element 1;
          originalEvent := {| ev_type := "click"; ev_detail := JNull |} |}
       [Document]);
    (sampleEnv, CallRun) ].

(** Calls that neither attach anything nor fire. *)
Definition quietEffect (e : Effect) : Prop :=
  match e with
  | JqOff _ _ _ | LoggerWarn _ | LoggerDebug _ => True
  | _ => False
  end.

(** [detaches s s']: from [s] to [s'] listeners and observers were at most
    removed, no interval loop was started, and the calls made were quiet. *)
Definition detaches : relation State :=
  fun s s' =>
    listeners s' `sublist_of` listeners s
    ∧ observers s' `sublist_of` observers s
    ∧ intervals s' = intervals s
    ∧ pushes quietEffect s s'.

(** [total m]: [m] never throws. *)
Definition total (m : M unit) : Prop := ∀ s, (m s).1 = Ok tt.

(** The kinds that [run] refuses on the whole document. *)
Definition requiresSelector : list Trigger :=
  [Appear; Click; Dblclick; Blur; Mouseover; Keydown; Keyup; Keypress; Change].

(** The dispatcher is set by [install] only. *)
Definition sameDispatcher : relation State :=
  fun s s' => dispatcher s' = dispatcher s.

(** A signal aborted at the test of the third pass, and an effect whose
    first run is slow and rejects. *)
Definition sampleAborted (pass : nat) : bool := (2 <=? pass)%nat.

Definition sampleEffect (pass : nat) : Z * Result unit :=
  if Nat.eqb pass 0 then (1500%Z, Throw (Error "network"))
  else (200%Z, Ok tt).

(** ** The interval runner's clock *)

(** The time the [try] block of a pass takes: the wait for the animation
    frame, when one is requested, and the run of the effect. *)
Definition elapsed (requestAnimationFrame : bool) (frameDelay : nat -> Z)
    (effectGenerator : nat -> Z * Result unit) (pass : nat) : Z :=
  ((if requestAnimationFrame then frameDelay pass else 0)
   + (effectGenerator pass).1)%Z.

(** The events of the [try] block of a pass. *)
Definition tryEvents (requestAnimationFrame : bool)
    (effectGenerator : nat -> Z * Result unit) (pass : nat)
    : list IntervalEvent :=
  (if requestAnimationFrame then [AnimationFrame] else [])
  ++ [EffectRun pass (effectGenerator pass).2].

(** The clock at the start of the pass reached after [n] passes that began
    with pass [pass] at time [now]: each pass takes the longer of the period
    and the time of its [try] block. *)
Fixpoint clockAfter (period : Z) (requestAnimationFrame : bool)
    (frameDelay : nat -> Z) (effectGenerator : nat -> Z * Result unit)
    (now : Z) (pass n : nat) : Z :=
  match n with
  | O => now
  | S n' =>
      clockAfter period requestAnimationFrame frameDelay effectGenerator
        (now + Z.max period
                 (elapsed requestAnimationFrame frameDelay effectGenerator
                    pass))%Z
        (S pass) n'
  end.

(** The sleeps recorded in a log, in order. *)
Definition sleepsOf (events : list IntervalEvent) : list Z :=
  omap (fun e => match e with Sleep millis => Some millis | _ => None end)
    events.

(** The sleep that follows a pass: the rest of the period, if any is left. *)
Definition restOfPeriod (period : Z) (requestAnimationFrame : bool)
    (frameDelay : nat -> Z) (effectGenerator : nat -> Z * Result unit)
    (pass : nat) : option Z :=
  let d := elapsed requestAnimationFrame frameDelay effectGenerator pass in
  if (d <? period)%Z then Some (period - d)%Z else None.

(** A sleep lasts a positive time. *)
Definition sleepPositive (e : IntervalEvent) : Prop :=
  match e with
  | Sleep millis => (0 < millis)%Z
  | _ => True
  end.

(** ** Pages on which a collaborator fails *)

(** The sample page, except that every service context fails with [t]. *)
Definition brokenServices (t : Thrown) : Env :=
  {| defaultReader := defaultReader sampleEnv;
     makeServiceContext := fun _ => Throw t;
     reduceExtensionPipeline := reduceExtensionPipeline sampleEnv;
     pickEventProperties := pickEventProperties sampleEnv;
     makeShouldRunExtensionForStateChange :=
       makeShouldRunExtensionForStateChange sampleEnv;
     awaitElementOnce := awaitElementOnce sampleEnv;
     safeFind := safeFind sampleEnv;
     closest := closest sampleEnv;
     guessSelectedElement := guessSelectedElement sampleEnv;
     initializeExisting := initializeExisting sampleEnv;
     pluralize := pluralize sampleEnv;
     isAvailable := isAvailable sampleEnv |}.

(** The sample page, except that every read of the reader fails with [t]. *)
Definition brokenReader (t : Thrown) : Env :=
  {| defaultReader := Ok (fun _ => Throw t);
     makeServiceContext := makeServiceContext sampleEnv;
     reduceExtensionPipeline := reduceExtensionPipeline sampleEnv;
     pickEventProperties := pickEventProperties sampleEnv;
     makeShouldRunExtensionForStateChange :=
       makeShouldRunExtensionForStateChange sampleEnv;
     awaitElementOnce := awaitElementOnce sampleEnv;
     safeFind := safeFind sampleEnv;
     closest := closest sampleEnv;
     guessSelectedElement := guessSelectedElement sampleEnv;
     initializeExisting := initializeExisting sampleEnv;
     pluralize := pluralize sampleEnv;
     isAvailable := isAvailable sampleEnv |}.

(** ** Arming, step by step *)

(** The state in which the [switch] of [run] starts, with the root [getRoot]
    gave: observers cancelled, then the root resolved. *)
Definition armed (env : Env) (this : Instance) (s : State)
    : Result (option (list Node)) * State :=
  getRoot env this (cancelObservers this s).2.

(** The registrations [$elements.off(event, handler)] followed by
    [$elements.on(event, handler)] leaves. *)
Definition rebound (elements : list Node) (event : string) (handler : nat)
    (ls : list (Node * string * nat)) : list (Node * string * nat) :=
  List.filter (fun l => negb (sameListener elements event handler l)) ls
  ++ map (fun n => (n, event, handler)) elements.

(** The native events bound to elements by the [default] arm of [run]. *)
Definition elementEvents : list Trigger :=
  [Click; Dblclick; Blur; Mouseover; Keydown; Keyup; Keypress; Change].

(** A [custom] trigger for the page event ["app:ready"], in [watch] mode. *)
Definition customInstance : Instance :=
  RemoteTriggerExtensionPoint 7
    {| def_type := "trigger"; def_rootSelector := Some ".btn";
       def_attachMode := Some AttachWatch; def_background := None;
       def_reportMode := None; def_targetMode := None;
       def_trigger := Some Custom; def_intervalMillis := None;
       def_customEvent := Some {| eventName := "app:ready" |};
       def_debounce := None |}
    [sampleExtension "ext-ok"].

(** [installedEvents] is written by the attach routines and [uninstall]
    only. *)
Definition sameInstalled : relation State :=
  fun s s' => installedEvents s' = installedEvents s.

(** The loop [attachInterval] starts on the signal that is current in
    [s]. *)
Definition startedLoop (this : Instance) (s : State) : IntervalLoop :=
  {| loop_generation := generation s;
     loop_intervalMillis := intervalMillis this;
     loop_requestAnimationFrame := negb (allowBackground this) |}.

(** A [custom] trigger for ["app:ready"] on the whole document. *)
Definition documentCustomInstance : Instance :=
  RemoteTriggerExtensionPoint 7
    {| def_type := "trigger"; def_rootSelector := None;
       def_attachMode := None; def_background := None;
       def_reportMode := None; def_targetMode := None;
       def_trigger := Some Custom; def_intervalMillis := None;
       def_customEvent := Some {| eventName := "app:ready" |};
       def_debounce := None |}
    [sampleExtension "ext-ok"].

(** An [interval] trigger of one second on [.btn]. *)
Definition intervalInstance : Instance :=
  RemoteTriggerExtensionPoint 7
    {| def_type := "trigger"; def_rootSelector := Some ".btn";
       def_attachMode := None; def_background := None;
       def_reportMode := None; def_targetMode := None;
       def_trigger := Some Interval; def_intervalMillis := Some 1000%Z;
       def_customEvent := None; def_debounce := None |}
    [sampleExtension "ext-ok"].

(** The sample page, except that every wait for a selector is cancelled. *)
Definition cancelledWait : Env :=
  {| defaultReader := defaultReader sampleEnv;
     makeServiceContext := makeServiceContext sampleEnv;
     reduceExtensionPipeline := reduceExtensionPipeline sampleEnv;
     pickEventProperties := pickEventProperties sampleEnv;
     makeShouldRunExtensionForStateChange :=
       makeShouldRunExtensionForStateChange sampleEnv;
     awaitElementOnce := fun _ => AwaitRejected PromiseCancelled;
     safeFind := safeFind sampleEnv;
     closest := closest sampleEnv;
     guessSelectedElement := guessSelectedElement sampleEnv;
     initializeExisting := initializeExisting sampleEnv;
     pluralize := pluralize sampleEnv;
     isAvailable := isAvailable sampleEnv |}.

(** ** Observers and their cancel handlers *)

(** The ids of the connected observers. *)
Definition observerIds (s : State) : list nat := map fst (observers s).

(** Every connected observer, those in [pending] apart, has its
    [disconnect] registered on the current signal. *)
Definition CoveredBut (pending : list nat) (s : State) : Prop :=
  ∀ id, id ∈ observerIds s ->
        id ∈ pending ∨ CancelDisconnect id ∈ cancelHandlers s.

Definition Covered (s : State) : Prop := CoveredBut [] s.

(** The same observers are connected and no cancel handler was dropped. *)
Definition sameIds : relation State :=
  fun s s' =>
    observerIds s' = observerIds s
    ∧ ∀ h, h ∈ cancelHandlers s -> h ∈ cancelHandlers s'.

(** Whether a list of cancel handlers disconnects the observer [id]. *)
Definition disconnects (handlers : list CancelHandler) (id : nat) : bool :=
  existsb (fun h => match h with
                    | CancelDisconnect i => Nat.eqb i id
                    | _ => false
                    end) handlers.

(** [hoare P m Q E]: from a state in [P], [m] returns a value and a state in
    [Q], or throws in a state in [E]. *)
Definition hoare {A} (P : State -> Prop) (m : M A)
    (Q : A -> State -> Prop) (E : State -> Prop) : Prop :=
  ∀ s, P s -> match m s with
              | (Ok a, s') => Q a s'
              | (Throw _, s') => E s'
              end.

Definition noObservers (s : State) : Prop := observers s = [].

(** ** What the report gate remembers *)

(** The ids recorded by the gate are still recorded. *)
Definition remembers : relation State :=
  fun s s' =>
    reportedErrors s ⊆ reportedErrors s'
    ∧ reportedEvents s ⊆ reportedEvents s'.

(** A [load] trigger on the whole document; its report mode is [once]. *)
Definition loadInstance : Instance :=
  RemoteTriggerExtensionPoint 7 (sampleDefinition (Some Load) None)
    [sampleExtension "ext-ok"].

(** The page is left and entered again, as on a navigation in a single page
    application. *)
Definition navigationScript : list (Env * Action) :=
  [ (sampleEnv, CallUninstall); (sampleEnv, CallRun) ].

(** ** Firings of a dispatch *)

(** The number of firings that read their root. *)
Definition reads (t : list Effect) : nat :=
  length (List.filter isReaderRead t).

(** The pipelines run, with their roots, most recent first. *)
Definition pipelineRuns (t : list Effect) : list (UUID * ReaderRoot) :=
  omap (fun e => match e with
                 | PipelineRun id _ root => Some (id, root)
                 | _ => None
                 end) t.

(** Every binding of the handler is under the event string of the
    instance. *)
Definition ownTypes (this : Instance) (s : State) : Prop :=
  ∀ l, l ∈ listeners s -> l.2 = self this -> Some l.1.2 = domTrigger this.

(** Every listener that was added is under the event string of the
    instance. *)
Definition bindsOwn (this : Instance) : relation State :=
  fun s s' =>
    ∀ l, l ∈ listeners s' -> l ∈ listeners s ∨ Some l.1.2 = domTrigger this.

(** The nodes of a path on which the handler of the instance is bound. *)
Definition boundNodes (this : Instance) (s : State) (path : list Node)
    : list Node :=
  List.filter
    (fun node =>
       (0 <? registrations (listeners s) node (default "" (domTrigger this))
               (self this))%nat) path.

(** How many times the event string of the instance names the type
    [name]. *)
Definition boundTimes (this : Instance) (name : string) : nat :=
  from_option (fun types => typeCount types name) 0%nat (domTrigger this).

(** Nothing was attached or detached. *)
Definition sameAttached : relation State :=
  fun s s' =>
    listeners s' = listeners s ∧ observers s' = observers s
    ∧ intervals s' = intervals s ∧ installedEvents s' = installedEvents s.

(** A click on the second button of the sample page, taken to lie inside the
    first one. *)
Definition nestedClick : Action :=
  EventDispatched "click"
    {| target := Element 2;
       originalEvent := {| ev_type := "click"; ev_detail := JNull |} |}
    [Element 1; Document].

(** * Properties *)

(** ** Report gate *)

Lemma shouldReportError_result this id s :
  (shouldReportError this id s).1
  = Ok (shouldReport this (bool_decide (id ∈ reportedErrors s))).
Proof. reflexivity. Qed.

Lemma shouldReportEvent_result this id s :
  (shouldReportEvent this id s).1
  = Ok (shouldReport this (bool_decide (id ∈ reportedEvents s))).
Proof. reflexivity. Qed.

Lemma shouldReportError_state this id s :
  reportedErrors (shouldReportError this id s).2 = {[id]} ∪ reportedErrors s
  ∧ reportedEvents (shouldReportError this id s).2 = reportedEvents s.
Proof. split; reflexivity. Qed.

Lemma shouldReportEvent_state this id s :
  reportedEvents (shouldReportEvent this id s).2 = {[id]} ∪ reportedEvents s
  ∧ reportedErrors (shouldReportEvent this id s).2 = reportedErrors s.
Proof. split; reflexivity. Qed.

Lemma gateCalls_grow this calls s :
  reportedErrors s ⊆ reportedErrors (gateCalls this calls s)
  ∧ reportedEvents s ⊆ reportedEvents (gateCalls this calls s).
Proof.
  revert s. induction calls as [|c rest IH]; intros s; simpl.
  - split; reflexivity.
  - destruct c as [id|id]; cbn [gateCall].
    + assert (IHs := IH (shouldReportError this id s).2). destruct IHs as [He Hv].
      destruct (shouldReportError_state this id s) as [E1 E2].
      rewrite E1 in He. rewrite E2 in Hv.
      split; [etrans; [apply union_subseteq_r | exact He] | exact Hv].
    + assert (IHs := IH (shouldReportEvent this id s).2). destruct IHs as [He Hv].
      destruct (shouldReportEvent_state this id s) as [E1 E2].
      rewrite E1 in Hv. rewrite E2 in He.
      split; [exact He | etrans; [apply union_subseteq_r | exact Hv]].
Qed.

Lemma gateCalls_errors_only this ids s :
  reportedEvents (gateCalls this (map CallError ids) s) = reportedEvents s.
Proof.
  revert s. induction ids as [|id rest IH]; intros s; simpl; [done|].
  rewrite IH. reflexivity.
Qed.

Lemma gateCalls_events_only this ids s :
  reportedErrors (gateCalls this (map CallEvent ids) s) = reportedErrors s.
Proof.
  revert s. induction ids as [|id rest IH]; intros s; simpl; [done|].
  rewrite IH. reflexivity.
Qed.

(** C3. Under report mode [once], [shouldReportError] (and likewise
    [shouldReportEvent]) answers [true] on the first call with an id and
    [false] on every later call with that id, whatever calls to the gate come
    in between; under [all] it answers [true] on every call. The two sets are
    independent: calls to [shouldReportError] never change the answer of
    [shouldReportEvent], and conversely. *)
Theorem shouldReport_once_all_independent
    (this : Instance) (id : UUID) (s : State) :
  (reportMode this = ReportOnce →
     (id ∉ reportedErrors s → (shouldReportError this id s).1 = Ok true)
     ∧ (id ∉ reportedEvents s → (shouldReportEvent this id s).1 = Ok true)
     ∧ (∀ calls,
          (shouldReportError this id
             (gateCalls this calls (shouldReportError this id s).2)).1
          = Ok false)
     ∧ (∀ calls,
          (shouldReportEvent this id
             (gateCalls this calls (shouldReportEvent this id s).2)).1
          = Ok false))
  ∧ (reportMode this = ReportAll →
       ∀ calls,
         (shouldReportError this id (gateCalls this calls s)).1 = Ok true
         ∧ (shouldReportEvent this id (gateCalls this calls s)).1 = Ok true)
  ∧ (∀ ids,
       (shouldReportEvent this id (gateCalls this (map CallError ids) s)).1
       = (shouldReportEvent this id s).1)
  ∧ (∀ ids,
       (shouldReportError this id (gateCalls this (map CallEvent ids) s)).1
       = (shouldReportError this id s).1).
Proof.
  split; [|split; [|split]].
  - intros Hmode. split; [|split; [|split]].
    + intros Hnew. rewrite shouldReportError_result.
      unfold shouldReport. rewrite Hmode, bool_decide_eq_false_2; done.
    + intros Hnew. rewrite shouldReportEvent_result.
      unfold shouldReport. rewrite Hmode, bool_decide_eq_false_2; done.
    + intros calls. rewrite shouldReportError_result.
      unfold shouldReport. rewrite Hmode, bool_decide_eq_true_2; [done|].
      apply (gateCalls_grow this calls).
      rewrite (proj1 (shouldReportError_state this id s)). set_solver.
    + intros calls. rewrite shouldReportEvent_result.
      unfold shouldReport. rewrite Hmode, bool_decide_eq_true_2; [done|].
      apply (gateCalls_grow this calls).
      rewrite (proj1 (shouldReportEvent_state this id s)). set_solver.
  - intros Hmode calls.
    rewrite shouldReportError_result, shouldReportEvent_result.
    unfold shouldReport. by rewrite Hmode.
  - intros ids. rewrite !shouldReportEvent_result.
    by rewrite gateCalls_errors_only.
  - intros ids. rewrite !shouldReportError_result.
    by rewrite gateCalls_events_only.
Qed.

Lemma shouldReport_once_all_independent_witness :
  let this :=
    RemoteTriggerExtensionPoint 7 (sampleDefinition (Some Load) None) [] in
  (shouldReportError this "ext-1" initialState).1 = Ok true
  ∧ (shouldReportError this "ext-1"
       (shouldReportError this "ext-1" initialState).2).1 = Ok false.
Proof.
  destruct (shouldReport_once_all_independent
              (RemoteTriggerExtensionPoint 7
                 (sampleDefinition (Some Load) None) [])
              "ext-1" initialState) as [Honce _].
  destruct (Honce eq_refl) as (Hfirst & _ & Hlater & _).
  split; [apply Hfirst, not_elem_of_empty | apply (Hlater [])].
Defined.

Section Preserves.
Context (R : relation State) `{!PreOrder R}.

Lemma preserves_ret {A} (a : A) : preserves R (ret a).
Proof. intros s. reflexivity. Qed.

Lemma preserves_throw {A} t : preserves R (@throw A t).
Proof. intros s. reflexivity. Qed.

Lemma preserves_liftResult {A} (r : Result A) : preserves R (liftResult r).
Proof. intros s. reflexivity. Qed.

Lemma preserves_gets {A} (f : State -> A) : preserves R (gets f).
Proof. intros s. reflexivity. Qed.

Lemma preserves_modify f : (∀ s, R s (f s)) -> preserves R (modify f).
Proof. intros Hf s. apply Hf. Qed.

Lemma preserves_bind {A B} (m : M A) (k : A -> M B) :
  preserves R m -> (∀ a, preserves R (k a)) -> preserves R (bind m k).
Proof.
  intros Hm Hk s. unfold bind. specialize (Hm s).
  destruct (m s) as [[a|t] s1]; simpl in *; [|done].
  etrans; [exact Hm | apply Hk].
Qed.

Lemma preserves_tryCatch {A} (m : M A) (h : Thrown -> M A) :
  preserves R m -> (∀ t, preserves R (h t)) -> preserves R (tryCatch m h).
Proof.
  intros Hm Hh s. unfold tryCatch. specialize (Hm s).
  destruct (m s) as [[a|t] s1]; simpl in *; [done|].
  etrans; [exact Hm | apply Hh].
Qed.

Lemma preserves_when b m : preserves R m -> preserves R (when b m).
Proof. destruct b; [done | intros _; apply preserves_ret]. Qed.

Lemma preserves_forEach {A} (f : A -> M unit) l :
  (∀ a, preserves R (f a)) -> preserves R (forEach f l).
Proof.
  intros Hf. induction l as [|a l IH]; simpl.
  - apply preserves_ret.
  - apply preserves_bind; [apply Hf | intros _; apply IH].
Qed.

Lemma preserves_allSettled {A} (tasks : list (M A)) :
  Forall (preserves R) tasks -> preserves R (allSettled tasks).
Proof.
  induction 1 as [|task rest Ht _ IH]; simpl.
  - apply preserves_ret.
  - intros s. specialize (Ht s). destruct (task s) as [r s1]; simpl in *.
    specialize (IH s1).
    destruct (allSettled rest s1) as [[rs|t] s2]; simpl in *; by etrans.
Qed.

Lemma preserves_promiseAll {A} (tasks : list (M A)) :
  Forall (preserves R) tasks -> preserves R (promiseAll tasks).
Proof.
  intros H. apply preserves_bind; [by apply preserves_allSettled|].
  intros rs. apply preserves_liftResult.
Qed.
End Preserves.

Lemma preserves_weaken {A} (R R' : relation State) (m : M A) :
  (∀ s s', R s s' -> R' s s') -> preserves R m -> preserves R' m.
Proof. intros HR Hm s. apply HR, Hm. Qed.

(** Straight-line code: one rule of the above per step. Updates of the state
    are left to the caller when they are not closed by computation. *)
Ltac preserves_step :=
  first
    [ apply preserves_ret; apply _
    | apply preserves_throw; apply _
    | apply preserves_liftResult; apply _
    | apply preserves_gets; apply _
    | apply preserves_bind; [apply _| |intros ?]
    | apply preserves_tryCatch; [apply _| |intros ?]
    | apply preserves_when; [apply _|]
    | apply preserves_forEach; [apply _|intros ?] ].

#[global] Instance pushes_preorder P : PreOrder (pushes P).
Proof.
  split.
  - intros s. exists []. split; [reflexivity | constructor].
  - intros s1 s2 s3 (n1 & E1 & F1) (n2 & E2 & F2). exists (n2 ++ n1).
    rewrite E2, E1, app_assoc. split; [done | by apply Forall_app].
Qed.

Section Emits.
Context (P : Effect -> Prop).

Lemma emits_ret {A} (a : A) : emits P (ret a).
Proof. apply preserves_ret, _. Qed.

Lemma emits_throw {A} t : emits P (@throw A t).
Proof. apply preserves_throw, _. Qed.

Lemma emits_liftResult {A} (r : Result A) : emits P (liftResult r).
Proof. apply preserves_liftResult, _. Qed.

Lemma emits_gets {A} (f : State -> A) : emits P (gets f).
Proof. apply preserves_gets, _. Qed.

Lemma emits_modify f : (∀ s, trace (f s) = trace s) -> emits P (modify f).
Proof. intros Hf s. exists []. split; [apply Hf | constructor]. Qed.

Lemma emits_emit e : P e -> emits P (emit e).
Proof.
  intros He s. exists [e]. split; [reflexivity | by repeat constructor].
Qed.

Lemma emits_bind {A B} (m : M A) (k : A -> M B) :
  emits P m -> (∀ a, emits P (k a)) -> emits P (bind m k).
Proof. apply preserves_bind, _. Qed.

Lemma emits_tryCatch {A} (m : M A) (h : Thrown -> M A) :
  emits P m -> (∀ t, emits P (h t)) -> emits P (tryCatch m h).
Proof. apply preserves_tryCatch, _. Qed.

Lemma emits_when b m : emits P m -> emits P (when b m).
Proof. apply preserves_when, _. Qed.

Lemma emits_forEach {A} (f : A -> M unit) l :
  (∀ a, emits P (f a)) -> emits P (forEach f l).
Proof. apply preserves_forEach, _. Qed.

Lemma emits_allSettled {A} (tasks : list (M A)) :
  Forall (emits P) tasks -> emits P (allSettled tasks).
Proof. apply preserves_allSettled, _. Qed.

Lemma emits_promiseAll {A} (tasks : list (M A)) :
  Forall (emits P) tasks -> emits P (promiseAll tasks).
Proof. apply preserves_promiseAll, _. Qed.
End Emits.

Lemma emits_weaken {A} (P Q : Effect -> Prop) (m : M A) :
  (∀ e, P e -> Q e) -> emits P m -> emits Q m.
Proof.
  intros HPQ. apply preserves_weaken. intros s s' (new & E & F).
  exists new. split; [done | by eapply Forall_impl].
Qed.

(** ** Firing pipeline *)

#[global] Instance pushes_frame P : FiringFrame (pushes P) P.
Proof.
  split.
  - apply _.
  - intros e s He. exists [e]. split; [reflexivity | by repeat constructor].
  - intros f s. exists []. split; [reflexivity | constructor].
  - intros f s. exists []. split; [reflexivity | constructor].
Qed.

Section FiringFrames.
Context (R : relation State) (P : Effect -> Prop) `{!FiringFrame R P}.
Context (env : Env) (this : Instance).

Lemma emit_preserves e : P e -> preserves R (emit e).
Proof. intros He. apply preserves_modify. intros s. by apply frame_emit. Qed.

Lemma shouldReportError_preserves id : preserves R (shouldReportError this id).
Proof.
  unfold shouldReportError. repeat preserves_step.
  apply preserves_modify, frame_errors.
Qed.

Lemma shouldReportEvent_preserves id : preserves R (shouldReportEvent this id).
Proof.
  unfold shouldReportEvent. repeat preserves_step.
  apply preserves_modify, frame_events.
Qed.

Lemma runExtension_preserves ctxt root extension :
  (∀ e, taskEffect ctxt root e -> P e) ->
  preserves R (runExtension env ctxt extension root).
Proof.
  intros HP. unfold runExtension.
  repeat preserves_step; apply emit_preserves, HP; simpl; auto.
Qed.

Lemma runTask_preserves ctxt root extension :
  (∀ e, taskEffect ctxt root e -> P e) ->
  preserves R (runTask env this ctxt root extension).
Proof.
  intros HP. unfold runTask. apply preserves_bind; [apply _| |].
  - apply preserves_tryCatch; [apply _| |].
    + apply preserves_bind; [apply _| |]; [by apply runExtension_preserves|].
      intros; apply preserves_ret, _.
    + intros t. apply preserves_bind; [apply _| |];
        [apply shouldReportError_preserves|].
      intros b. apply preserves_bind; [apply _| |];
        [|intros; apply preserves_ret, _].
      apply preserves_when; [apply _|]. apply emit_preserves, HP. exact I.
  - intros [error|]; [apply preserves_ret, _|].
    apply preserves_bind; [apply _| |]; [apply shouldReportEvent_preserves|].
    intros b. apply preserves_bind; [apply _| |];
      [|intros; apply preserves_ret, _].
    apply preserves_when; [apply _|]. apply emit_preserves, HP. exact I.
Qed.

Lemma taskEffect_firingEffect ctxt root e :
  taskEffect ctxt root e -> firingEffect e.
Proof. by destruct e. Qed.

Lemma _runTrigger_preserves root args :
  (∀ e, firingEffect e -> P e) ->
  preserves R (_runTrigger env this root args).
Proof.
  intros HP. unfold _runTrigger.
  destruct (length _ =? 0)%nat; [apply preserves_ret, _|].
  apply preserves_bind; [apply _| |]; [apply preserves_liftResult, _|].
  intros reader.
  apply preserves_bind; [apply _| |]; [by apply emit_preserves, HP|].
  intros _.
  apply preserves_bind; [apply _| |]; [apply preserves_liftResult, _|].
  intros out.
  apply preserves_bind; [apply _| |]; [|intros; apply preserves_ret, _].
  apply preserves_promiseAll; [apply _|]. apply Forall_forall. intros task Hin.
  apply (list_elem_of_fmap (runTask env this _ root)) in Hin
    as (extension & -> & _).
  apply runTask_preserves. intros e He. eapply HP, taskEffect_firingEffect, He.
Qed.

Lemma notifyErrors_preserves errors :
  (∀ e, dispatchEffect e -> P e) -> preserves R (notifyErrors env errors).
Proof.
  intros HP. unfold notifyErrors.
  destruct (length errors =? 0)%nat; [apply preserves_ret, _|].
  by apply emit_preserves, HP.
Qed.

Lemma _runTriggersAndNotify_preserves roots args :
  (∀ e, dispatchEffect e -> P e) ->
  preserves R (_runTriggersAndNotify env this roots args).
Proof.
  intros HP. unfold _runTriggersAndNotify.
  apply preserves_bind; [apply _| |].
  - apply preserves_allSettled; [apply _|]. apply Forall_forall.
    intros task Hin. apply list_elem_of_fmap in Hin as (root & -> & _).
    apply _runTrigger_preserves. intros e He. apply HP. by destruct e.
  - intros results. by apply notifyErrors_preserves.
Qed.

Lemma debouncedRunTriggersAndNotify_preserves roots args :
  (∀ e, dispatchEffect e -> P e) ->
  preserves R (debouncedRunTriggersAndNotify env this roots args).
Proof.
  intros HP. unfold debouncedRunTriggersAndNotify.
  apply preserves_bind; [apply _| |]; [apply preserves_gets, _|].
  intros [[|wait options]|].
  - by apply _runTriggersAndNotify_preserves.
  - by apply emit_preserves, HP.
  - apply preserves_throw, _.
Qed.

Lemma eventHandler_preserves event :
  (∀ e, dispatchEffect e -> P e) -> preserves R (eventHandler env this event).
Proof. intros HP. by apply debouncedRunTriggersAndNotify_preserves. Qed.
End FiringFrames.

(** A pipeline failure never leaves [runExtension]: its [catch] logs the
    error and the method returns normally, so the task of [_runTrigger] takes
    the success path. *)
Lemma runTask_pipeline_failure env this ctxt root extension context t s :
  makeServiceContext env (ext_services extension) = Ok context ->
  reduceExtensionPipeline env extension ctxt root = Throw t ->
  let r := runTask env this ctxt root extension s in
  r.1 = Ok None
  ∧ trace r.2 =
      (if shouldReport this (bool_decide (ext_id extension ∈ reportedEvents s))
       then [ReportEvent "TriggerRun" (ext_id extension)] else [])
      ++ [LoggerError (ext_id extension) t;
          PipelineRun (ext_id extension) ctxt root] ++ trace s
  ∧ reportedErrors r.2 = reportedErrors s.
Proof.
  intros Hsc Hfail. unfold runTask, runExtension, tryCatch, bind, liftResult.
  rewrite Hsc. simpl. rewrite Hfail. simpl.
  destruct (shouldReport this _); simpl; auto.
Qed.

(** With no eligible extension, [_runTrigger] returns at once. *)
Lemma _runTrigger_no_eligible env this root args s :
  List.filter (default stubTrue (shouldRunExtension args)) (extensions this)
    = [] ->
  _runTrigger env this root args s = (Ok [], s).
Proof. intros H. unfold _runTrigger. rewrite H. reflexivity. Qed.

(** C1. The firing of [clickInstance] on the sample page: the pipeline of
    ["ext-fail"] throws and the gate would allow the error to be reported, yet
    the firing returns an empty error list and makes no call to the error
    collector; the error is only logged, and a successful run is reported for
    the failed extension. The sibling ["ext-ok"] runs to the end. *)
Theorem runTrigger_pipeline_failure_swallowed :
  let root := Some (Element 1) in
  let r := _runTrigger sampleEnv clickInstance root noEvent installedState in
  reduceExtensionPipeline sampleEnv (sampleExtension "ext-fail")
    (readerContext sampleEnv None {[ "title" := JStr "Inbox" ]}) root
    = Throw (BusinessError "brick failed")
  ∧ (shouldReportError clickInstance "ext-fail" installedState).1 = Ok true
  ∧ r.1 = Ok []
  ∧ List.filter isReportError (trace r.2) = []
  ∧ loggedErrors (trace r.2) = [("ext-fail", BusinessError "brick failed")]
  ∧ reportedRuns (trace r.2)
    = [("TriggerRun", "ext-ok"); ("TriggerRun", "ext-fail")].
Proof. vm_compute. repeat split; reflexivity. Qed.

(** C2, as stated, fails: when the reader's record has an [event] key, the
    context holds the reader's value, not the projection of the native
    event. *)
Lemma readerContext_event_precedence_fails :
  let e := {| ev_type := "click"; ev_detail := JNull |} in
  let readerOutput : ReaderOutput := {[ "event" := JStr "from the reader" ]} in
  readerContext sampleEnv (Some e) readerOutput !! "event"
  = Some (JStr "from the reader")
  ∧ readerContext sampleEnv (Some e) readerOutput !! "event"
    ≠ Some (pickEventProperties sampleEnv e).
Proof. vm_compute. split; [reflexivity | discriminate]. Qed.

Lemma readerContext_lookup env nativeEvent (readerOutput : ReaderOutput) k :
  readerContext env nativeEvent readerOutput !! k
  = match readerOutput !! k with
    | Some v => Some v
    | None =>
        if bool_decide (k = "event")
        then Some (match nativeEvent with
                   | Some e => pickEventProperties env e
                   | None => JNull
                   end)
        else None
    end.
Proof.
  unfold readerContext. rewrite lookup_union.
  destruct (readerOutput !! k) as [v|] eqn:E.
  - by rewrite union_Some_l.
  - rewrite (left_id None _). case_bool_decide as Hk.
    + subst k. by rewrite lookup_singleton_eq.
    + by rewrite lookup_singleton_ne.
Qed.

(** C2, amended. In a firing with at least one eligible extension whose
    reader is available and reads the root successfully, the reader is
    applied to the root exactly once, every pipeline of the firing receives
    the same context, and that context is the reader's record extended with
    the key [event] (the projection of the native event, or null without one):
    on a collision the reader's value takes precedence. *)
Theorem runTrigger_context_once_reader_wins
    (env : Env) (this : Instance) (root : ReaderRoot) (args : RunArgs)
    (s : State) (reader : ReaderRoot -> Result ReaderOutput)
    (readerOutput : ReaderOutput) :
  List.filter (default stubTrue (shouldRunExtension args)) (extensions this)
    ≠ [] ->
  defaultReader env = Ok reader ->
  reader root = Ok readerOutput ->
  let r := _runTrigger env this root args s in
  let ctxt := readerContext env (nativeEvent args) readerOutput in
  (∃ new,
     trace r.2 = new ++ trace s
     ∧ List.filter isReaderRead new = [ReaderRead root]
     ∧ ∀ id input root', PipelineRun id input root' ∈ new -> input = ctxt)
  ∧ (∀ k v, readerOutput !! k = Some v -> ctxt !! k = Some v)
  ∧ (readerOutput !! "event" = None ->
     ctxt !! "event"
     = Some (match nativeEvent args with
             | Some e => pickEventProperties env e
             | None => JNull
             end)).
Proof.
  intros Hsome Hreader Hread r ctxt. split; [|split].
  - subst r. unfold _runTrigger.
    destruct (List.filter _ _) as [|e0 rest] eqn:Hf; [done|].
    cbn [length Nat.eqb]. unfold bind at 1. rewrite Hreader.
    cbn [liftResult]. unfold bind at 1. cbn [emit modify].
    unfold bind at 1. rewrite Hread. cbn [liftResult].
    fold ctxt.
    assert (Htasks : emits (taskEffect ctxt root)
              (promiseAll (map (runTask env this ctxt root) (e0 :: rest)))).
    { apply emits_promiseAll, Forall_forall. intros task Hin.
      apply (list_elem_of_fmap (runTask env this _ root)) in Hin
        as (extension & -> & _).
      by apply (runTask_preserves _ (taskEffect ctxt root)). }
    destruct (Htasks (set_trace (cons (ReaderRead root)) s))
      as (new & Enew & Fnew).
    exists (new ++ [ReaderRead root]).
    unfold bind. destruct (promiseAll _ _) as [[errors|t] s1]; simpl in *;
      rewrite Enew, <- app_assoc; (split; [done|]).
    all: split;
      [ rewrite List.filter_app; simpl;
        replace (List.filter isReaderRead new) with (@nil Effect); [done|];
        symmetry; clear Enew; induction Fnew as [|e l He _ IH]; [done|];
        simpl; destruct e; simpl in *; try done
      | intros id input root' Hin;
        apply elem_of_app in Hin as [Hin|Hin];
        [ rewrite Forall_forall in Fnew; apply Fnew in Hin; simpl in Hin;
          tauto
        | apply list_elem_of_singleton in Hin; discriminate Hin ] ].
  - intros k v Hk. subst ctxt. by rewrite readerContext_lookup, Hk.
  - intros Hk. subst ctxt. by rewrite readerContext_lookup, Hk.
Qed.

Lemma runTrigger_context_once_reader_wins_witness :
  let root := Some (Element 1) in
  let out : ReaderOutput := {[ "title" := JStr "Inbox" ]} in
  let r := _runTrigger sampleEnv clickInstance root noEvent installedState in
  let ctxt := readerContext sampleEnv None out in
  (∃ new,
     trace r.2 = new ++ trace installedState
     ∧ List.filter isReaderRead new = [ReaderRead root]
     ∧ ∀ id input root', PipelineRun id input root' ∈ new -> input = ctxt)
  ∧ (∀ k v, out !! k = Some v -> ctxt !! k = Some v)
  ∧ (out !! "event" = None -> ctxt !! "event" = Some JNull).
Proof.
  apply (runTrigger_context_once_reader_wins sampleEnv clickInstance
           (Some (Element 1)) noEvent installedState sampleReader
           {[ "title" := JStr "Inbox" ]}).
  - vm_compute. discriminate.
  - reflexivity.
  - reflexivity.
Defined.

Lemma allSettled_fulfils {A} (tasks : list (M A)) s :
  ∃ results, (allSettled tasks s).1 = Ok results
             ∧ length results = length tasks.
Proof.
  revert s. induction tasks as [|task rest IH]; intros s; simpl.
  - by exists [].
  - destruct (task s) as [r s1]. destruct (IH s1) as (rs & E & L).
    destruct (allSettled rest s1) as [[rs'|t] s2]; simpl in *; [|done].
    exists (r :: rs'). split; [done|]. simpl. congruence.
Qed.

Lemma notifications_app t1 t2 :
  notifications (t1 ++ t2) = notifications t1 ++ notifications t2.
Proof. unfold notifications. apply omap_app. Qed.

Lemma notifications_none new :
  Forall (fun e => notifications [e] = []) new -> notifications new = [].
Proof.
  induction 1 as [|e l He _ IH]; [done|].
  change (e :: l) with ([e] ++ l). by rewrite notifications_app, He, IH.
Qed.

Lemma allSettled_outcomes {X A} (f : X -> M A) (xs : list X) s results :
  (allSettled (map f xs) s).1 = Ok results ->
  Forall2 (fun x result => ∃ s', result = (f x s').1) xs results.
Proof.
  revert s results. induction xs as [|x xs IH]; intros s results; simpl.
  - intros [= <-]. constructor.
  - destruct (f x s) as [r s1] eqn:Ex.
    specialize (IH s1). destruct (allSettled (map f xs) s1) as [[rs|t] s2];
      simpl in *; [|done].
    intros [= <-]. constructor; [|by apply IH].
    exists s. by rewrite Ex.
Qed.

(** C5. A dispatch over any roots settles the firing of every root, in
    order, and never rejects. The error list is the concatenation, over the
    results, of the errors a fulfilled firing returned and of the reason of a
    rejected one (the items of the reason when it is an array): every error
    of a fulfilled firing and every reason that is not an array is in it.
    The dispatch shows no notification when that list is empty and exactly
    one when it is not, whose text is built from the number of errors by
    [pluralize]. *)
Theorem runTriggersAndNotify_one_notification
    (env : Env) (this : Instance) (roots : list ReaderRoot) (args : RunArgs)
    (s : State) :
  let fire := fun root =>
    _runTrigger env this root
      {| nativeEvent := nativeEvent args; shouldRunExtension := None |} in
  let r := _runTriggersAndNotify env this roots args s in
  ∃ results,
    (allSettled (map fire roots) s).1 = Ok results
    ∧ length results = length roots
    ∧ Forall2 (fun root result => ∃ s', result = (fire root s').1)
        roots results
    ∧ r.1 = Ok tt
    ∧ let errors :=
        flat_map (fun result =>
                    match result with
                    | Ok value => value
                    | Throw (ThrownValue (JArr items)) => map ThrownValue items
                    | Throw reason => [reason]
                    end) results in
      notifications (trace r.2)
      = (if (length errors =? 0)%nat then []
         else [String.append "An error occurred running "
                 (pluralize env (length errors) "a trigger" "$$ triggers")])
        ++ notifications (trace s)
      ∧ (∀ value error, Ok value ∈ results -> error ∈ value -> error ∈ errors)
      ∧ (∀ reason, Throw reason ∈ results ->
                   (∀ items, reason ≠ ThrownValue (JArr items)) ->
                   reason ∈ errors).
Proof.
  intros fire r.
  destruct (allSettled_fulfils (map fire roots) s) as (results & E & L).
  exists results. split; [done|]. split; [by rewrite L; apply length_map|].
  split; [by apply (allSettled_outcomes fire roots s)|].
  assert (Hemits : emits (fun e => notifications [e] = [])
                     (allSettled (map fire roots))).
  { apply emits_allSettled, Forall_forall. intros task Hin.
    apply list_elem_of_fmap in Hin as (root & -> & _).
    apply (_runTrigger_preserves _ (fun e => notifications [e] = [])).
    by intros []. }
  destruct (Hemits s) as (new & Enew & Fnew).
  split; [|split; [|split]].
  - subst r. unfold _runTriggersAndNotify. fold fire. unfold bind.
    destruct (allSettled (map fire roots) s) as [[rs|t] s1]; simpl in E;
      [|done].
    unfold notifyErrors. by destruct (length _ =? 0)%nat.
  - subst r. unfold _runTriggersAndNotify. fold fire. unfold bind.
    destruct (allSettled (map fire roots) s) as [[rs|t] s1]; simpl in E;
      [|done].
    injection E as ->. simpl in Enew. unfold notifyErrors.
    change (flat_map _ results) with (flat_map settledErrors results).
    destruct (length (flat_map settledErrors results) =? 0)%nat; simpl;
      rewrite Enew; by rewrite notifications_app, notifications_none.
  - intros value error Hin Herror. apply list_elem_of_In, in_flat_map.
    exists (Ok value). split; by apply list_elem_of_In.
  - intros reason Hin Hreason. apply list_elem_of_In, in_flat_map.
    exists (Throw reason). split; [by apply list_elem_of_In|].
    apply list_elem_of_In.
    destruct reason as [name message| |[| | | | |items|]];
      try apply list_elem_of_singleton; try done.
    by destruct (Hreason items).
Qed.

(** C6. The handler builds, for the [statechange] event, a predicate that
    accepts no extension of [stateInstance]; given that predicate,
    [_runTrigger] returns without reading. But the dispatch started by the
    handler reaches [_runTrigger] without the predicate: the reader is
    applied to the root and the pipeline of the rejected extension runs. *)
Theorem statechange_predicate_dropped :
  let predicate :=
    makeShouldRunExtensionForStateChange sampleEnv (originalEvent stateChange) in
  let r := eventHandler sampleEnv stateInstance stateChange installedState in
  List.filter predicate (extensions stateInstance) = []
  ∧ _runTrigger sampleEnv stateInstance (Some Document)
      {| nativeEvent := Some (originalEvent stateChange);
         shouldRunExtension := Some predicate |} installedState
    = (Ok [], installedState)
  ∧ r.1 = Ok tt
  ∧ List.filter isReaderRead (trace r.2) = [ReaderRead (Some Document)]
  ∧ map (fun e => match e with
                  | PipelineRun id _ root => Some (id, root)
                  | _ => None
                  end)
        (List.filter isPipelineRun (trace r.2))
    = [Some ("ext-other", Some Document)].
Proof.
  split; [reflexivity|]. split; [reflexivity|].
  vm_compute. repeat split; reflexivity.
Qed.

(** ** Interval runner *)
Section IntervalProperties.
Variable period : Z.
Variable raf : bool.
Variable aborted : nat -> bool.
Variable frameDelay : nat -> Z.
Variable effectGenerator : nat -> Z * Result unit.

Local Abbreviation settledAt := (settledAt effectGenerator).

Lemma guarded_never_throws pass now :
  ∃ now1 events,
    guarded raf frameDelay effectGenerator pass now = (Ok tt, now1, events)
    ∧ effectRuns events = [settledAt pass].
Proof.
  unfold guarded, tryBlock, settledAt.
  destruct (effectGenerator pass) as [duration settled]. simpl.
  destruct raf, settled as [[]|t]; simpl; eauto.
Qed.

Lemma effectRuns_app l1 l2 :
  effectRuns (l1 ++ l2) = effectRuns l1 ++ effectRuns l2.
Proof. unfold effectRuns. apply omap_app. Qed.

(** One unfolding of a pass that is not aborted. *)
Lemma loop_step fuel pass now :
  aborted pass = false ->
  ∃ now' events sleeps,
    effectRuns events = [settledAt pass]
    ∧ effectRuns sleeps = []
    ∧ loop period raf aborted frameDelay effectGenerator (S fuel) pass now
      = let r := loop period raf aborted frameDelay effectGenerator
                   fuel (S pass) now' in
        (r.1, events ++ sleeps ++ r.2).
Proof.
  intros Hrun. simpl. rewrite Hrun.
  destruct (guarded_never_throws pass now) as (now1 & events & -> & Hruns).
  destruct (0 <? Z.max 0 (period - (now1 - now)))%Z.
  - exists (now1 + Z.max 0 (period - (now1 - now)))%Z, events,
      [Sleep (Z.max 0 (period - (now1 - now)))].
    split; [done|]. split; [done|].
    by destruct (loop _ _ _ _ _ fuel (S pass) _).
  - exists now1, events, []. split; [done|]. split; [done|].
    by destruct (loop _ _ _ _ _ fuel (S pass) _).
Qed.

Lemma loop_spec fuel : ∀ pass now,
  let r := loop period raf aborted frameDelay effectGenerator fuel pass now in
  match r.1 with
  | LoopThrew _ => False
  | LoopCompleted =>
      ∃ n, n < fuel ∧ aborted (pass + n) = true
           ∧ (∀ j, j < n -> aborted (pass + j) = false)
           ∧ effectRuns r.2 = map settledAt (seq pass n)
  | LoopRunning =>
      (∀ j, j < fuel -> aborted (pass + j) = false)
      ∧ effectRuns r.2 = map settledAt (seq pass fuel)
  end.
Proof.
  induction fuel as [|fuel IH]; intros pass now.
  - simpl. split; [lia | done].
  - destruct (aborted pass) eqn:Hnow.
    + simpl. rewrite Hnow. simpl. exists 0. rewrite Nat.add_0_r.
      repeat split; [lia | done | lia].
    + destruct (loop_step fuel pass now Hnow)
        as (now' & events & sleeps & Hev & Hsl & ->).
      specialize (IH (S pass) now'). cbn zeta in *.
      destruct (loop _ _ _ _ _ fuel (S pass) now') as [outcome rest].
      cbn [fst snd] in *.
      rewrite !effectRuns_app, Hev, Hsl. cbn [app].
      destruct outcome as [| |t]; [| |done].
      * destruct IH as (n & Hn & Hab & Hbefore & Hruns).
        exists (S n). rewrite Nat.add_succ_r. repeat split; [lia | done | |].
        -- intros [|j] Hj; [by rewrite Nat.add_0_r|].
           rewrite Nat.add_succ_r. apply Hbefore. lia.
        -- by rewrite Hruns.
      * destruct IH as (Hbefore & Hruns). split.
        -- intros [|j] Hj; [by rewrite Nat.add_0_r|].
           rewrite Nat.add_succ_r. apply Hbefore. lia.
        -- by rewrite Hruns.
Qed.

(** C7. Whatever the period, the effect and the way each of its runs
    settles: [interval] never throws; it completes only if some test of the
    signal found it aborted; and as long as the signal is not aborted the
    effect is run on every pass, a rejected run being followed by the next
    pass like a fulfilled one. Once the signal is aborted at the test of
    pass [n], the loop completes, having run the effect on the passes
    before [n], all of them. *)
Theorem interval_swallows_effect_failures (now : Z) :
  let run := interval period raf aborted frameDelay effectGenerator in
  (∀ fuel t, (run fuel now).1 ≠ LoopThrew t)
  ∧ (∀ fuel, (run fuel now).1 = LoopCompleted ->
             ∃ n, n < fuel ∧ aborted n = true)
  ∧ (∀ fuel, (∀ j, j < fuel -> aborted j = false) ->
             (run fuel now).1 = LoopRunning
             ∧ effectRuns (run fuel now).2 = map settledAt (seq 0 fuel))
  ∧ (∀ n fuel, (∀ j, j < n -> aborted j = false) -> aborted n = true ->
               n < fuel ->
               (run fuel now).1 = LoopCompleted
               ∧ effectRuns (run fuel now).2 = map settledAt (seq 0 n)).
Proof.
  intros run.
  assert (Hspec : ∀ fuel,
    match (run fuel now).1 with
    | LoopThrew _ => False
    | LoopCompleted =>
        ∃ n, n < fuel ∧ aborted n = true
             ∧ (∀ j, j < n -> aborted j = false)
             ∧ effectRuns (run fuel now).2 = map settledAt (seq 0 n)
    | LoopRunning =>
        (∀ j, j < fuel -> aborted j = false)
        ∧ effectRuns (run fuel now).2 = map settledAt (seq 0 fuel)
    end).
  { intros fuel. unfold run, interval.
    pose proof (loop_spec fuel 0 (now + period)%Z) as H. cbn zeta in H.
    destruct (loop _ _ _ _ _ _ _ _) as [outcome events].
    cbn [fst snd] in *. exact H. }
  split; [|split; [|split]].
  - intros fuel t E. specialize (Hspec fuel). by rewrite E in Hspec.
  - intros fuel E. specialize (Hspec fuel). rewrite E in Hspec.
    destruct Hspec as (n & Hn & Hab & _). eauto.
  - intros fuel Hlive. specialize (Hspec fuel).
    destruct (run fuel now).1 as [| |t]; [|by destruct Hspec|done].
    destruct Hspec as (n & Hn & Hab & _). by rewrite Hlive in Hab.
  - intros n fuel Hlive Hab Hfuel. specialize (Hspec fuel).
    destruct (run fuel now).1 as [| |t]; [| |done].
    + destruct Hspec as (m & Hm & Habm & Hbefore & Hruns).
      assert (m = n) as ->; [|done].
      destruct (Nat.lt_trichotomy m n) as [Hlt|[->|Hgt]]; [|done|].
      * by rewrite (Hlive m Hlt) in Habm.
      * by rewrite (Hbefore n Hgt) in Hab.
    + destruct Hspec as (Hbefore & _). by rewrite (Hbefore n Hfuel) in Hab.
Qed.
End IntervalProperties.

Lemma interval_swallows_effect_failures_witness :
  let run := interval 1000 true sampleAborted (fun _ => 16%Z) sampleEffect in
  (run 5 0%Z).1 = LoopCompleted
  ∧ effectRuns (run 5 0%Z).2 = [(0, Throw (Error "network")); (1, Ok tt)].
Proof.
  destruct (interval_swallows_effect_failures 1000 true sampleAborted
              (fun _ => 16%Z) sampleEffect 0%Z) as (_ & _ & _ & H).
  apply (H 2 5).
  - intros [|[|j]] Hj; [reflexivity | reflexivity | lia].
  - reflexivity.
  - lia.
Defined.

(** The log of that run: the rejected first run is followed, without sleep
    since it overran the period, by the second pass. *)
Example interval_sample_log :
  interval 1000 true sampleAborted (fun _ => 16%Z) sampleEffect 5 0%Z
  = (LoopCompleted,
     [Sleep 1000;
      AnimationFrame; EffectRun 0 (Throw (Error "network"));
      AnimationFrame; EffectRun 1 (Ok tt); Sleep 784;
      ConsoleDebug "interval:completed"]).
Proof. reflexivity. Qed.

(** ** Listeners *)

Lemma sameListener_spec elements event handler n e h :
  sameListener elements event handler (n, e, h) = true
  ↔ n ∈ elements ∧ e = event ∧ h = handler.
Proof.
  unfold sameListener. simpl.
  rewrite !andb_true_iff, bool_decide_eq_true, String.eqb_eq, Nat.eqb_eq.
  tauto.
Qed.

Lemma sameListener_one node event handler l :
  sameListener [node] event handler l = true -> l = (node, event, handler).
Proof.
  destruct l as [[n e] h]. rewrite sameListener_spec.
  intros (Hn & -> & ->). by apply list_elem_of_singleton in Hn as ->.
Qed.

Lemma sameListener_self node event handler :
  sameListener [node] event handler (node, event, handler) = true.
Proof. apply sameListener_spec. split; [apply list_elem_of_singleton|]; done. Qed.

Lemma registrations_off ls elements ev h node event handler :
  registrations
    (List.filter (fun l => negb (sameListener elements ev h l)) ls)
    node event handler
  = if sameListener elements ev h (node, event, handler) then 0
    else registrations ls node event handler.
Proof.
  unfold registrations. induction ls as [|a ls IH]; simpl.
  - by destruct (sameListener elements ev h _).
  - destruct (sameListener elements ev h a) eqn:Ha; simpl.
    + rewrite IH.
      destruct (sameListener elements ev h (node, event, handler)) eqn:Hc;
        [done|].
      destruct (sameListener [node] event handler a) eqn:Hp; [|done].
      apply sameListener_one in Hp as ->. congruence.
    + destruct (sameListener [node] event handler a) eqn:Hp; simpl;
        rewrite IH; [|done].
      apply sameListener_one in Hp as ->. by rewrite Ha.
Qed.

Lemma registrations_added elements ev h node event handler :
  NoDup elements ->
  length (List.filter (sameListener [node] event handler)
            (map (fun n => (n, ev, h)) elements))
  = if sameListener elements ev h (node, event, handler) then 1 else 0.
Proof.
  set (target := (node, event, handler)).
  induction 1 as [|n elements Hn _ IH]; cbn [map List.filter length].
  - destruct (sameListener [] ev h target) eqn:E; [|done].
    apply sameListener_spec in E as (E & _). by apply elem_of_nil in E.
  - destruct (sameListener [node] event handler (n, ev, h)) eqn:Hp;
      cbn [length]; rewrite IH.
    + apply sameListener_one in Hp. injection Hp as -> -> ->.
      assert (sameListener elements event handler target = false) as ->.
      { apply not_true_is_false. intros E.
        by apply sameListener_spec in E as (E & _). }
      assert (sameListener (node :: elements) event handler target = true)
        as ->; [|done].
      apply sameListener_spec. split; [apply elem_of_cons; by left | done].
    + assert (sameListener (n :: elements) ev h target
              = sameListener elements ev h target) as ->; [|done].
      apply eq_true_iff_eq. unfold target.
      rewrite !sameListener_spec, elem_of_cons.
      split; [|tauto]. intros ([->|Hin] & -> & ->); [|done].
      by rewrite sameListener_self in Hp.
Qed.

Lemma registrations_on ls elements ev h node event handler :
  NoDup elements ->
  registrations (ls ++ map (fun n => (n, ev, h)) elements) node event handler
  = registrations ls node event handler
    + if sameListener elements ev h (node, event, handler) then 1 else 0.
Proof.
  intros Hnd. unfold registrations.
  by rewrite List.filter_app, length_app, registrations_added.
Qed.

#[global] Instance keepsTidy_preorder this : PreOrder (keepsTidy this).
Proof.
  split; [intros s H; exact H | intros s1 s2 s3 H1 H2 H; exact (H2 (H1 H))].
Qed.

Lemma keepsTidy_same this s s' :
  listeners s' = listeners s -> trace s' = trace s -> keepsTidy this s s'.
Proof.
  intros Hl Ht [H1 H2]. split.
  - intros node event. rewrite Hl. apply H1.
  - by rewrite Ht.
Qed.

#[global] Instance keepsTidy_frame this : FiringFrame (keepsTidy this) notOn.
Proof.
  split.
  - apply _.
  - intros e s He [H1 H2]. split; [exact H1|]. simpl. by constructor.
  - intros f s. by apply keepsTidy_same.
  - intros f s. by apply keepsTidy_same.
Qed.

(** ** What the host and the page do to an instance *)

Lemma preserves_bind_returns {A B} (R : relation State) `{!PreOrder R}
    (Q : A -> Prop) (m : M A) (k : A -> M B) :
  preserves R m -> returns Q m -> (∀ a, Q a -> preserves R (k a)) ->
  preserves R (bind m k).
Proof.
  intros Hm HQ Hk s. unfold bind. specialize (Hm s). specialize (HQ s).
  destruct (m s) as [[a|t] s1]; simpl in *; [|done].
  etrans; [exact Hm | by apply Hk, HQ].
Qed.

Create HintDb tidy.

Section TidyLifecycle.
Context (env : Env) (this : Instance).
Hypothesis distinct : distinctMatches env.

Local Abbreviation R := (keepsTidy this).

Ltac tidy_step :=
  first
    [ solve [auto 3 with tidy nocore]
    | preserves_step
    | apply preserves_modify; intros ?; apply keepsTidy_same; reflexivity
    | apply (emit_preserves R notOn); intros ? ? ?; discriminate ].

Lemma jqOff_state elements event handler s :
  listeners (jqOff elements event handler s).2
  = List.filter (fun l => negb (sameListener elements event handler l))
      (listeners s)
  ∧ trace (jqOff elements event handler s).2
    = JqOff elements event handler :: trace s.
Proof. split; reflexivity. Qed.

Lemma offOn_state {A} elements event handler (k : M A) s :
  ∃ s1,
    (jqOff elements event handler ;; jqOn elements event handler ;; k) s
    = k s1
    ∧ listeners s1
      = List.filter (fun l => negb (sameListener elements event handler l))
          (listeners s)
        ++ map (fun n => (n, event, handler)) elements
    ∧ trace s1
      = JqOn elements event handler :: JqOff elements event handler
          :: trace s.
Proof. eexists. split; [reflexivity|]. split; reflexivity. Qed.

Lemma jqOff_tidy elements event handler :
  preserves R (jqOff elements event handler).
Proof.
  intros s [H1 H2].
  destruct (jqOff_state elements event handler s) as [El Et]. split.
  - intros node ev. rewrite El, registrations_off.
    destruct (sameListener _ _ _ _); [lia | apply H1].
  - rewrite Et. by constructor.
Qed.
#[local] Hint Resolve jqOff_tidy : tidy.

Lemma offOn_tidy {A} elements event (k : M A) :
  NoDup elements -> preserves R k ->
  preserves R (jqOff elements event (self this) ;;
               jqOn elements event (self this) ;; k).
Proof.
  intros Hnd Hk s.
  destruct (offOn_state elements event (self this) k s) as (s1 & -> & El & Et).
  etrans; [|apply Hk]. intros [H1 H2]. split.
  - intros node ev. rewrite El, registrations_on, registrations_off by done.
    destruct (sameListener _ _ _ _); [lia|].
    specialize (H1 node ev). lia.
  - rewrite Et. by constructor.
Qed.
#[local] Hint Resolve offOn_tidy : tidy.

Lemma disconnect_tidy id : preserves R (disconnect id).
Proof. unfold disconnect. tidy_step. Qed.
#[local] Hint Resolve disconnect_tidy : tidy.

Lemma observe_tidy id element : preserves R (observe id element).
Proof. unfold observe. tidy_step. Qed.
#[local] Hint Resolve observe_tidy : tidy.

Lemma newObserver_tidy o : preserves R (newObserver o).
Proof. unfold newObserver. repeat tidy_step. Qed.
#[local] Hint Resolve newObserver_tidy : tidy.

Lemma addCancelHandler_tidy h : preserves R (addCancelHandler h).
Proof. unfold addCancelHandler. tidy_step. Qed.
#[local] Hint Resolve addCancelHandler_tidy : tidy.

Lemma runCancelHandler_tidy h : preserves R (runCancelHandler this h).
Proof. destruct h; cbn [runCancelHandler]; tidy_step. Qed.
#[local] Hint Resolve runCancelHandler_tidy : tidy.

Lemma cancelObservers_tidy : preserves R (cancelObservers this).
Proof. unfold cancelObservers. repeat tidy_step. Qed.
#[local] Hint Resolve cancelObservers_tidy : tidy.

Lemma uninstall_tidy : preserves R (uninstall env this).
Proof.
  unfold uninstall. tidy_step; [tidy_step|].
  destruct (isEmpty _); [tidy_step|].
  destruct (0 <? _)%nat; repeat tidy_step.
Qed.

Lemma deref_tidy {A} (x : option A) : preserves R (deref x).
Proof. destruct x; cbn [deref]; tidy_step. Qed.
#[local] Hint Resolve deref_tidy : tidy.

Lemma getRoot_tidy : preserves R (getRoot env this).
Proof.
  unfold getRoot. destruct (isEmpty _); [repeat tidy_step|].
  tidy_step; [tidy_step|]. destruct (awaitElementOnce _ _) as [|[]]; tidy_step.
Qed.

Lemma getRoot_returns :
  returns (fun root => ∀ elements, root = Some elements -> NoDup elements)
    (getRoot env this).
Proof.
  intros s root. unfold getRoot, bind, addCancelHandler, modify.
  destruct (isEmpty _); cbn.
  - intros [= <-] elements [= <-]. apply NoDup_singleton.
  - destruct (awaitElementOnce _ _) as [|[]]; cbn;
      intros [= <-] elements [= <-].
    apply distinct.
Qed.

Lemma attachInterval_tidy : preserves R (attachInterval this).
Proof.
  unfold attachInterval. tidy_step; [tidy_step|].
  destruct (0 <? _)%Z; repeat tidy_step.
Qed.

Lemma attachDOMTrigger_handlers_tidy element :
  (∀ elements, element = Some elements -> NoDup elements) ->
  preserves R (attachDOMTrigger_handlers this element).
Proof.
  intros Hnd. unfold attachDOMTrigger_handlers.
  destruct (domTrigger this) as [event|]; [|tidy_step].
  destruct (String.eqb event ""); [tidy_step|].
  destruct element as [elements|]; [|repeat tidy_step].
  change (preserves R (jqOff elements event (self this) ;;
                       jqOn elements event (self this) ;;
                       modify (set_installedEvents (setAdd event)))).
  apply offOn_tidy; [by apply Hnd | tidy_step].
Qed.

Lemma dispatch_tidy roots args :
  preserves R (debouncedRunTriggersAndNotify env this roots args).
Proof.
  apply (debouncedRunTriggersAndNotify_preserves R notOn).
  intros [] He; try done; intros ? ? ?; discriminate.
Qed.
#[local] Hint Resolve dispatch_tidy : tidy.

Lemma observerCallback_tidy callback element :
  preserves R (observerCallback env this callback element).
Proof.
  destruct callback; cbn [observerCallback]; [tidy_step | tidy_step |].
  apply attachDOMTrigger_handlers_tidy. intros elements [= <-].
  apply NoDup_singleton.
Qed.
#[local] Hint Resolve observerCallback_tidy : tidy.

Lemma initialize_tidy selector callback :
  preserves R (initialize env this selector callback).
Proof. unfold initialize. repeat tidy_step. Qed.
#[local] Hint Resolve initialize_tidy : tidy.

Lemma attachInitializeTrigger_tidy element :
  preserves R (attachInitializeTrigger env this element).
Proof.
  unfold attachInitializeTrigger. tidy_step; [tidy_step|].
  destruct (attachMode this); repeat tidy_step.
Qed.

Lemma attachAppearTrigger_tidy element :
  preserves R (attachAppearTrigger env this element).
Proof.
  unfold attachAppearTrigger. repeat tidy_step.
  destruct (attachMode this); repeat tidy_step.
Qed.

Lemma attachDocumentTrigger_tidy : preserves R (attachDocumentTrigger this).
Proof.
  unfold attachDocumentTrigger.
  apply offOn_tidy; [apply NoDup_singleton | repeat tidy_step].
Qed.

Lemma attachDOMTrigger_tidy element watch :
  (∀ elements, element = Some elements -> NoDup elements) ->
  preserves R (attachDOMTrigger env this element watch).
Proof.
  intros Hnd. unfold attachDOMTrigger.
  tidy_step; [by apply attachDOMTrigger_handlers_tidy|].
  destruct watch; [|tidy_step].
  case_bool_decide; repeat tidy_step.
Qed.

Lemma assertElement_tidy root : preserves R (assertElement this root).
Proof.
  unfold assertElement. tidy_step; [tidy_step|].
  case_bool_decide; tidy_step.
Qed.

Lemma run_tidy : preserves R (run env this).
Proof.
  unfold run. tidy_step; [tidy_step|].
  eapply preserves_bind_returns;
    [apply _ | apply getRoot_tidy | apply getRoot_returns |].
  intros root Hroot. cbv beta in Hroot.
  pose proof attachInterval_tidy. pose proof attachInitializeTrigger_tidy.
  pose proof attachAppearTrigger_tidy. pose proof attachDocumentTrigger_tidy.
  pose proof (attachDOMTrigger_tidy root). pose proof assertElement_tidy.
  destruct (trigger this) as [[]|]; repeat tidy_step; auto.
Qed.

Lemma install_tidy : preserves R (install env this).
Proof. unfold install. repeat tidy_step. Qed.

Lemma act_tidy a : preserves R (act env this a).
Proof.
  destruct a as [| | |id element|name event ancestors]; cbn [act].
  - tidy_step; [apply install_tidy | tidy_step].
  - apply run_tidy.
  - apply uninstall_tidy.
  - tidy_step; [tidy_step|].
    destruct (List.find _ _) as [[i [selector callback|observed]]|];
      tidy_step.
  - tidy_step; [tidy_step|]. tidy_step; [|tidy_step].
    apply preserves_allSettled; [apply _|]. apply Forall_forall.
    intros task Hin. apply list_elem_of_fmap in Hin as (l & -> & _).
    apply (eventHandler_preserves R notOn).
    intros [] He; try done; intros ? ? ?; discriminate.
Qed.
End TidyLifecycle.

Lemma exec_tidy this script s :
  Forall (fun step => distinctMatches step.1) script ->
  Tidy this s -> Tidy this (exec this script s).
Proof.
  intros Hscript. revert s.
  induction Hscript as [|[env a] rest Henv _ IH]; intros s Hs; [done|].
  cbn [exec]. apply IH. by apply (act_tidy env this Henv a s).
Qed.

Lemma sampleEnv_distinct : distinctMatches sampleEnv.
Proof.
  intros selector. unfold sampleEnv, safeFind.
  destruct (String.eqb selector ".btn"); [|constructor].
  apply NoDup_cons. split; [|apply NoDup_singleton].
  intros H. apply list_elem_of_singleton in H. discriminate H.
Qed.

(** After the script the handler is registered exactly once on each button,
    the inserted one included. *)
Example rearm_registrations :
  let s := exec watchInstance rearmScript initialState in
  map (fun n => registrations (listeners s) (Element n) "click" 7) [1; 2; 3]
  = [1; 1; 1]
  ∧ length (List.filter isReaderRead (trace s)) = 1.
Proof. vm_compute. split; reflexivity. Qed.

(** ** Arming *)

#[global] Instance detaches_preorder : PreOrder detaches.
Proof.
  split.
  - intros s. split; [|split; [|split]]; reflexivity.
  - intros s1 s2 s3 (L1 & O1 & I1 & T1) (L2 & O2 & I2 & T2).
    split; [|split; [|split]]; [by etrans | by etrans | congruence | by etrans].
Qed.

Lemma filter_sublist {A} (f : A -> bool) (l : list A) :
  List.filter f l `sublist_of` l.
Proof.
  induction l as [|a l IH]; simpl; [done|].
  destruct (f a); by constructor.
Qed.

Lemma detaches_same s s' :
  listeners s' = listeners s -> observers s' = observers s ->
  intervals s' = intervals s -> trace s' = trace s -> detaches s s'.
Proof.
  intros Hl Ho Hi Ht. unfold detaches. rewrite Hl, Ho, Hi.
  split; [|split; [|split]]; [done..|]. exists []. split; [done | constructor].
Qed.

Lemma total_bind (m : M unit) (k : unit -> M unit) :
  total m -> (∀ a, total (k a)) -> total (bind m k).
Proof.
  intros Hm Hk s. unfold bind. specialize (Hm s).
  destruct (m s) as [[[]|t] s1]; simpl in *; [apply Hk | done].
Qed.

Lemma total_forEach {A} (f : A -> M unit) l :
  (∀ a, total (f a)) -> total (forEach f l).
Proof.
  intros Hf. induction l as [|a l IH]; simpl; [done|].
  apply total_bind; [apply Hf | intros _; apply IH].
Qed.

Section Arming.
Context (env : Env) (this : Instance).

Lemma runCancelHandler_detaches h :
  preserves detaches (runCancelHandler this h).
Proof.
  destruct h as [| |id|event]; cbn [runCancelHandler].
  - apply preserves_ret, _.
  - apply preserves_ret, _.
  - intros s. split; [|split; [|split]];
      [done | apply filter_sublist | done |].
    exists []. split; [done | constructor].
  - intros s. split; [|split; [|split]];
      [apply filter_sublist | done | done |].
    exists [JqOff [Document] event (self this)].
    split; [done | by repeat constructor].
Qed.

Lemma cancelObservers_detaches : preserves detaches (cancelObservers this).
Proof.
  unfold cancelObservers. repeat preserves_step.
  - apply runCancelHandler_detaches.
  - apply preserves_modify. intros s. by apply detaches_same.
Qed.

Lemma cancelObservers_total : total (cancelObservers this).
Proof.
  intros s. unfold cancelObservers, bind, gets. cbn.
  pose proof (total_forEach (runCancelHandler this) (cancelHandlers s)) as H.
  specialize (H (fun h => ltac:(by destruct h)) s).
  by destruct (forEach _ _ s) as [[[]|t] s1].
Qed.

Lemma addCancelHandler_detaches h : preserves detaches (addCancelHandler h).
Proof. apply preserves_modify. intros s. by apply detaches_same. Qed.

(** [getRoot] either returns or rejects with the rejection of the wait for
    the selector. *)
Lemma getRoot_outcome s :
  match (getRoot env this s).1 with
  | Ok _ => True
  | Throw t =>
      ∃ selector, triggerSelector this = Some selector
                  ∧ awaitElementOnce env selector = AwaitRejected t
                  ∧ t ≠ PromiseCancelled
  end.
Proof.
  unfold getRoot. destruct (triggerSelector this) as [selector|]; [|done].
  destruct (isEmpty (Some selector)); [done|]. cbn.
  destruct (awaitElementOnce env selector) as [|[]] eqn:E; cbn; eauto.
Qed.

Lemma getRoot_detaches : preserves detaches (getRoot env this).
Proof.
  unfold getRoot. destruct (isEmpty _).
  - repeat preserves_step. apply addCancelHandler_detaches.
  - preserves_step; [apply addCancelHandler_detaches|].
    destruct (awaitElementOnce _ _) as [|[]]; preserves_step.
Qed.

Lemma attachInterval_skipped :
  (intervalMillis this ≤ 0)%Z ->
  preserves detaches (attachInterval this) ∧ total (attachInterval this).
Proof.
  intros Hle. unfold attachInterval.
  destruct (0 <? intervalMillis this)%Z eqn:E; [lia|]. split.
  - preserves_step; [apply cancelObservers_detaches|].
    apply preserves_modify. intros s.
    split; [|split; [|split]]; [done..|]. eexists [_]. split; [done|].
    by repeat constructor.
  - apply total_bind; [apply cancelObservers_total | by intros _ s].
Qed.
End Arming.

(** C8. An instance whose kind is [appear] or one of the element events
    and that has no root selector: [run] throws
    ['Trigger <kind> requires a selector']. Up to the throw it only cancelled
    what the previous arming had registered: no listener, observer or
    interval loop was added and the handler was not attached. *)
Theorem run_requires_selector
    (env : Env) (this : Instance) (kind : Trigger) (s : State) :
  trigger this = Some kind ->
  kind ∈ requiresSelector ->
  isEmpty (triggerSelector this) = true ->
  let r := run env this s in
  r.1 = Throw (Error (String.append "Trigger "
                        (String.append (trigger_name kind)
                                       " requires a selector")))
  ∧ listeners r.2 = listeners (cancelObservers this s).2
  ∧ observers r.2 = observers (cancelObservers this s).2
  ∧ detaches s r.2.
Proof.
  intros Hkind Hin Hempty r.
  pose proof (cancelObservers_total this s) as Hok.
  pose proof (cancelObservers_detaches this s) as Hdet.
  subst r. unfold run, bind.
  destruct (cancelObservers this s) as [[[]|t] s1]; [|done].
  cbn [fst snd] in *. unfold getRoot. rewrite Hempty. cbn.
  unfold assertElement, triggerString. rewrite Hkind.
  assert (Hdet' : detaches s
            (set_abortController (generation s1)
               (cancelHandlers s1 ++ [CancelNoop]) s1)).
  { etrans; [exact Hdet|]. by apply detaches_same. }
  unfold requiresSelector in Hin.
  destruct kind;
    try (split; [reflexivity | split; [reflexivity | split;
           [reflexivity | exact Hdet']]]);
    exfalso; repeat (apply elem_of_cons in Hin as [Hin|Hin]; [done|]);
    by apply elem_of_nil in Hin.
Qed.

Lemma run_requires_selector_witness :
  let this :=
    RemoteTriggerExtensionPoint 7 (sampleDefinition (Some Click) None) [] in
  let r := run sampleEnv this installedState in
  r.1 = Throw (Error "Trigger click requires a selector")
  ∧ listeners r.2 = listeners (cancelObservers this installedState).2
  ∧ observers r.2 = observers (cancelObservers this installedState).2
  ∧ detaches installedState r.2.
Proof.
  apply (run_requires_selector sampleEnv
           (RemoteTriggerExtensionPoint 7 (sampleDefinition (Some Click) None) [])
           Click installedState).
  - reflexivity.
  - unfold requiresSelector. apply elem_of_cons. right.
    apply elem_of_cons. by left.
  - reflexivity.
Defined.

Lemma _runTriggersAndNotify_total env this roots args :
  total (_runTriggersAndNotify env this roots args).
Proof.
  intros s. unfold _runTriggersAndNotify, bind.
  destruct (allSettled_fulfils
              (map (fun root =>
                      _runTrigger env this root
                        {| nativeEvent := nativeEvent args;
                           shouldRunExtension := None |}) roots) s)
    as (results & E & _).
  destruct (allSettled _ s) as [[rs|t] s1]; [|done].
  unfold notifyErrors. by destruct (length _ =? 0)%nat.
Qed.

(** C9. An [interval] trigger whose period is not positive, on a page where
    the wait for its root selector (if it has one) resolves or is cancelled,
    that is, is not rejected with another error: [run]
    returns normally, no interval loop is started, nothing is attached and
    nothing fires; the only calls are the detaching ones of the cancellation
    and the logger's warning. The period of a remote definition that
    configures none is [0]. *)
Theorem run_interval_not_positive (env : Env) (this : Instance) (s : State) :
  trigger this = Some Interval ->
  (intervalMillis this ≤ 0)%Z ->
  (∀ selector t, triggerSelector this = Some selector ->
                 awaitElementOnce env selector = AwaitRejected t ->
                 t = PromiseCancelled) ->
  let r := run env this s in
  r.1 = Ok tt
  ∧ intervals r.2 = intervals s
  ∧ detaches s r.2
  ∧ ∀ handler definition installed,
      def_intervalMillis definition = None ->
      intervalMillis (RemoteTriggerExtensionPoint handler definition installed)
      = 0%Z.
Proof.
  intros Hkind Hle Hwait r.
  destruct (attachInterval_skipped this Hle) as [Hskip Htotal].
  assert (Hdet : preserves detaches (run env this)).
  { unfold run. rewrite Hkind.
    preserves_step; [apply cancelObservers_detaches|].
    preserves_step; [apply getRoot_detaches | apply Hskip]. }
  split; [|split; [apply Hdet | split; [apply Hdet|]]].
  - subst r. unfold run, bind. rewrite Hkind.
    pose proof (cancelObservers_total this s) as Hc.
    destruct (cancelObservers this s) as [[[]|t] s1]; [|done].
    pose proof (getRoot_outcome env this s1) as Hroot.
    destruct (getRoot env this s1) as [[root|t] s2]; cbn [fst] in Hroot.
    + apply Htotal.
    + destruct Hroot as (selector & Hsel & Hrej & Hne).
      by destruct (Hne (Hwait selector t Hsel Hrej)).
  - intros handler definition installed Hnone. cbn. by rewrite Hnone.
Qed.

Lemma run_interval_not_positive_witness :
  let this :=
    RemoteTriggerExtensionPoint 7 (sampleDefinition (Some Interval) (Some ".btn"))
      [sampleExtension "ext-ok"] in
  let r := run sampleEnv this installedState in
  r.1 = Ok tt
  ∧ intervals r.2 = intervals installedState
  ∧ detaches installedState r.2
  ∧ ∀ handler definition installed,
      def_intervalMillis definition = None ->
      intervalMillis (RemoteTriggerExtensionPoint handler definition installed)
      = 0%Z.
Proof.
  apply (run_interval_not_positive sampleEnv
           (RemoteTriggerExtensionPoint 7
              (sampleDefinition (Some Interval) (Some ".btn"))
              [sampleExtension "ext-ok"])
           installedState).
  - reflexivity.
  - simpl. lia.
  - intros selector t _. simpl. discriminate.
Defined.

#[global] Instance sameDispatcher_preorder : PreOrder sameDispatcher.
Proof.
  split; [by intros s | intros s1 s2 s3 H1 H2].
  unfold sameDispatcher in *. congruence.
Qed.

Lemma cancelObservers_sameDispatcher this :
  preserves sameDispatcher (cancelObservers this).
Proof.
  unfold cancelObservers. repeat preserves_step.
  - destruct a0; cbn [runCancelHandler]; by intros s.
  - by intros s.
Qed.

Lemma getRoot_sameDispatcher env this :
  preserves sameDispatcher (getRoot env this).
Proof.
  unfold getRoot. destruct (isEmpty _).
  - repeat preserves_step. by intros s.
  - preserves_step; [by intros s|].
    destruct (awaitElementOnce _ _) as [|[]]; preserves_step.
Qed.


(** * Further properties *)

(** ** The cadence of the interval runner *)

Lemma sleep_or_not (period now d : Z) :
  (if (0 <? Z.max 0 (period - (now + d - now)))%Z
   then ((now + d + Z.max 0 (period - (now + d - now)))%Z,
         [Sleep (Z.max 0 (period - (now + d - now)))])
   else ((now + d)%Z, []))
  = ((now + Z.max period d)%Z,
     if (d <? period)%Z then [Sleep (period - d)] else []).
Proof.
  destruct (Z.ltb_spec 0 (Z.max 0 (period - (now + d - now))));
    destruct (Z.ltb_spec d period); try lia.
  - f_equal; [lia|]. do 2 f_equal. lia.
  - f_equal. lia.
Qed.

(** One pass whose test finds the signal not aborted. *)
Lemma loop_unfold (period : Z) (raf : bool) (aborted : nat -> bool)
    (frameDelay : nat -> Z) (effectGenerator : nat -> Z * Result unit)
    (fuel pass : nat) (now : Z) :
  aborted pass = false ->
  loop period raf aborted frameDelay effectGenerator (S fuel) pass now
  = let d := elapsed raf frameDelay effectGenerator pass in
    let r := loop period raf aborted frameDelay effectGenerator fuel (S pass)
               (now + Z.max period d)%Z in
    (r.1,
     tryEvents raf effectGenerator pass
     ++ (if (d <? period)%Z then [Sleep (period - d)] else [])
     ++ r.2).
Proof.
  intros Hrun. cbn [loop]. rewrite Hrun.
  unfold guarded, tryBlock, elapsed, tryEvents.
  destruct (effectGenerator pass) as [duration settled]. cbn [fst snd].
  set (d := ((if raf then frameDelay pass else 0) + duration)%Z).
  assert (Hnow1 : ((if raf then ((now + frameDelay pass)%Z, [AnimationFrame])
                    else (now, [])) : Z * list IntervalEvent)
                  = ((now + d - duration)%Z,
                     if raf then [AnimationFrame] else [])).
  { subst d. destruct raf; f_equal; lia. }
  rewrite Hnow1.
  replace (now + d - duration + duration)%Z with (now + d)%Z by lia.
  pose proof (sleep_or_not period now d) as Hsleep.
  destruct settled as [[]|t]; cbn [fst snd];
    destruct (0 <? Z.max 0 (period - (now + d - now)))%Z;
    injection Hsleep as <- <-;
    by destruct (loop _ _ _ _ _ fuel (S pass) _).
Qed.

Lemma sleepsOf_app l1 l2 : sleepsOf (l1 ++ l2) = sleepsOf l1 ++ sleepsOf l2.
Proof. unfold sleepsOf. apply omap_app. Qed.

Lemma effectRuns_append l1 l2 :
  effectRuns (l1 ++ l2) = effectRuns l1 ++ effectRuns l2.
Proof. unfold effectRuns. apply omap_app. Qed.

Lemma tryEvents_log raf effectGenerator pass :
  effectRuns (tryEvents raf effectGenerator pass)
  = [settledAt effectGenerator pass]
  ∧ sleepsOf (tryEvents raf effectGenerator pass) = [].
Proof. unfold tryEvents. destruct raf; split; reflexivity. Qed.

(** X1. While the signal is not aborted the schedule corrects itself: each
    pass runs the effect and then sleeps for what is left of the period, or
    not at all when the pass took the period or longer, so that the pass
    after [n] passes starts at the clock [clockAfter] computes, each pass
    having taken the longer of the period and the time of its [try] block. *)
Theorem loop_cadence (period : Z) (raf : bool) (aborted : nat -> bool)
    (frameDelay : nat -> Z) (effectGenerator : nat -> Z * Result unit)
    (n fuel pass : nat) (now : Z) :
  (∀ j, (j < n)%nat -> aborted (pass + j) = false) ->
  ∃ events,
    loop period raf aborted frameDelay effectGenerator (n + fuel) pass now
    = (let r := loop period raf aborted frameDelay effectGenerator fuel
                  (pass + n)
                  (clockAfter period raf frameDelay effectGenerator now pass n)
       in (r.1, events ++ r.2))
    ∧ effectRuns events = map (settledAt effectGenerator) (seq pass n)
    ∧ sleepsOf events
      = omap (restOfPeriod period raf frameDelay effectGenerator) (seq pass n).
Proof.
  revert pass now. induction n as [|n IH]; intros pass now Hlive.
  - exists []. rewrite Nat.add_0_r. cbn.
    by destruct (loop _ _ _ _ _ fuel pass now).
  - assert (Hfirst : aborted pass = false).
    { rewrite <- (Nat.add_0_r pass). apply Hlive. lia. }
    destruct (IH (S pass)
                (now + Z.max period
                         (elapsed raf frameDelay effectGenerator pass))%Z)
      as (events & Hloop & Hruns & Hsleeps).
    { intros j Hj. rewrite Nat.add_succ_comm. apply Hlive. lia. }
    cbn [Nat.add]. rewrite loop_unfold by done. cbn zeta. rewrite Hloop.
    cbn zeta. cbn [fst snd clockAfter]. rewrite <- Nat.add_succ_comm.
    exists (tryEvents raf effectGenerator pass
            ++ (if (elapsed raf frameDelay effectGenerator pass <? period)%Z
                then [Sleep (period
                             - elapsed raf frameDelay effectGenerator pass)]
                else [])
            ++ events).
    split; [by rewrite <- !app_assoc|].
    rewrite !effectRuns_append, !sleepsOf_app, Hruns, Hsleeps.
    rewrite (proj1 (tryEvents_log raf effectGenerator pass)).
    rewrite (proj2 (tryEvents_log raf effectGenerator pass)).
    change (seq pass (S n)) with (pass :: seq (S pass) n).
    split; [by destruct (_ <? _)%Z|].
    change (omap ?f (pass :: ?l))
      with (match f pass with Some y => y :: omap f l | None => omap f l end).
    unfold restOfPeriod.
    by destruct (elapsed raf frameDelay effectGenerator pass <? period)%Z.
Qed.

Lemma loop_cadence_witness :
  ∃ events,
    loop 1000 true sampleAborted (fun _ => 16%Z) sampleEffect (2 + 3) 0 1000%Z
    = (let r := loop 1000 true sampleAborted (fun _ => 16%Z) sampleEffect 3
                  (0 + 2)
                  (clockAfter 1000 true (fun _ => 16%Z) sampleEffect
                     1000%Z 0 2)
       in (r.1, events ++ r.2))
    ∧ effectRuns events = map (settledAt sampleEffect) (seq 0 2)
    ∧ sleepsOf events
      = omap (restOfPeriod 1000 true (fun _ => 16%Z) sampleEffect) (seq 0 2).
Proof.
  apply (loop_cadence 1000 true sampleAborted (fun _ => 16%Z) sampleEffect
           2 3 0 1000%Z).
  intros [|[|j]] Hj; [reflexivity | reflexivity | lia].
Defined.

(** On the sample effect the first pass overruns (1516 ms) and is followed at
    once by the second, which leaves 784 ms to sleep: the third pass starts
    at 1000 + 1516 + 1000. *)
Example clockAfter_sample :
  clockAfter 1000 true (fun _ => 16%Z) sampleEffect 1000%Z 0 2 = 3516%Z
  ∧ omap (restOfPeriod 1000 true (fun _ => 16%Z) sampleEffect) (seq 0 2)
    = [784%Z].
Proof. split; reflexivity. Qed.

Lemma loop_sleeps_positive (period : Z) (raf : bool)
    (aborted : nat -> bool) (frameDelay : nat -> Z)
    (effectGenerator : nat -> Z * Result unit) (fuel pass : nat) (now : Z) :
  Forall sleepPositive
    (loop period raf aborted frameDelay effectGenerator fuel pass now).2.
Proof.
  revert pass now. induction fuel as [|fuel IH]; intros pass now.
  - constructor.
  - destruct (aborted pass) eqn:Hnow.
    + cbn [loop]. rewrite Hnow. by repeat constructor.
    + rewrite loop_unfold by done. cbn zeta. cbn [snd].
      apply Forall_app. split.
      { unfold tryEvents. destruct raf; by repeat constructor. }
      apply Forall_app. split; [|apply IH].
      destruct (Z.ltb_spec (elapsed raf frameDelay effectGenerator pass)
                  period); [|constructor].
      repeat constructor. cbn. lia.
Qed.

(** X2. [interval] begins with one sleep of the full period, before any run
    of the effect; after it, whatever the period and however long the effect
    runs, it never sleeps for a time that is zero or negative. *)
Theorem interval_sleeps (period : Z) (raf : bool)
    (aborted : nat -> bool) (frameDelay : nat -> Z)
    (effectGenerator : nat -> Z * Result unit) (fuel : nat) (now : Z) :
  match (interval period raf aborted frameDelay effectGenerator fuel now).2
  with
  | Sleep first :: later => first = period ∧ Forall sleepPositive later
  | _ => False
  end.
Proof.
  unfold interval.
  pose proof (loop_sleeps_positive period raf aborted frameDelay
                effectGenerator fuel 0 (now + period)%Z) as H.
  destruct (loop _ _ _ _ _ _ _ _) as [outcome events]. by split.
Qed.

(** ** Failures around the pipeline *)

(** X3. When [makeServiceContext] fails for an extension, the pipeline is not
    run and the failure takes the error path of the firing: the id is
    recorded in [reportedErrors], the error is sent to [reportError] exactly
    when the gate allows it, and the task returns the error; no run is
    reported and [reportedEvents] is left alone. *)
Theorem runTask_service_failure
    (env : Env) (this : Instance) (ctxt : ReaderOutput) (root : ReaderRoot)
    (extension : Extension) (t : Thrown) (s : State) :
  makeServiceContext env (ext_services extension) = Throw t ->
  let r := runTask env this ctxt root extension s in
  r.1 = Ok (Some t)
  ∧ trace r.2
    = (if shouldReport this
            (bool_decide (ext_id extension ∈ reportedErrors s))
       then [ReportError t (ext_id extension)] else [])
      ++ trace s
  ∧ reportedErrors r.2 = {[ext_id extension]} ∪ reportedErrors s
  ∧ reportedEvents r.2 = reportedEvents s.
Proof.
  intros Hfail. unfold runTask, runExtension, tryCatch, bind, liftResult.
  rewrite Hfail. cbn.
  destruct (shouldReport this _); cbn; auto.
Qed.

Lemma runTask_service_failure_witness :
  let env := brokenServices (ErrorObj "Error" "no such service") in
  let r := runTask env clickInstance ∅ (Some Document)
             (sampleExtension "ext-ok") initialState in
  r.1 = Ok (Some (ErrorObj "Error" "no such service"))
  ∧ trace r.2
    = (if shouldReport clickInstance
            (bool_decide ("ext-ok" ∈ reportedErrors initialState))
       then [ReportError (ErrorObj "Error" "no such service") "ext-ok"]
       else [])
      ++ trace initialState
  ∧ reportedErrors r.2 = {["ext-ok"]} ∪ reportedErrors initialState
  ∧ reportedEvents r.2 = reportedEvents initialState.
Proof.
  apply (runTask_service_failure
           (brokenServices (ErrorObj "Error" "no such service"))
           clickInstance ∅ (Some Document) (sampleExtension "ext-ok")
           (ErrorObj "Error" "no such service") initialState).
  reflexivity.
Defined.

Lemma filter_stubTrue {A} (l : list A) : List.filter stubTrue l = l.
Proof. induction l as [|a l IH]; [done|]. cbn. by rewrite IH. Qed.

Lemma runTrigger_reader_failure_eq
    (env : Env) (this : Instance) (root : ReaderRoot) (args : RunArgs)
    (s : State) (reader : ReaderRoot -> Result ReaderOutput) (t : Thrown) :
  List.filter (default stubTrue (shouldRunExtension args)) (extensions this)
    ≠ [] ->
  defaultReader env = Ok reader ->
  reader root = Throw t ->
  _runTrigger env this root args s
  = (Throw t, set_trace (cons (ReaderRead root)) s).
Proof.
  intros Hsome Hreader Hread. unfold _runTrigger.
  destruct (List.filter _ _) as [|e0 rest]; [done|].
  cbn [length Nat.eqb]. unfold bind, liftResult, emit, modify.
  by rewrite Hreader, Hread.
Qed.

(** X4. When the reader fails on the root of a firing that has an eligible
    extension, the firing rejects with the reader's error after that one read:
    no pipeline runs, nothing is reported and the gate's sets are
    untouched. *)
Theorem runTrigger_reader_failure
    (env : Env) (this : Instance) (root : ReaderRoot) (args : RunArgs)
    (s : State) (reader : ReaderRoot -> Result ReaderOutput) (t : Thrown) :
  List.filter (default stubTrue (shouldRunExtension args)) (extensions this)
    ≠ [] ->
  defaultReader env = Ok reader ->
  reader root = Throw t ->
  let r := _runTrigger env this root args s in
  r.1 = Throw t
  ∧ trace r.2 = ReaderRead root :: trace s
  ∧ reportedErrors r.2 = reportedErrors s
  ∧ reportedEvents r.2 = reportedEvents s.
Proof.
  intros Hsome Hreader Hread r. subst r.
  by rewrite (runTrigger_reader_failure_eq env this root args s reader t).
Qed.

Lemma runTrigger_reader_failure_witness :
  let t := ErrorObj "Error" "element is detached" in
  let r := _runTrigger (brokenReader t) clickInstance (Some Document) noEvent
             installedState in
  r.1 = Throw t
  ∧ trace r.2 = ReaderRead (Some Document) :: trace installedState
  ∧ reportedErrors r.2 = reportedErrors installedState
  ∧ reportedEvents r.2 = reportedEvents installedState.
Proof.
  apply (runTrigger_reader_failure
           (brokenReader (ErrorObj "Error" "element is detached"))
           clickInstance (Some Document) noEvent installedState
           (fun _ => Throw (ErrorObj "Error" "element is detached"))).
  - cbn. discriminate.
  - reflexivity.
  - reflexivity.
Defined.

(** X5. A dispatch over one root on which the reader fails with an error
    object: the dispatch itself returns normally, the user sees exactly one
    notification, for one trigger, and nothing is sent to [reportError]. *)
Theorem dispatch_reader_failure
    (env : Env) (this : Instance) (root : ReaderRoot) (args : RunArgs)
    (s : State) (reader : ReaderRoot -> Result ReaderOutput)
    (name message : string) :
  extensions this ≠ [] ->
  defaultReader env = Ok reader ->
  reader root = Throw (ErrorObj name message) ->
  let r := _runTriggersAndNotify env this [root] args s in
  r.1 = Ok tt
  ∧ trace r.2
    = [NotifyError
         (String.append "An error occurred running "
            (pluralize env 1 "a trigger" "$$ triggers"));
       ReaderRead root] ++ trace s
  ∧ reportedErrors r.2 = reportedErrors s
  ∧ reportedEvents r.2 = reportedEvents s.
Proof.
  intros Hsome Hreader Hread r. subst r.
  unfold _runTriggersAndNotify. cbn [map allSettled]. unfold bind.
  rewrite (runTrigger_reader_failure_eq env this root _ s reader
             (ErrorObj name message)); try done.
  cbn. by rewrite filter_stubTrue.
Qed.

Lemma dispatch_reader_failure_witness :
  let env := brokenReader (ErrorObj "Error" "element is detached") in
  let r := _runTriggersAndNotify env clickInstance [Some Document] noEvent
             installedState in
  r.1 = Ok tt
  ∧ trace r.2
    = [NotifyError
         (String.append "An error occurred running "
            (pluralize env 1 "a trigger" "$$ triggers"));
       ReaderRead (Some Document)] ++ trace installedState
  ∧ reportedErrors r.2 = reportedErrors installedState
  ∧ reportedEvents r.2 = reportedEvents installedState.
Proof.
  apply (dispatch_reader_failure
           (brokenReader (ErrorObj "Error" "element is detached"))
           clickInstance (Some Document) noEvent installedState
           (fun _ => Throw (ErrorObj "Error" "element is detached"))
           "Error" "element is detached").
  - cbn. discriminate.
  - reflexivity.
  - reflexivity.
Defined.

(** ** Arming by kind *)

(** [run] is the cancellation, the resolution of the root and then the arm of
    its kind; a rejected wait for the root ends it there. *)
Lemma run_unfold env this s :
  run env this s
  = match armed env this s with
    | (Ok root, s2) =>
        match trigger this with
        | Some Load =>
            (elements <- deref root ;;
             debouncedRunTriggersAndNotify env this (map Some elements)
               noEvent) s2
        | Some Interval => attachInterval this s2
        | Some Initialize => attachInitializeTrigger env this root s2
        | Some Appear =>
            (assertElement this root ;; attachAppearTrigger env this root) s2
        | Some Selectionchange => attachDocumentTrigger this s2
        | Some Statechange => attachDocumentTrigger this s2
        | Some Custom => attachDOMTrigger env this root false s2
        | Some _ =>
            (assertElement this root ;;
             attachDOMTrigger env this root
               (bool_decide (attachMode this = AttachWatch))) s2
        | None =>
            (Throw (BusinessError
                      "No trigger event configured for extension point"), s2)
        end
    | (Throw t, s2) => (Throw t, s2)
    end.
Proof.
  unfold run, armed, bind at 1 2.
  pose proof (cancelObservers_total this s) as Hc.
  destruct (cancelObservers this s) as [[[]|t] s1]; [|done]. cbn [snd].
  destruct (getRoot env this s1) as [[root|t] s2]; [|done].
  by destruct (trigger this) as [[]|].
Qed.

Lemma armed_detaches env this s : detaches s (armed env this s).2.
Proof.
  unfold armed. etrans; [apply cancelObservers_detaches|].
  apply getRoot_detaches.
Qed.

(** X6. A [custom] trigger without an event name: provided the wait for the
    root is not rejected, [run] throws the business error ['No trigger event
    configured for extension point'], having attached nothing. *)
Theorem run_custom_without_event (env : Env) (this : Instance) (s : State) :
  trigger this = Some Custom ->
  from_option eventName "" (customTriggerOptions this) = "" ->
  (∀ selector t, triggerSelector this = Some selector ->
                 awaitElementOnce env selector = AwaitRejected t ->
                 t = PromiseCancelled) ->
  let r := run env this s in
  r.1 = Throw (BusinessError "No trigger event configured for extension point")
  ∧ detaches s r.2.
Proof.
  intros Hkind Hname Hwait r. subst r. rewrite run_unfold, Hkind.
  pose proof (armed_detaches env this s) as Hdet.
  pose proof (getRoot_outcome env this (cancelObservers this s).2) as Hroot.
  fold (armed env this s) in Hroot.
  destruct (armed env this s) as [[root|t] s2]; cbn [fst snd] in *.
  - unfold attachDOMTrigger, attachDOMTrigger_handlers, domTrigger, bind.
    rewrite Hkind.
    destruct (customTriggerOptions this) as [[name]|]; cbn in *;
      [subst name; cbn|]; done.
  - destruct Hroot as (selector & Hsel & Hrej & Hne).
    by destruct (Hne (Hwait selector t Hsel Hrej)).
Qed.

Lemma run_custom_without_event_witness :
  let this :=
    RemoteTriggerExtensionPoint 7 (sampleDefinition (Some Custom) (Some ".btn"))
      [sampleExtension "ext-ok"] in
  let r := run sampleEnv this installedState in
  r.1 = Throw (BusinessError "No trigger event configured for extension point")
  ∧ detaches installedState r.2.
Proof.
  apply (run_custom_without_event sampleEnv
           (RemoteTriggerExtensionPoint 7
              (sampleDefinition (Some Custom) (Some ".btn"))
              [sampleExtension "ext-ok"])
           installedState).
  - reflexivity.
  - reflexivity.
  - intros selector t _. cbn. discriminate.
Defined.

(** X7. A [custom] trigger with an event name, once the root is resolved:
    [run] binds the handler under the configured event name (not under
    ["custom"]) on the elements of the root, each once if they are distinct,
    records that name as installed, and creates no observer, whatever the
    attach mode. *)
Theorem run_custom_with_event
    (env : Env) (this : Instance) (s : State) (name : string)
    (elements : list Node) :
  trigger this = Some Custom ->
  customTriggerOptions this = Some {| eventName := name |} ->
  name ≠ "" ->
  (armed env this s).1 = Ok (Some elements) ->
  let r := run env this s in
  r.1 = Ok tt
  ∧ listeners r.2
    = rebound elements name (self this) (listeners (armed env this s).2)
  ∧ (NoDup elements ->
     ∀ node, node ∈ elements ->
             registrations (listeners r.2) node name (self this) = 1%nat)
  ∧ installedEvents r.2 = setAdd name (installedEvents (armed env this s).2)
  ∧ observers r.2 = observers (armed env this s).2.
Proof.
  intros Hkind Hopts Hname Harmed r. subst r. rewrite run_unfold, Hkind.
  destruct (armed env this s) as [[root|t] s2]; cbn [fst snd] in *; [|done].
  injection Harmed as ->.
  unfold attachDOMTrigger, attachDOMTrigger_handlers, domTrigger.
  rewrite Hkind, Hopts. cbn [fmap option_fmap option_map eventName].
  apply String.eqb_neq in Hname. rewrite Hname.
  split; [done|]. split; [done|]. split; [|done].
  intros Hnd node Hin.
  change (registrations
            (rebound elements name (self this) (listeners s2))
            node name (self this) = 1%nat).
  unfold rebound. rewrite registrations_on, registrations_off by done.
  assert (sameListener elements name (self this) (node, name, self this)
          = true) as ->; [|done].
  by apply sameListener_spec.
Qed.

Lemma run_custom_with_event_witness :
  let r := run sampleEnv customInstance installedState in
  r.1 = Ok tt
  ∧ listeners r.2
    = rebound [Element 1; Element 2] "app:ready" (self customInstance)
        (listeners (armed sampleEnv customInstance installedState).2)
  ∧ (NoDup [Element 1; Element 2] ->
     ∀ node, node ∈ [Element 1; Element 2] ->
             registrations (listeners r.2) node "app:ready"
               (self customInstance) = 1%nat)
  ∧ installedEvents r.2
    = setAdd "app:ready"
        (installedEvents (armed sampleEnv customInstance installedState).2)
  ∧ observers r.2
    = observers (armed sampleEnv customInstance installedState).2.
Proof.
  apply (run_custom_with_event sampleEnv customInstance installedState
           "app:ready" [Element 1; Element 2]).
  - reflexivity.
  - reflexivity.
  - discriminate.
  - reflexivity.
Defined.

(** ** Tearing down *)

Lemma sublist_registrations l1 l2 node event handler :
  l1 `sublist_of` l2 ->
  (registrations l1 node event handler
   ≤ registrations l2 node event handler)%nat.
Proof.
  unfold registrations. induction 1 as [|x l1 l2 _ IH|x l1 l2 _ IH]; cbn.
  - lia.
  - destruct (sameListener _ _ _ x); cbn; lia.
  - destruct (sameListener _ _ _ x); cbn; lia.
Qed.

Lemma detaches_registrations s s' node event handler :
  detaches s s' ->
  (registrations (listeners s') node event handler
   ≤ registrations (listeners s) node event handler)%nat.
Proof. intros (Hl & _). by apply sublist_registrations. Qed.

Lemma jqOff_detaches elements event handler :
  preserves detaches (jqOff elements event handler).
Proof.
  intros s. split; [|split; [|split]];
    [apply filter_sublist | done | done |].
  exists [JqOff elements event handler].
  split; [done | by repeat constructor].
Qed.

Lemma jqOff_total elements event handler : total (jqOff elements event handler).
Proof. by intros s. Qed.

Lemma jqOff_removes elements event handler node s :
  node ∈ elements ->
  registrations (listeners (jqOff elements event handler s).2)
    node event handler = 0%nat.
Proof.
  intros Hin. rewrite (proj1 (jqOff_state elements event handler s)).
  rewrite registrations_off.
  assert (sameListener elements event handler (node, event, handler) = true)
    as ->; [by apply sameListener_spec | done].
Qed.

Lemma runCancelHandler_total this h : total (runCancelHandler this h).
Proof. by destruct h. Qed.

(** Once a cancel handler that detaches the document handler has run, the
    handlers after it leave it detached. *)
Lemma cancel_document_off this event handlers s :
  CancelDocumentOff event ∈ handlers ->
  registrations (listeners (forEach (runCancelHandler this) handlers s).2)
    Document event (self this) = 0%nat.
Proof.
  revert s. induction handlers as [|h rest IH]; intros s Hin.
  - by apply elem_of_nil in Hin.
  - cbn [forEach]. unfold bind.
    pose proof (runCancelHandler_total this h s) as Hok.
    destruct (runCancelHandler this h s) as [[[]|t] s1] eqn:Hh; [|done].
    apply elem_of_cons in Hin as [<-|Hin]; [|by apply IH].
    pose proof (preserves_forEach detaches (runCancelHandler this) rest
                  (runCancelHandler_detaches this) s1) as Hdet.
    pose proof (detaches_registrations _ _ Document event (self this) Hdet)
      as Hle.
    cbn [runCancelHandler] in Hh.
    pose proof (jqOff_removes [Document] event (self this) Document s) as H0.
    rewrite Hh in H0. cbn [snd] in H0.
    rewrite H0 in Hle; [lia|]. apply list_elem_of_singleton. done.
Qed.

Lemma cancelObservers_sameInstalled this :
  preserves sameInstalled (cancelObservers this).
Proof.
  assert (PreOrder sameInstalled).
  { split; [by intros s | intros s1 s2 s3 H1 H2].
    unfold sameInstalled in *. congruence. }
  unfold cancelObservers. repeat preserves_step.
  - destruct a0; cbn [runCancelHandler]; by intros s.
  - by intros s.
Qed.

Lemma uninstall_total env this : total (uninstall env this).
Proof.
  unfold uninstall. apply total_bind; [apply cancelObservers_total|].
  intros _. destruct (isEmpty _); [done|].
  destruct (0 <? _)%nat; [|done].
  intros s. unfold bind, gets. cbn.
  pose proof (total_forEach
                (fun event =>
                   jqOff (safeFind env (default "" (triggerSelector this)))
                     event (self this))
                (installedEvents s)
                (fun event => jqOff_total _ event _) s) as Hok.
  by destruct (forEach _ _ s) as [[[]|t] s1].
Qed.

Lemma uninstall_detaches env this : preserves detaches (uninstall env this).
Proof.
  unfold uninstall. preserves_step; [apply cancelObservers_detaches|].
  destruct (isEmpty _); [preserves_step|].
  destruct (0 <? _)%nat; [|preserves_step].
  apply (preserves_bind detaches); [apply preserves_gets, _|].
  intros events. apply (preserves_bind detaches).
  - apply preserves_forEach; [apply _|]. intros ev. apply jqOff_detaches.
  - intros _. apply preserves_modify. intros s. by apply detaches_same.
Qed.

(** What [uninstall] does after the cancellation only detaches. *)
Lemma uninstall_after_cancel env this s :
  detaches (cancelObservers this s).2 (uninstall env this s).2.
Proof.
  unfold uninstall. unfold bind at 1.
  pose proof (cancelObservers_total this s) as Hc.
  destruct (cancelObservers this s) as [[[]|t] s1]; [|done]. cbn [snd].
  destruct (isEmpty _); [reflexivity|].
  destruct (0 <? _)%nat; [|reflexivity].
  apply (preserves_bind detaches); [apply preserves_gets, _|].
  intros events. apply (preserves_bind detaches).
  - apply preserves_forEach; [apply _|]. intros ev. apply jqOff_detaches.
  - intros _. apply preserves_modify. intros s2. by apply detaches_same.
Qed.

(** X8. A [selectionchange] or [statechange] trigger: when [run] returns, the
    handler is registered exactly once on the document for that event; a
    following [uninstall], on any page, leaves it not registered there. *)
Theorem run_document_trigger (env : Env) (this : Instance) (s : State) :
  trigger this = Some Selectionchange ∨ trigger this = Some Statechange ->
  (run env this s).1 = Ok tt ->
  let r := run env this s in
  registrations (listeners r.2) Document (triggerString this) (self this)
  = 1%nat
  ∧ ∀ env',
      registrations (listeners (uninstall env' this r.2).2) Document
        (triggerString this) (self this) = 0%nat.
Proof.
  intros Hkind Hok r. subst r. rewrite run_unfold in *.
  destruct (armed env this s) as [[root|t] s2]; [|done].
  assert (Hrun : (match trigger this with
                  | Some Load =>
                      (elements <- deref root ;;
                       debouncedRunTriggersAndNotify env this
                         (map Some elements) noEvent) s2
                  | Some Interval => attachInterval this s2
                  | Some Initialize => attachInitializeTrigger env this root s2
                  | Some Appear =>
                      (assertElement this root ;;
                       attachAppearTrigger env this root) s2
                  | Some Selectionchange => attachDocumentTrigger this s2
                  | Some Statechange => attachDocumentTrigger this s2
                  | Some Custom => attachDOMTrigger env this root false s2
                  | Some _ =>
                      (assertElement this root ;;
                       attachDOMTrigger env this root
                         (bool_decide (attachMode this = AttachWatch))) s2
                  | None =>
                      (Throw (BusinessError
                         "No trigger event configured for extension point"),
                       s2)
                  end) = attachDocumentTrigger this s2).
  { by destruct Hkind as [-> | ->]. }
  rewrite Hrun in *. clear Hrun Hok.
  set (event := triggerString this).
  set (s3 := (attachDocumentTrigger this s2).2).
  assert (Hl : listeners s3
               = rebound [Document] event (self this) (listeners s2))
    by reflexivity.
  assert (Hc : cancelHandlers s3
               = cancelHandlers s2 ++ [CancelDocumentOff event])
    by reflexivity.
  assert (Hone : registrations (listeners s3) Document event (self this)
                 = 1%nat).
  { rewrite Hl. unfold rebound.
    rewrite registrations_on, registrations_off by apply NoDup_singleton.
    by rewrite sameListener_self. }
  split; [exact Hone|]. intros env'.
  assert (Hzero :
    registrations (listeners (cancelObservers this s3).2) Document event
      (self this) = 0%nat).
  { unfold cancelObservers, bind, gets. cbn [fst snd].
    pose proof (cancel_document_off this event (cancelHandlers s3) s3) as H0.
    destruct (forEach (runCancelHandler this) (cancelHandlers s3) s3)
      as [[[]|t] s4]; cbn [snd] in *;
      (apply H0; rewrite Hc; apply elem_of_app; right;
       by apply list_elem_of_singleton). }
  pose proof (uninstall_after_cancel env' this s3) as Hdet.
  pose proof (detaches_registrations _ _ Document event (self this) Hdet).
  lia.
Qed.

Lemma run_document_trigger_witness :
  let r := run sampleEnv stateInstance installedState in
  registrations (listeners r.2) Document (triggerString stateInstance)
    (self stateInstance) = 1%nat
  ∧ ∀ env',
      registrations (listeners (uninstall env' stateInstance r.2).2) Document
        (triggerString stateInstance) (self stateInstance) = 0%nat.
Proof.
  apply (run_document_trigger sampleEnv stateInstance installedState).
  - right. reflexivity.
  - reflexivity.
Defined.

Lemma forEach_jqOff_removes elements handler events node event s :
  node ∈ elements -> event ∈ events ->
  registrations
    (listeners (forEach (fun ev => jqOff elements ev handler) events s).2)
    node event handler = 0%nat.
Proof.
  intros Hnode. revert s. induction events as [|ev rest IH]; intros s Hin.
  - by apply elem_of_nil in Hin.
  - cbn [forEach]. unfold bind.
    pose proof (jqOff_total elements ev handler s) as Hok.
    destruct (jqOff elements ev handler s) as [[[]|t] s1] eqn:Hoff; [|done].
    apply elem_of_cons in Hin as [->|Hin]; [|by apply IH].
    pose proof (preserves_forEach detaches
                  (fun ev => jqOff elements ev handler) rest
                  (fun ev => jqOff_detaches elements ev handler) s1) as Hdet.
    pose proof (detaches_registrations _ _ node ev handler Hdet) as Hle.
    pose proof (jqOff_removes elements ev handler node s Hnode) as H0.
    rewrite Hoff in H0. cbn [snd] in H0. rewrite H0 in Hle. lia.
Qed.

Lemma cancelObservers_resets this s :
  cancelHandlers (cancelObservers this s).2 = []
  ∧ generation (cancelObservers this s).2 = S (generation s).
Proof.
  assert (Hgen : preserves (fun s s' => generation s' = generation s)
                   (forEach (runCancelHandler this) (cancelHandlers s))).
  { apply preserves_forEach.
    - split; [by intros x | intros x y z H1 H2; congruence].
    - intros h x. by destruct h. }
  specialize (Hgen s).
  pose proof (total_forEach (runCancelHandler this) (cancelHandlers s)
                (runCancelHandler_total this) s) as Hok.
  unfold cancelObservers, bind, gets. cbn [fst snd].
  destruct (forEach _ _ s) as [[[]|t] s1]; cbn [fst snd] in *; [|done].
  split; [reflexivity | cbn; congruence].
Qed.

(** [uninstall], statement by statement. *)
Lemma uninstall_unfold env this s :
  uninstall env this s
  = let s1 := (cancelObservers this s).2 in
    let elements := safeFind env (default "" (triggerSelector this)) in
    if isEmpty (triggerSelector this) then (Ok tt, s1)
    else if (0 <? length elements)%nat then
      (Ok tt,
       set_installedEvents (fun _ => [])
         (forEach (fun event => jqOff elements event (self this))
            (installedEvents s1) s1).2)
    else (Ok tt, s1).
Proof.
  unfold uninstall. unfold bind at 1.
  pose proof (cancelObservers_total this s) as Hok.
  destruct (cancelObservers this s) as [[[]|t] s1]; [|done]. cbn [snd].
  destruct (isEmpty _); [done|].
  destruct (0 <? _)%nat; [|done].
  unfold bind, gets. cbn [fst snd].
  pose proof (total_forEach
                (fun event =>
                   jqOff (safeFind env (default "" (triggerSelector this)))
                     event (self this))
                (installedEvents s1)
                (fun event => jqOff_total _ event _) s1) as Hfor.
  by destruct (forEach _ _ s1) as [[[]|t] s2].
Qed.

(** X9. With a root selector, [uninstall] returns normally, attaches nothing,
    and leaves the handler unregistered, for every event recorded as
    installed, on every element that matches the selector now; the record of
    installed events is emptied when some element matches and kept when none
    does. *)
Theorem uninstall_elements (env : Env) (this : Instance) (s : State) :
  isEmpty (triggerSelector this) = false ->
  let elements := safeFind env (default "" (triggerSelector this)) in
  let r := uninstall env this s in
  r.1 = Ok tt
  ∧ detaches s r.2
  ∧ (∀ node event,
       node ∈ elements -> event ∈ installedEvents s ->
       registrations (listeners r.2) node event (self this) = 0%nat)
  ∧ installedEvents r.2
    = if (0 <? length elements)%nat then [] else installedEvents s.
Proof.
  intros Hsel elements r.
  split; [apply uninstall_total|]. split; [apply uninstall_detaches|].
  subst r. rewrite uninstall_unfold. cbn zeta. rewrite Hsel. fold elements.
  pose proof (cancelObservers_sameInstalled this s) as Hsame.
  unfold sameInstalled in Hsame.
  destruct (0 <? length elements)%nat eqn:Hlen; cbn [snd].
  - split; [|done]. intros node event Hnode Hevent.
    apply (forEach_jqOff_removes elements (self this)); [done|].
    by rewrite Hsame.
  - split; [|done]. intros node event Hnode.
    destruct elements; [by apply elem_of_nil in Hnode | done].
Qed.

Lemma uninstall_elements_witness :
  let s := (run sampleEnv clickInstance installedState).2 in
  let elements := safeFind sampleEnv ".btn" in
  let r := uninstall sampleEnv clickInstance s in
  r.1 = Ok tt
  ∧ detaches s r.2
  ∧ (∀ node event,
       node ∈ elements -> event ∈ installedEvents s ->
       registrations (listeners r.2) node event (self clickInstance) = 0%nat)
  ∧ installedEvents r.2
    = if (0 <? length elements)%nat then [] else installedEvents s.
Proof.
  apply (uninstall_elements sampleEnv clickInstance
           (run sampleEnv clickInstance installedState).2).
  reflexivity.
Defined.

(** The run of that witness had bound ["click"] on both buttons. *)
Example uninstall_sample :
  let s := (run sampleEnv clickInstance installedState).2 in
  installedEvents s = ["click"]
  ∧ map (fun n => registrations (listeners s) (Element n) "click" 7) [1; 2]
    = [1; 1]%nat
  ∧ listeners (uninstall sampleEnv clickInstance s).2 = [].
Proof. vm_compute. repeat split; reflexivity. Qed.

(** X10. A [custom] trigger on the whole document (no root selector) stays
    bound after [uninstall]: [run] binds the handler to the document under
    the event name without registering a cancel handler for it, and
    [uninstall] detaches handlers only from the elements of a root
    selector. *)
Theorem custom_document_survives_uninstall
    (env : Env) (this : Instance) (s : State) (name : string) :
  trigger this = Some Custom ->
  customTriggerOptions this = Some {| eventName := name |} ->
  name ≠ "" ->
  isEmpty (triggerSelector this) = true ->
  let r := run env this s in
  r.1 = Ok tt
  ∧ registrations (listeners r.2) Document name (self this) = 1%nat
  ∧ ∀ env',
      (uninstall env' this r.2).1 = Ok tt
      ∧ registrations (listeners (uninstall env' this r.2).2) Document name
          (self this) = 1%nat.
Proof.
  intros Hkind Hopts Hname Hsel r. subst r.
  assert (Harmed : armed env this s
                   = (Ok (Some [Document]),
                      (addCancelHandler CancelNoop
                         (cancelObservers this s).2).2)).
  { unfold armed, getRoot. by rewrite Hsel. }
  destruct (cancelObservers_resets this s) as [Hhandlers _].
  rewrite run_unfold, Harmed, Hkind.
  unfold attachDOMTrigger, attachDOMTrigger_handlers, domTrigger.
  rewrite Hkind, Hopts. cbn [fmap option_fmap option_map eventName].
  apply String.eqb_neq in Hname. rewrite Hname.
  set (s1 := (cancelObservers this s).2) in *.
  set (r := ((elements <- deref (Some [Document]) ;;
              jqOff elements name (self this) ;;
              jqOn elements name (self this) ;;
              modify (set_installedEvents (setAdd name))) ;;
             ret tt) (addCancelHandler CancelNoop s1).2).
  assert (Hr1 : r.1 = Ok tt) by reflexivity.
  assert (Hl : listeners r.2
               = rebound [Document] name (self this) (listeners s1))
    by reflexivity.
  assert (Hc : cancelHandlers r.2 = cancelHandlers s1 ++ [CancelNoop])
    by reflexivity.
  assert (Hone : registrations (listeners r.2) Document name (self this)
                 = 1%nat).
  { rewrite Hl. unfold rebound.
    rewrite registrations_on, registrations_off by apply NoDup_singleton.
    by rewrite sameListener_self. }
  split; [done|]. split; [done|]. intros env'.
  split; [apply uninstall_total|].
  unfold uninstall, cancelObservers, bind, gets. rewrite Hc, Hhandlers, Hsel.
  cbn. exact Hone.
Qed.

Lemma custom_document_survives_uninstall_witness :
  let r := run sampleEnv documentCustomInstance installedState in
  r.1 = Ok tt
  ∧ registrations (listeners r.2) Document "app:ready"
      (self documentCustomInstance) = 1%nat
  ∧ ∀ env',
      (uninstall env' documentCustomInstance r.2).1 = Ok tt
      ∧ registrations
          (listeners (uninstall env' documentCustomInstance r.2).2)
          Document "app:ready" (self documentCustomInstance) = 1%nat.
Proof.
  apply (custom_document_survives_uninstall sampleEnv documentCustomInstance
           installedState "app:ready").
  - reflexivity.
  - reflexivity.
  - discriminate.
  - reflexivity.
Defined.

(** ** Arming an interval *)

Lemma attachInterval_started this s :
  (0 < intervalMillis this)%Z ->
  attachInterval this s
  = let s1 := (cancelObservers this s).2 in
    (Ok tt,
     set_intervals
       (cons {| loop_generation := generation s1;
                loop_intervalMillis := intervalMillis this;
                loop_requestAnimationFrame := negb (allowBackground this) |})
       (set_trace (cons (LoggerDebug "Attaching interval trigger")) s1)).
Proof.
  intros Hpos. unfold attachInterval. unfold bind at 1.
  pose proof (cancelObservers_total this s) as Hok.
  destruct (cancelObservers this s) as [[[]|t] s1]; [|done].
  apply Z.ltb_lt in Hpos. by rewrite Hpos.
Qed.

(** X11. An [interval] trigger with a positive period, on a page where the
    wait for its root selector is not rejected: [run] returns normally and
    starts exactly one loop, with the configured period, requesting animation
    frames unless background runs are allowed, polling the signal that is
    current when [run] returns. Nothing fires and nothing is attached while
    arming, and the next cancellation replaces that signal. *)
Theorem run_interval_positive (env : Env) (this : Instance) (s : State) :
  trigger this = Some Interval ->
  (0 < intervalMillis this)%Z ->
  (∀ selector t, triggerSelector this = Some selector ->
                 awaitElementOnce env selector = AwaitRejected t ->
                 t = PromiseCancelled) ->
  let r := run env this s in
  r.1 = Ok tt
  ∧ intervals r.2 = startedLoop this r.2 :: intervals s
  ∧ listeners r.2 `sublist_of` listeners s
  ∧ observers r.2 `sublist_of` observers s
  ∧ pushes quietEffect s r.2
  ∧ generation (cancelObservers this r.2).2
    = S (loop_generation (startedLoop this r.2)).
Proof.
  intros Hkind Hpos Hwait r. subst r. rewrite run_unfold, Hkind.
  pose proof (armed_detaches env this s) as Hdet.
  pose proof (getRoot_outcome env this (cancelObservers this s).2) as Hroot.
  fold (armed env this s) in Hroot.
  destruct (armed env this s) as [[root|t] s2]; cbn [fst snd] in *.
  2:{ destruct Hroot as (selector & Hsel & Hrej & Hne).
      by destruct (Hne (Hwait selector t Hsel Hrej)). }
  rewrite attachInterval_started by done. cbn zeta.
  pose proof (cancelObservers_detaches this s2) as Hdet2.
  set (s3 := (cancelObservers this s2).2) in *.
  assert (Hall : detaches s s3) by (by etrans).
  destruct Hall as (Hl & Ho & Hi & new & Hnew & Hquiet).
  cbn [fst snd].
  split; [done|]. split; [cbn; by rewrite Hi|].
  split; [done|]. split; [done|].
  split.
  - exists (LoggerDebug "Attaching interval trigger" :: new).
    cbn. rewrite Hnew. split; [done|]. by constructor.
  - by rewrite (proj2 (cancelObservers_resets this _)).
Qed.

Lemma run_interval_positive_witness :
  let r := run sampleEnv intervalInstance installedState in
  r.1 = Ok tt
  ∧ intervals r.2 = startedLoop intervalInstance r.2 :: intervals installedState
  ∧ listeners r.2 `sublist_of` listeners installedState
  ∧ observers r.2 `sublist_of` observers installedState
  ∧ pushes quietEffect installedState r.2
  ∧ generation (cancelObservers intervalInstance r.2).2
    = S (loop_generation (startedLoop intervalInstance r.2)).
Proof.
  apply (run_interval_positive sampleEnv intervalInstance installedState).
  - reflexivity.
  - cbn. lia.
  - intros selector t _. cbn. discriminate.
Defined.

(** ** A cancelled wait for the root *)

(** X12. When the wait for the root selector is cancelled, [getRoot] returns
    [undefined] and [run] goes on to the arm of the kind: for [load],
    [appear] and the element events the first use of the root throws a
    [TypeError], before anything fires or is attached. *)
Theorem run_cancelled_wait
    (env : Env) (this : Instance) (s : State) (kind : Trigger)
    (selector : string) :
  trigger this = Some kind ->
  kind ∈ Load :: requiresSelector ->
  triggerSelector this = Some selector ->
  selector ≠ "" ->
  awaitElementOnce env selector = AwaitRejected PromiseCancelled ->
  let r := run env this s in
  (∃ message, r.1 = Throw (TypeError message))
  ∧ detaches s r.2.
Proof.
  intros Hkind Hin Hsel Hne Hwait r. subst r.
  pose proof (armed_detaches env this s) as Hdet.
  assert (Harmed : (armed env this s).1 = Ok None).
  { unfold armed, getRoot. rewrite Hsel. cbn [isEmpty default].
    apply String.eqb_neq in Hne. rewrite Hne. unfold bind. cbn.
    by rewrite Hwait. }
  rewrite run_unfold, Hkind.
  destruct (armed env this s) as [[root|t] s2]; cbn [fst snd] in *; [|done].
  injection Harmed as ->.
  unfold requiresSelector in Hin.
  destruct kind;
    try (split; [by eexists | exact Hdet]);
    exfalso; repeat (apply elem_of_cons in Hin as [Hin|Hin]; [done|]);
    by apply elem_of_nil in Hin.
Qed.

Lemma run_cancelled_wait_witness :
  let r := run cancelledWait clickInstance installedState in
  (∃ message, r.1 = Throw (TypeError message))
  ∧ detaches installedState r.2.
Proof.
  apply (run_cancelled_wait cancelledWait clickInstance installedState
           Click ".btn").
  - reflexivity.
  - apply elem_of_cons. right. unfold requiresSelector.
    apply elem_of_cons. right. apply elem_of_cons. by left.
  - reflexivity.
  - discriminate.
  - reflexivity.
Defined.

(** ** The report mode of a remote definition *)

(** X13. The report mode of an instance built from a definition is the
    definition's when it gives one; otherwise it is [all] exactly when the
    kind is click, dblclick, blur or mouseover, and [once] for every other
    kind, keyboard events and a missing kind (read as [load]) included. *)
Theorem remote_reportMode_default
    (handler : nat) (definition : TriggerDefinition)
    (installed : list Extension) :
  let this := RemoteTriggerExtensionPoint handler definition installed in
  (∀ mode, def_reportMode definition = Some mode -> reportMode this = mode)
  ∧ (def_reportMode definition = None ->
     (reportMode this = ReportAll
      ↔ def_trigger definition
        ∈ [Some Click; Some Dblclick; Some Blur; Some Mouseover])
     ∧ (reportMode this = ReportOnce
        ↔ def_trigger definition
          ∉ [Some Click; Some Dblclick; Some Blur; Some Mouseover])).
Proof.
  cbn zeta. split.
  - intros mode Hmode. cbn. by rewrite Hmode.
  - intros Hnone. cbn. rewrite Hnone. cbn.
    destruct (def_trigger definition) as [[]|]; cbn;
      split; split; intros H; try done;
      try (exfalso; apply H);
      repeat first [ apply elem_of_cons; left; reflexivity
                   | apply elem_of_cons; right ];
      try (repeat (apply elem_of_cons in H as [H|H]; [discriminate H|]);
           by apply elem_of_nil in H);
      try (intros H'; repeat (apply elem_of_cons in H' as [H'|H'];
                                [discriminate H'|]);
           by apply elem_of_nil in H').
Qed.

Lemma remote_reportMode_default_witness :
  reportMode (RemoteTriggerExtensionPoint 7
                (sampleDefinition (Some Keydown) None) []) = ReportOnce.
Proof.
  apply (remote_reportMode_default 7 (sampleDefinition (Some Keydown) None) []);
    [reflexivity|].
  intros H. repeat (apply elem_of_cons in H as [H|H]; [discriminate H|]).
  by apply elem_of_nil in H.
Defined.

(** ** Arming again *)

Lemma filter_twice {A} (f : A -> bool) (l : list A) :
  List.filter f (List.filter f l) = List.filter f l.
Proof.
  induction l as [|a l IH]; [done|]. cbn.
  destruct (f a) eqn:E; cbn; rewrite ?E, IH; done.
Qed.

Lemma filter_bound elements event handler :
  List.filter (fun l => negb (sameListener elements event handler l))
    (map (fun n => (n, event, handler)) elements) = [].
Proof.
  assert (H : ∀ part, part ⊆ elements ->
            List.filter (fun l => negb (sameListener elements event handler l))
              (map (fun n => (n, event, handler)) part) = []).
  { induction part as [|n part IH]; intros Hsub; [done|]. cbn [map List.filter].
    assert (sameListener elements event handler (n, event, handler) = true)
      as ->.
    { apply sameListener_spec. split; [|done]. apply Hsub, elem_of_cons.
      by left. }
    cbn. apply IH. intros x Hx. apply Hsub, elem_of_cons. by right. }
  by apply H.
Qed.

Lemma rebound_twice elements event handler ls :
  rebound elements event handler (rebound elements event handler ls)
  = rebound elements event handler ls.
Proof.
  unfold rebound.
  by rewrite List.filter_app, filter_twice, filter_bound, app_nil_r.
Qed.

(** The root [getRoot] gives depends on the page and the selector, not on the
    state; and all it does to the state is register one cancel handler, which
    detaches nothing. *)
Lemma getRoot_effect env this s :
  ∃ h, (h = CancelNoop ∨ ∃ selector, h = CancelRun selector)
       ∧ (getRoot env this s).2
         = set_abortController (generation s) (cancelHandlers s ++ [h]) s
       ∧ ∀ s', (getRoot env this s').1 = (getRoot env this s).1.
Proof.
  unfold getRoot. destruct (isEmpty _).
  - exists CancelNoop. split; [by left|]. by split.
  - eexists (CancelRun _). split; [right; by eexists|].
    unfold bind, addCancelHandler, modify.
    destruct (awaitElementOnce _ _) as [|[]]; by split.
Qed.

(** The [default] arm of [run] in mode [once], on a resolved root. *)
Lemma run_element_once env this s kind :
  trigger this = Some kind ->
  kind ∈ elementEvents ->
  attachMode this = AttachOnce ->
  (run env this s).1 = Ok tt ->
  ∃ elements,
    (armed env this s).1 = Ok (Some elements)
    ∧ listeners (run env this s).2
      = rebound elements (trigger_name kind) (self this)
          (listeners (armed env this s).2)
    ∧ observers (run env this s).2 = observers (armed env this s).2
    ∧ cancelHandlers (run env this s).2 = cancelHandlers (armed env this s).2
    ∧ installedEvents (run env this s).2
      = setAdd (trigger_name kind) (installedEvents (armed env this s).2)
    ∧ ∀ s', (armed env this s').1 = Ok (Some elements) ->
            (run env this s').1 = Ok tt.
Proof.
  intros Hkind Hin Hmode Hok.
  assert (Hrun : ∀ s0,
    run env this s0
    = match armed env this s0 with
      | (Ok root, s2) =>
          (assertElement this root ;;
           attachDOMTrigger env this root false) s2
      | (Throw t, s2) => (Throw t, s2)
      end).
  { intros s0. rewrite run_unfold, Hkind, Hmode.
    destruct (armed env this s0) as [[root|t] s2]; [|done].
    unfold elementEvents in Hin.
    destruct kind; try done;
      exfalso; repeat (apply elem_of_cons in Hin as [Hin|Hin]; [done|]);
      by apply elem_of_nil in Hin. }
  assert (Hdom : domTrigger this = Some (trigger_name kind)).
  { unfold domTrigger. rewrite Hkind. unfold elementEvents in Hin.
    destruct kind; try done.
    exfalso. repeat (apply elem_of_cons in Hin as [Hin|Hin]; [done|]).
    by apply elem_of_nil in Hin. }
  assert (Hname : String.eqb (trigger_name kind) "" = false)
    by (by destruct kind).
  assert (Harm : ∀ elements s2,
    let r := (assertElement this (Some elements) ;;
              attachDOMTrigger env this (Some elements) false) s2 in
    if bool_decide (head elements = Some Document)
    then ∃ t, r.1 = Throw t
    else r.1 = Ok tt
         ∧ listeners r.2
           = rebound elements (trigger_name kind) (self this) (listeners s2)
         ∧ observers r.2 = observers s2
         ∧ cancelHandlers r.2 = cancelHandlers s2
         ∧ installedEvents r.2
           = setAdd (trigger_name kind) (installedEvents s2)).
  { intros elements s2.
    unfold assertElement, attachDOMTrigger, attachDOMTrigger_handlers.
    rewrite Hdom, Hname. cbn [deref]. unfold bind, ret. cbn [fst snd].
    destruct (bool_decide (head elements = Some Document));
      [by eexists | by repeat split]. }
  rewrite Hrun in Hok |- *.
  destruct (armed env this s) as [[[elements|]|t] s2]; [|done..].
  exists elements. split; [done|].
  specialize (Harm elements) as Harm1. specialize (Harm1 s2). cbn zeta in Harm1.
  destruct (bool_decide (head elements = Some Document)) eqn:Hdoc.
  { destruct Harm1 as [t Ht]. cbn [fst] in Hok. by rewrite Ht in Hok. }
  destruct Harm1 as (_ & Hl & Ho & Hc & Hi). cbn [fst snd].
  split; [done|]. split; [done|]. split; [done|]. split; [done|].
  intros s' Hs'. rewrite Hrun.
  destruct (armed env this s') as [[root'|t'] s2']; [|done].
  cbn [fst] in Hs'. injection Hs' as ->.
  specialize (Harm elements s2'). cbn zeta in Harm. rewrite Hdoc in Harm.
  apply Harm.
Qed.

(** X14. For an element event in attach mode [once]: when [run] has
    returned, running it again on the same page returns as well and leaves
    the registered handlers, the observers and the installed events exactly
    as the first run left them. *)
Theorem rearm_same_listeners
    (env : Env) (this : Instance) (s : State) (kind : Trigger) :
  trigger this = Some kind ->
  kind ∈ elementEvents ->
  attachMode this = AttachOnce ->
  (run env this s).1 = Ok tt ->
  let s1 := (run env this s).2 in
  (run env this s1).1 = Ok tt
  ∧ listeners (run env this s1).2 = listeners s1
  ∧ observers (run env this s1).2 = observers s1
  ∧ installedEvents (run env this s1).2 = installedEvents s1.
Proof.
  intros Hkind Hin Hmode Hok s1.
  destruct (run_element_once env this s kind Hkind Hin Hmode Hok)
    as (elements & Harmed & Hl & Ho & Hc & Hi & Hagain).
  fold s1 in Hl, Ho, Hc, Hi.
  (* the cancel handlers left by the first run: the one of [getRoot] *)
  destruct (getRoot_effect env this (cancelObservers this s).2)
    as (h & Hh & Hstate & Hresult).
  assert (Hhandlers : cancelHandlers s1 = [h]).
  { rewrite Hc. unfold armed. rewrite Hstate.
    change (cancelHandlers (cancelObservers this s).2 ++ [h] = [h]).
    by rewrite (proj1 (cancelObservers_resets this s)). }
  (* so the second cancellation detaches nothing *)
  assert (Hcancel : (cancelObservers this s1).2
                    = set_abortController (S (generation s1)) [] s1).
  { unfold cancelObservers, bind, gets. cbn [fst snd]. rewrite Hhandlers.
    by destruct Hh as [-> | [selector ->]]. }
  destruct (getRoot_effect env this (cancelObservers this s1).2)
    as (h' & _ & Hstate' & _).
  assert (Harmed' : (armed env this s1).1 = Ok (Some elements)).
  { unfold armed in *. by rewrite (Hresult (cancelObservers this s1).2). }
  assert (Hsame : listeners (armed env this s1).2 = listeners s1
                  ∧ observers (armed env this s1).2 = observers s1
                  ∧ installedEvents (armed env this s1).2
                    = installedEvents s1).
  { unfold armed. rewrite Hstate', Hcancel. by repeat split. }
  destruct Hsame as (Hl1 & Ho1 & Hi1).
  pose proof (Hagain s1 Harmed') as Hok'.
  destruct (run_element_once env this s1 kind Hkind Hin Hmode Hok')
    as (elements' & Harmed'' & Hl' & Ho' & _ & Hi' & _).
  rewrite Harmed' in Harmed''. injection Harmed'' as <-.
  split; [done|]. split; [|split].
  - by rewrite Hl', Hl1, Hl, rebound_twice.
  - by rewrite Ho', Ho1.
  - rewrite Hi', Hi1, Hi. unfold setAdd at 1.
    rewrite bool_decide_eq_true_2; [done|].
    unfold setAdd. case_bool_decide; [done|].
    apply elem_of_app. right. by apply list_elem_of_singleton.
Qed.

Lemma rearm_same_listeners_witness :
  let s1 := (run sampleEnv clickInstance installedState).2 in
  (run sampleEnv clickInstance s1).1 = Ok tt
  ∧ listeners (run sampleEnv clickInstance s1).2 = listeners s1
  ∧ observers (run sampleEnv clickInstance s1).2 = observers s1
  ∧ installedEvents (run sampleEnv clickInstance s1).2 = installedEvents s1.
Proof.
  apply (rearm_same_listeners sampleEnv clickInstance installedState Click).
  - reflexivity.
  - unfold elementEvents. apply elem_of_cons. by left.
  - reflexivity.
  - reflexivity.
Defined.

(** ** Observers are never left behind *)

Section Hoare.
Context {A : Type}.

Lemma hoare_ret (P : State -> Prop) (a : A) Q E :
  (∀ s, P s -> Q a s) -> hoare P (ret a) Q E.
Proof. intros H s Hs. by apply H. Qed.

Lemma hoare_throw (P : State -> Prop) t (Q : A -> State -> Prop) E :
  (∀ s, P s -> E s) -> hoare P (throw t) Q E.
Proof. intros H s Hs. by apply H. Qed.

Lemma hoare_bind {B} (P : State -> Prop) (m : M B) (k : B -> M A) Q1 Q E :
  hoare P m Q1 E -> (∀ b, hoare (Q1 b) (k b) Q E) -> hoare P (bind m k) Q E.
Proof.
  intros Hm Hk s Hs. unfold bind. specialize (Hm s Hs).
  destruct (m s) as [[b|t] s1]; [by apply Hk | done].
Qed.

Lemma hoare_conseq (P P' : State -> Prop) (m : M A)
    (Q Q' : A -> State -> Prop) (E E' : State -> Prop) :
  hoare P m Q E -> (∀ s, P' s -> P s) -> (∀ a s, Q a s -> Q' a s) ->
  (∀ s, E s -> E' s) -> hoare P' m Q' E'.
Proof.
  intros Hm HP HQ HE s Hs. specialize (Hm s (HP s Hs)).
  destruct (m s) as [[a|t] s1]; auto.
Qed.

(** A relation kept by [m] carries a property of the state over to both of
    its outcomes. *)
Lemma hoare_preserves (R : relation State) (P Q : State -> Prop) (m : M A) :
  preserves R m -> (∀ s s', P s -> R s s' -> Q s') ->
  hoare P m (fun _ => Q) Q.
Proof.
  intros Hm HR s Hs. specialize (Hm s).
  destruct (m s) as [[a|t] s1]; eauto.
Qed.
End Hoare.

Lemma hoare_modify (P : State -> Prop) f Q E :
  (∀ s, P s -> Q tt (f s)) -> hoare P (modify f) Q E.
Proof. intros H s Hs. by apply H. Qed.

Lemma hoare_forEach {A} (I E : State -> Prop) (f : A -> M unit) l :
  (∀ a, hoare I (f a) (fun _ => I) E) ->
  hoare I (forEach f l) (fun _ => I) E.
Proof.
  intros Hf. induction l as [|a l IH]; cbn [forEach].
  - by apply hoare_ret.
  - eapply hoare_bind; [apply Hf | intros ?; apply IH].
Qed.

#[global] Instance sameIds_preorder : PreOrder sameIds.
Proof.
  split.
  - intros s. by split.
  - intros s1 s2 s3 [I1 H1] [I2 H2]. split; [congruence | auto].
Qed.

Lemma sameIds_same s s' :
  observers s' = observers s -> cancelHandlers s' = cancelHandlers s ->
  sameIds s s'.
Proof.
  intros Ho Hc. unfold sameIds, observerIds. rewrite Ho, Hc. by split.
Qed.

#[global] Instance sameIds_frame : FiringFrame sameIds (fun _ => True).
Proof. split; [apply _ | intros; by apply sameIds_same ..]. Qed.

Lemma CoveredBut_sameIds pending s s' :
  CoveredBut pending s -> sameIds s s' -> CoveredBut pending s'.
Proof.
  intros Hc [Hids Hhs] id Hid. rewrite Hids in Hid.
  destruct (Hc id Hid); auto.
Qed.

Section Covering.
Context (env : Env) (this : Instance).

Lemma addCancelHandler_sameIds h : preserves sameIds (addCancelHandler h).
Proof.
  intros s. split; [done|]. intros h' Hh'. cbn. apply elem_of_app. by left.
Qed.

Lemma observe_sameIds id element : preserves sameIds (observe id element).
Proof.
  intros s. split; [|done]. unfold observerIds. cbn.
  induction (observers s) as [|[i o] l IH]; [done|]. cbn. rewrite IH.
  destruct o as [selector callback|observed]; [done|].
  by destruct (Nat.eqb i id).
Qed.

Lemma deref_sameIds {A} (x : option A) : preserves sameIds (deref x).
Proof. by destruct x. Qed.

Lemma getRoot_sameIds : preserves sameIds (getRoot env this).
Proof.
  unfold getRoot. destruct (isEmpty _).
  - preserves_step; [apply addCancelHandler_sameIds | preserves_step].
  - preserves_step; [apply addCancelHandler_sameIds|].
    destruct (awaitElementOnce _ _) as [|[]]; preserves_step.
Qed.

Lemma dispatch_sameIds roots args :
  preserves sameIds (debouncedRunTriggersAndNotify env this roots args).
Proof. by apply (debouncedRunTriggersAndNotify_preserves sameIds (fun _ => True)). Qed.

Lemma attachDOMTrigger_handlers_sameIds element :
  preserves sameIds (attachDOMTrigger_handlers this element).
Proof.
  unfold attachDOMTrigger_handlers.
  destruct (domTrigger this) as [event|]; [|preserves_step].
  destruct (String.eqb event ""); [preserves_step|].
  destruct element as [elements|]; [|repeat preserves_step].
  intros s. by apply sameIds_same.
Qed.

Lemma observerCallback_sameIds callback element :
  preserves sameIds (observerCallback env this callback element).
Proof.
  destruct callback; cbn [observerCallback].
  - apply dispatch_sameIds.
  - apply observe_sameIds.
  - apply attachDOMTrigger_handlers_sameIds.
Qed.

Lemma assertElement_sameIds root : preserves sameIds (assertElement this root).
Proof.
  unfold assertElement. preserves_step; [apply deref_sameIds|].
  case_bool_decide; preserves_step.
Qed.

Lemma attachDocumentTrigger_sameIds :
  preserves sameIds (attachDocumentTrigger this).
Proof.
  intros s. split; [done|]. intros h Hh. cbn. apply elem_of_app. by left.
Qed.

(** What the cancel handlers leave connected. *)
Lemma filter_all {A} (l : list A) : List.filter (fun _ => true) l = l.
Proof. induction l as [|a l IH]; [done|]. cbn. by rewrite IH. Qed.

Lemma filter_filter {A} (f g : A -> bool) l :
  List.filter f (List.filter g l) = List.filter (fun a => g a && f a) l.
Proof.
  induction l as [|a l IH]; [done|]. cbn.
  destruct (g a); cbn; [|done]. destruct (f a); by rewrite IH.
Qed.

Lemma runCancelHandler_observers h s :
  observers (runCancelHandler this h s).2
  = List.filter (fun o => negb (disconnects [h] o.1)) (observers s).
Proof.
  destruct h as [|selector|id|event]; cbn; try (by rewrite filter_all).
  apply filter_ext. intros o. by rewrite orb_false_r, Nat.eqb_sym.
Qed.

Lemma forEach_cancel_observers handlers s :
  observers (forEach (runCancelHandler this) handlers s).2
  = List.filter (fun o => negb (disconnects handlers o.1)) (observers s).
Proof.
  revert s. induction handlers as [|h rest IH]; intros s.
  - cbn. by rewrite filter_all.
  - cbn [forEach]. unfold bind.
    pose proof (runCancelHandler_total this h s) as Hok.
    pose proof (runCancelHandler_observers h s) as Hobs.
    destruct (runCancelHandler this h s) as [[[]|t] s1]; [|done].
    cbn [snd] in Hobs. rewrite IH, Hobs, filter_filter.
    apply filter_ext. intros o. cbn. rewrite orb_false_r.
    by rewrite negb_orb.
Qed.

Lemma cancelObservers_empties s :
  Covered s -> observers (cancelObservers this s).2 = [].
Proof.
  intros Hcov.
  pose proof (forEach_cancel_observers (cancelHandlers s) s) as Hobs.
  pose proof (total_forEach (runCancelHandler this) (cancelHandlers s)
                (runCancelHandler_total this) s) as Hok.
  unfold cancelObservers, bind, gets. cbn [fst snd].
  destruct (forEach _ _ s) as [[[]|t] s1]; [|done]. cbn [fst snd] in *.
  change (observers s1 = []). rewrite Hobs.
  assert (H : ∀ l : list (nat * Observer),
            (∀ o, o ∈ l -> o.1 ∈ observerIds s) ->
            List.filter (fun o => negb (disconnects (cancelHandlers s) o.1)) l
            = []).
  { induction l as [|o l IH]; intros Hl; [done|]. cbn.
    assert (disconnects (cancelHandlers s) o.1 = true) as ->.
    { destruct (Hcov o.1) as [Hin|Hin].
      - apply Hl, elem_of_cons. by left.
      - by apply elem_of_nil in Hin.
      - unfold disconnects. apply existsb_exists.
        exists (CancelDisconnect o.1). split; [by apply list_elem_of_In|].
        apply Nat.eqb_refl. }
    cbn. apply IH. intros o' Ho'. apply Hl, elem_of_cons. by right. }
  apply H. intros o Ho. unfold observerIds.
  apply list_elem_of_fmap. by exists o.
Qed.
End Covering.

Lemma noObservers_CoveredBut pending s : noObservers s -> CoveredBut pending s.
Proof.
  intros Hs id Hid. unfold observerIds in Hid. rewrite Hs in Hid.
  by apply elem_of_nil in Hid.
Qed.

Lemma noObservers_sameIds s s' : noObservers s -> sameIds s s' -> noObservers s'.
Proof.
  unfold noObservers, sameIds, observerIds. intros Hs [Hids _]. rewrite Hs in Hids.
  by destruct (observers s').
Qed.

Section Arming.
Context (env : Env) (this : Instance).

Lemma cancelObservers_hoare E :
  hoare Covered (cancelObservers this) (fun _ => noObservers) E.
Proof.
  intros s Hs. pose proof (cancelObservers_empties this s Hs) as Hobs.
  pose proof (cancelObservers_total this s) as Hok.
  by destruct (cancelObservers this s) as [[[]|t] s1].
Qed.

Lemma observe_hoare pending id element E :
  hoare (CoveredBut pending) (observe id element)
    (fun _ => CoveredBut pending) E.
Proof.
  intros s Hs. apply (CoveredBut_sameIds pending s); [done|].
  apply (observe_sameIds id element s).
Qed.

Lemma newObserver_hoare pending o E :
  hoare (CoveredBut pending) (newObserver o)
    (fun id => CoveredBut (id :: pending)) E.
Proof.
  intros s Hs id Hid. unfold observerIds in Hid. cbn in Hid.
  apply elem_of_cons in Hid as [->|Hid].
  - left. apply elem_of_cons. by left.
  - destruct (Hs id Hid) as [H|H]; [left; apply elem_of_cons; by right|].
    by right.
Qed.

Lemma addCancelHandler_hoare pending id E :
  hoare (CoveredBut (id :: pending)) (addCancelHandler (CancelDisconnect id))
    (fun _ => CoveredBut pending) E.
Proof.
  intros s Hs i Hi. cbn in Hi. destruct (Hs i Hi) as [H|H].
  - apply elem_of_cons in H as [->|H]; [|by left].
    right. cbn. apply elem_of_app. right. apply elem_of_cons. by left.
  - right. cbn. apply elem_of_app. by left.
Qed.

(** [initialize] followed by the registration of the new observer's
    [disconnect]. *)
Lemma watch_hoare pending selector callback (E : State -> Prop) :
  (∀ element,
     hoare (CoveredBut pending) (observerCallback env this callback element)
       (fun _ => CoveredBut pending) E) ->
  hoare (CoveredBut pending)
    (observer <- initialize env this selector callback ;;
     addCancelHandler (CancelDisconnect observer))
    (fun _ => CoveredBut pending) E.
Proof.
  intros Hcb. unfold initialize.
  eapply hoare_bind; [|intros id; apply addCancelHandler_hoare].
  eapply hoare_bind; [by apply hoare_forEach|].
  intros ?. apply newObserver_hoare.
Qed.

Lemma callback_hoare pending callback element :
  hoare (CoveredBut pending) (observerCallback env this callback element)
    (fun _ => CoveredBut pending) (CoveredBut pending).
Proof.
  apply (hoare_preserves sameIds); [apply observerCallback_sameIds|].
  intros s s'. apply CoveredBut_sameIds.
Qed.

Lemma sameIds_hoare {A} (m : M A) :
  preserves sameIds m -> hoare noObservers m (fun _ => Covered) Covered.
Proof.
  intros Hm. apply (hoare_preserves sameIds); [done|].
  intros s s' Hs Hss'. apply noObservers_CoveredBut.
  by apply (noObservers_sameIds s).
Qed.

Lemma attachInitializeTrigger_hoare root :
  hoare Covered (attachInitializeTrigger env this root)
    (fun _ => Covered) Covered.
Proof.
  unfold attachInitializeTrigger.
  eapply hoare_bind; [apply cancelObservers_hoare|]. intros ?.
  destruct (attachMode this).
  - apply sameIds_hoare.
    preserves_step; [apply deref_sameIds | apply dispatch_sameIds].
  - eapply hoare_conseq;
      [apply (watch_hoare [] _ _ Covered), callback_hoare
      | apply noObservers_CoveredBut | done | done].
Qed.

Lemma attachAppearTrigger_hoare elements :
  hoare Covered (attachAppearTrigger env this (Some elements))
    (fun _ => Covered) Covered.
Proof.
  unfold attachAppearTrigger.
  eapply hoare_bind; [apply cancelObservers_hoare|]. intros ?.
  eapply hoare_bind;
    [eapply hoare_conseq;
       [apply (newObserver_hoare [] _ Covered)
       | apply noObservers_CoveredBut | done | done] |].
  intros appearObserver. cbv beta. cbn [deref].
  apply (hoare_bind _ _ _ (fun _ => CoveredBut [appearObserver]));
    [by apply hoare_ret|].
  intros els.
  apply (hoare_bind _ _ _ (fun _ => CoveredBut [appearObserver]));
    [apply hoare_forEach; intros element; apply observe_hoare|].
  intros ?.
  apply (hoare_bind _ _ _ (fun _ => CoveredBut [appearObserver]));
    [|intros ?; apply addCancelHandler_hoare].
  destruct (attachMode this); [by apply hoare_ret|].
  apply watch_hoare. intros element. apply observe_hoare.
Qed.

Lemma attachDOMTrigger_hoare root watch :
  hoare Covered (attachDOMTrigger env this root watch)
    (fun _ => Covered) Covered.
Proof.
  unfold attachDOMTrigger.
  eapply hoare_bind;
    [apply (hoare_preserves sameIds);
       [apply attachDOMTrigger_handlers_sameIds
       | intros s s'; apply CoveredBut_sameIds] |].
  intros ?. destruct watch; [|by apply hoare_ret].
  case_bool_decide; [by apply hoare_ret|].
  eapply hoare_bind; [apply cancelObservers_hoare|]. intros ?.
  eapply hoare_conseq;
    [apply (watch_hoare [] _ _ Covered), callback_hoare
    | apply noObservers_CoveredBut | done | done].
Qed.

Lemma attachInterval_hoare :
  hoare Covered (attachInterval this) (fun _ => Covered) Covered.
Proof.
  unfold attachInterval.
  eapply hoare_bind; [apply cancelObservers_hoare|]. intros ?.
  apply sameIds_hoare. destruct (_ <? _)%Z.
  - intros s. by apply sameIds_same.
  - intros s. by apply sameIds_same.
Qed.

Lemma run_hoare : hoare Covered (run env this) (fun _ => Covered) Covered.
Proof.
  unfold run.
  eapply hoare_bind; [apply cancelObservers_hoare|]. intros ?.
  eapply hoare_bind; [apply sameIds_hoare, getRoot_sameIds|]. intros root.
  assert (Hassert : ∀ m : M unit,
            (∀ elements, root = Some elements ->
                         hoare Covered m (fun _ => Covered) Covered) ->
            hoare Covered (assertElement this root ;; m)
              (fun _ => Covered) Covered).
  { intros m Hm. destruct root as [elements|]; [|by intros s Hs].
    eapply hoare_bind; [|intros ?; by apply (Hm elements)].
    apply (hoare_preserves sameIds); [apply assertElement_sameIds|].
    intros s s'. apply CoveredBut_sameIds. }
  assert (Hdom : ∀ watch,
            hoare Covered (assertElement this root ;;
                           attachDOMTrigger env this root watch)
              (fun _ => Covered) Covered).
  { intros watch. apply Hassert. intros. apply attachDOMTrigger_hoare. }
  assert (Hdoc : hoare Covered (attachDocumentTrigger this)
                   (fun _ => Covered) Covered).
  { apply (hoare_preserves sameIds); [apply attachDocumentTrigger_sameIds|].
    intros s s'. apply CoveredBut_sameIds. }
  destruct (trigger this) as [[]|]; try apply Hdom; try apply Hdoc.
  - apply (hoare_preserves sameIds);
      [|intros s s'; apply CoveredBut_sameIds].
    preserves_step; [apply deref_sameIds | apply dispatch_sameIds].
  - apply attachInterval_hoare.
  - apply Hassert. intros elements ->. apply attachAppearTrigger_hoare.
  - apply attachInitializeTrigger_hoare.
  - apply attachDOMTrigger_hoare.
  - by apply hoare_throw.
Qed.

Lemma uninstall_hoare :
  hoare Covered (uninstall env this) (fun _ => noObservers) noObservers.
Proof.
  unfold uninstall.
  eapply hoare_bind; [apply cancelObservers_hoare|]. intros ?.
  apply (hoare_preserves sameIds);
    [|intros s s'; apply noObservers_sameIds].
  destruct (isEmpty _); [preserves_step|].
  destruct (_ <? _)%nat; [|preserves_step].
  repeat preserves_step; intros s; by apply sameIds_same.
Qed.

Lemma act_hoare a : hoare Covered (act env this a) (fun _ => Covered) Covered.
Proof.
  assert (Hsame : ∀ m : M unit,
            preserves sameIds m -> hoare Covered m (fun _ => Covered) Covered).
  { intros m Hm. apply (hoare_preserves sameIds); [done|].
    intros s s'. apply CoveredBut_sameIds. }
  destruct a as [| | |id element|name event ancestors]; cbn [act].
  - apply Hsame. repeat preserves_step. intros s. by apply sameIds_same.
  - apply run_hoare.
  - eapply hoare_conseq;
      [apply uninstall_hoare | done | intros ?; apply noObservers_CoveredBut
      | apply noObservers_CoveredBut].
  - apply Hsame. preserves_step; [preserves_step|].
    destruct (List.find _ _) as [[i [selector callback|observed]]|];
      [apply observerCallback_sameIds | preserves_step ..].
  - apply Hsame. repeat preserves_step.
    apply preserves_allSettled; [apply _|]. apply Forall_forall.
    intros task Hin. apply list_elem_of_fmap in Hin as (l & -> & _).
    by apply (eventHandler_preserves sameIds (fun _ => True)).
Qed.
End Arming.

Lemma exec_Covered this script s : Covered s -> Covered (exec this script s).
Proof.
  revert s. induction script as [|[env a] rest IH]; intros s Hs; [done|].
  cbn [exec]. apply IH. pose proof (act_hoare env this a s Hs) as H.
  by destruct (act env this a s) as [[[]|t] s1].
Qed.

(** X15. An observer is only ever connected together with the registration
    of its [disconnect] on the current signal: whatever the instance went
    through (install, arming again and again with any page, inserted
    elements, dispatched events, uninstall), from a state without stray
    observers every connected observer has its cancel handler, so the next
    [cancelObservers] or [uninstall] leaves no observer connected. *)
Theorem observers_never_stray (this : Instance) (script : list (Env * Action))
    (s : State) :
  Covered s ->
  let s' := exec this script s in
  Covered s'
  ∧ observers (cancelObservers this s').2 = []
  ∧ ∀ env, observers (uninstall env this s').2 = [].
Proof.
  intros Hs s'. pose proof (exec_Covered this script s Hs) as Hs'.
  fold s' in Hs'. split; [done|]. split.
  - by apply cancelObservers_empties.
  - intros env. pose proof (uninstall_hoare env this s' Hs') as H.
    by destruct (uninstall env this s') as [[[]|t] s1].
Qed.

Lemma observers_never_stray_witness :
  observers (exec watchInstance rearmScript initialState) ≠ []
  ∧ observers
      (cancelObservers watchInstance
         (exec watchInstance rearmScript initialState)).2 = [].
Proof.
  split; [by vm_compute|].
  assert (Hs : Covered initialState).
  { intros id Hid. by apply elem_of_nil in Hid. }
  exact (proj1 (proj2 (observers_never_stray watchInstance rearmScript
                         initialState Hs))).
Defined.

(** ** The report gate across the lifecycle *)

#[global] Instance remembers_preorder : PreOrder remembers.
Proof.
  split.
  - intros s. by split.
  - intros s1 s2 s3 [H1 H2] [H3 H4]. split; by etrans.
Qed.

Lemma remembers_same s s' :
  reportedErrors s' = reportedErrors s ->
  reportedEvents s' = reportedEvents s -> remembers s s'.
Proof. intros He Hv. unfold remembers. by rewrite He, Hv. Qed.

Ltac remembers_step :=
  first
    [ preserves_step
    | apply preserves_modify; intros ?; apply remembers_same; reflexivity
    | apply preserves_modify; intros ?; split; cbn;
      first [reflexivity | apply union_subseteq_r]
    | apply preserves_promiseAll; [apply _|]; apply Forall_forall;
      let Hin := fresh in
      intros ? Hin; apply list_elem_of_fmap in Hin as (? & -> & _)
    | apply preserves_allSettled; [apply _|]; apply Forall_forall;
      let Hin := fresh in
      intros ? Hin; apply list_elem_of_fmap in Hin as (? & -> & _)
    | match goal with
      | |- preserves _ (if ?b then _ else _) => destruct b
      | |- preserves _ (match ?x with _ => _ end) => destruct x
      end ].

Section Remembering.
Context (env : Env) (this : Instance).

Lemma runTask_remembers ctxt root extension :
  preserves remembers (runTask env this ctxt root extension).
Proof.
  unfold runTask, runExtension, shouldReportError, shouldReportEvent, emit.
  repeat remembers_step.
Qed.

Lemma dispatch_remembers roots args :
  preserves remembers (debouncedRunTriggersAndNotify env this roots args).
Proof.
  unfold debouncedRunTriggersAndNotify, _runTriggersAndNotify, notifyErrors,
    emit.
  repeat remembers_step.
  unfold _runTrigger, emit. cbv zeta. repeat remembers_step.
Qed.

Lemma cancelObservers_remembers : preserves remembers (cancelObservers this).
Proof.
  unfold cancelObservers. repeat remembers_step.
  unfold runCancelHandler, disconnect, jqOff, emit. repeat remembers_step.
Qed.

Lemma observerCallback_remembers callback element :
  preserves remembers (observerCallback env this callback element).
Proof.
  destruct callback; cbn [observerCallback].
  - apply dispatch_remembers.
  - unfold observe. repeat remembers_step.
  - unfold attachDOMTrigger_handlers, deref, jqOff, jqOn, emit.
    repeat remembers_step.
Qed.

Lemma watch_remembers selector callback :
  preserves remembers
    (observer <- initialize env this selector callback ;;
     addCancelHandler (CancelDisconnect observer)).
Proof.
  unfold initialize, newObserver, addCancelHandler.
  repeat remembers_step. apply observerCallback_remembers.
Qed.

Lemma run_remembers : preserves remembers (run env this).
Proof.
  unfold run.
  preserves_step; [apply cancelObservers_remembers|].
  preserves_step.
  { unfold getRoot, addCancelHandler. repeat remembers_step. }
  unfold assertElement, attachInterval, attachInitializeTrigger,
    attachAppearTrigger, attachDocumentTrigger, attachDOMTrigger.
  destruct (trigger this) as [[]|];
    repeat first
      [ apply cancelObservers_remembers
      | apply dispatch_remembers
      | apply watch_remembers
      | progress unfold attachDOMTrigger_handlers, deref, jqOff, jqOn,
          addCancelHandler, newObserver, observe, emit
      | remembers_step ].
Qed.

Lemma uninstall_remembers : preserves remembers (uninstall env this).
Proof.
  unfold uninstall.
  preserves_step; [apply cancelObservers_remembers|].
  unfold jqOff, emit. repeat remembers_step.
Qed.

Lemma act_remembers a : preserves remembers (act env this a).
Proof.
  destruct a as [| | |id element|name event ancestors]; cbn [act].
  - unfold install. repeat remembers_step.
  - apply run_remembers.
  - apply uninstall_remembers.
  - preserves_step; [preserves_step|].
    destruct (List.find _ _) as [[i [selector callback|observed]]|];
      [apply observerCallback_remembers | preserves_step ..].
  - repeat preserves_step.
    apply preserves_allSettled; [apply _|]. apply Forall_forall.
    intros task Hin. apply list_elem_of_fmap in Hin as (l & -> & _).
    apply dispatch_remembers.
Qed.
End Remembering.

Lemma exec_remembers this script s : remembers s (exec this script s).
Proof.
  revert s. induction script as [|[env a] rest IH]; intros s; [done|].
  cbn [exec]. etrans; [apply (act_remembers env this a s) | apply IH].
Qed.

(** X16. The ids recorded by the report gate are never forgotten: whatever
    the instance goes through (install, arming, uninstall, inserted
    elements, dispatched events), the ids in [reportedErrors] and
    [reportedEvents] stay there, so in report mode [once] an error or a run
    of an extension that was reported before is not reported again
    afterwards, also after the page was left and entered again. *)
Theorem reported_ids_remembered (this : Instance)
    (script : list (Env * Action)) (s : State) :
  reportMode this = ReportOnce ->
  let s' := exec this script s in
  reportedErrors s ⊆ reportedErrors s'
  ∧ reportedEvents s ⊆ reportedEvents s'
  ∧ (∀ id, id ∈ reportedErrors s -> (shouldReportError this id s').1 = Ok false)
  ∧ (∀ id, id ∈ reportedEvents s -> (shouldReportEvent this id s').1 = Ok false).
Proof.
  intros Hmode s'. destruct (exec_remembers this script s) as [He Hv].
  fold s' in He, Hv. split; [done|]. split; [done|].
  split; intros id Hid; cbn; unfold shouldReport; rewrite Hmode;
    by rewrite bool_decide_true by auto.
Qed.

Lemma reported_ids_remembered_witness :
  let s := exec loadInstance [(sampleEnv, CallInstall); (sampleEnv, CallRun)]
             initialState in
  reportedRuns (trace s) = [("TriggerRun", "ext-ok")]
  ∧ (shouldReportEvent loadInstance "ext-ok"
       (exec loadInstance navigationScript s)).1 = Ok false.
Proof.
  intros s. split; [by vm_compute|].
  assert (Hid : "ext-ok" ∈ reportedEvents s).
  { apply (bool_decide_unpack _). by vm_compute. }
  exact (proj2 (proj2 (proj2 (reported_ids_remembered loadInstance
                                navigationScript s eq_refl)))
           "ext-ok" Hid).
Defined.


(** * Firings *)

(** ** The calls of a dispatch, task by task *)

Lemma reads_app a b : reads (a ++ b) = (reads a + reads b)%nat.
Proof. unfold reads. by rewrite List.filter_app, length_app. Qed.

Lemma concat_rev_cons {A} (new : list A) news :
  concat (rev (new :: news)) = concat (rev news) ++ new.
Proof. simpl. rewrite concat_app. simpl. by rewrite app_nil_r. Qed.

(** The tasks of [allSettled] run one after the other: each adds its calls
    on top of those of the tasks before it. *)
Lemma allSettled_segments {X A} (f : X -> M A) (I : State -> Prop)
    (Q : X -> list Effect -> Prop) (xs : list X) (s : State) :
  (∀ x s0, x ∈ xs -> I s0 ->
     I (f x s0).2 ∧ ∃ new, trace (f x s0).2 = new ++ trace s0 ∧ Q x new) ->
  I s ->
  I (allSettled (map f xs) s).2
  ∧ ∃ news, trace (allSettled (map f xs) s).2 = concat (rev news) ++ trace s
            ∧ Forall2 Q xs news.
Proof.
  revert s. induction xs as [|x xs IH]; intros s Hf Hs.
  - split; [done|]. exists []. split; [done|constructor].
  - destruct (Hf x s) as (HI & new & En & HQ); [apply elem_of_cons; by left
                                                |done|].
    simpl. destruct (f x s) as [r1 s1]. simpl in *.
    destruct (IH s1) as (HI2 & news & Ens & HQs); [|done|].
    { intros x' s0 Hx'. apply Hf, elem_of_cons. by right. }
    destruct (allSettled (map f xs) s1) as [[rs|t] s2]; simpl in *;
      (split; [done|]); exists (new :: news);
      (split; [|by constructor]);
      by rewrite concat_rev_cons, Ens, En, app_assoc.
Qed.

Lemma Forall2_pick {X Y} (Q : X -> Y -> Prop) xs ys x :
  Forall2 Q xs ys -> x ∈ xs -> ∃ y, y ∈ ys ∧ Q x y.
Proof.
  induction 1 as [|x' y' xs ys HQ _ IH]; intros Hx.
  - by apply elem_of_nil in Hx.
  - apply elem_of_cons in Hx as [->|Hx].
    + exists y'. split; [apply elem_of_cons; by left | done].
    + destruct (IH Hx) as (y & Hy & HQy). exists y.
      split; [apply elem_of_cons; by right | done].
Qed.

Lemma elem_of_concat_rev {A} (a : A) new news :
  a ∈ new -> new ∈ news -> a ∈ concat (rev news).
Proof.
  intros Ha Hnew. apply list_elem_of_In, in_concat. exists new.
  split; [apply in_rev; rewrite rev_involutive|]; by apply list_elem_of_In.
Qed.

Lemma filter_concat_rev {X} (P : Effect -> bool) (g : X -> list Effect)
    xs news :
  Forall2 (fun x new => List.filter P new = g x) xs news ->
  List.filter P (concat (rev news)) = concat (rev (map g xs)).
Proof.
  induction 1 as [|x new xs news Hx _ IH]; [done|].
  rewrite concat_rev_cons, List.filter_app, IH, Hx.
  change (map g (x :: xs)) with (g x :: map g xs).
  by rewrite concat_rev_cons.
Qed.

Lemma concat_rev_singletons {X} (h : X -> Effect) xs :
  concat (rev (map (fun x => [h x]) xs)) = rev (map h xs).
Proof.
  induction xs as [|x xs IH]; [done|].
  change (map (fun x => [h x]) (x :: xs))
    with ([h x] :: map (fun x => [h x]) xs).
  rewrite concat_rev_cons, IH. done.
Qed.

Lemma concat_rev_nils {X} (xs : list X) :
  concat (rev (map (fun _ => @nil Effect) xs)) = [].
Proof.
  induction xs as [|x xs IH]; [done|].
  change (map (fun _ => @nil Effect) (x :: xs))
    with (@nil Effect :: map (fun _ => @nil Effect) xs).
  by rewrite concat_rev_cons, IH.
Qed.

Lemma reads_concat_rev {X} (c : nat) (xs : list X) news :
  Forall2 (fun _ new => reads new = c) xs news ->
  reads (concat (rev news)) = (length xs * c)%nat.
Proof.
  induction 1 as [|x new xs news Hx _ IH]; [done|].
  rewrite concat_rev_cons, reads_app, IH, Hx. simpl. lia.
Qed.

Lemma taskEffect_not_read ctxt root new :
  Forall (taskEffect ctxt root) new -> List.filter isReaderRead new = [].
Proof.
  induction 1 as [|e l He _ IH]; [done|]. simpl. by destruct e.
Qed.

Section Segments.
Context (env : Env) (this : Instance).

(** What one task of a firing adds to the trace. *)
Lemma runTask_segment ctxt root extension s :
  ∃ new, trace (runTask env this ctxt root extension s).2 = new ++ trace s
         ∧ Forall (taskEffect ctxt root) new
         ∧ ((∃ context,
               makeServiceContext env (ext_services extension) = Ok context) ->
            PipelineRun (ext_id extension) ctxt root ∈ new).
Proof.
  destruct (runTask_preserves (pushes (taskEffect ctxt root))
              (taskEffect ctxt root) env this ctxt root extension
              (fun e He => He) s)
    as (new & En & Hnew).
  exists new. split; [done|]. split; [done|]. intros [context Hsc].
  assert (Hrun : (PipelineRun (ext_id extension) ctxt root :: trace s)
                 `suffix_of` trace (runTask env this ctxt root extension s).2).
  { unfold runTask, runExtension, tryCatch, bind, liftResult. rewrite Hsc.
    simpl. destruct (reduceExtensionPipeline env extension ctxt root); simpl;
      destruct (shouldReport this _); simpl;
      repeat first [reflexivity | apply suffix_cons_r]. }
  destruct Hrun as [pre Hpre]. rewrite En in Hpre.
  change (PipelineRun (ext_id extension) ctxt root :: trace s)
    with ([PipelineRun (ext_id extension) ctxt root] ++ trace s) in Hpre.
  rewrite app_assoc in Hpre. apply app_inv_tail in Hpre. subst new.
  apply elem_of_app. right. by apply list_elem_of_singleton.
Qed.

(** What one firing adds to the trace: one read of the root when some
    extension is eligible and the reader is available, and after it the
    pipeline of every eligible extension whose services resolve, on the
    context read. *)
Lemma runTrigger_segment root args s :
  let eligible :=
    List.filter (default stubTrue (shouldRunExtension args))
      (extensions this) in
  ∃ new, trace (_runTrigger env this root args s).2 = new ++ trace s
         ∧ List.filter isReaderRead new
           = match eligible, defaultReader env with
             | _ :: _, Ok _ => [ReaderRead root]
             | _, _ => []
             end
         ∧ ∀ reader out extension,
             defaultReader env = Ok reader -> reader root = Ok out ->
             extension ∈ eligible ->
             (∃ context,
                makeServiceContext env (ext_services extension) = Ok context) ->
             PipelineRun (ext_id extension)
               (readerContext env (nativeEvent args) out) root ∈ new.
Proof.
  intros eligible. unfold _runTrigger. fold eligible.
  destruct eligible as [|e0 rest] eqn:Hel.
  { exists []. split; [done|]. split; [done|].
    intros reader out extension _ _ Hin. by apply elem_of_nil in Hin. }
  cbn [length Nat.eqb]. unfold bind at 1.
  destruct (defaultReader env) as [reader|t] eqn:Hreader; cbn [liftResult].
  2:{ exists []. by repeat split. }
  unfold bind at 1. cbn [emit modify]. unfold bind at 1.
  destruct (reader root) as [out|t] eqn:Hread; cbn [liftResult].
  2:{ exists [ReaderRead root]. split; [done|]. split; [done|].
      intros reader' out extension [= <-]. by rewrite Hread. }
  set (ctxt := readerContext env (nativeEvent args) out).
  set (s1 := set_trace (cons (ReaderRead root)) s).
  destruct (allSettled_segments (runTask env this ctxt root)
              (fun _ => True)
              (fun extension new =>
                 Forall (taskEffect ctxt root) new
                 ∧ ((∃ context,
                       makeServiceContext env (ext_services extension)
                       = Ok context) ->
                    PipelineRun (ext_id extension) ctxt root ∈ new))
              (e0 :: rest) s1) as (_ & news & Ens & Hnews); [|done|].
  { intros extension s0 _ _. split; [done|].
    destruct (runTask_segment ctxt root extension s0) as (new & E & H1 & H2).
    by exists new. }
  exists (concat (rev news) ++ [ReaderRead root]).
  assert (Htrace : trace (promiseAll (map (runTask env this ctxt root)
                                        (e0 :: rest)) s1).2
                   = (concat (rev news) ++ [ReaderRead root]) ++ trace s).
  { unfold promiseAll, bind.
    destruct (allSettled _ s1) as [[rs|t] s2]; simpl in *;
      [destruct (collect rs)|]; simpl; by rewrite Ens, <- app_assoc. }
  split.
  { unfold bind.
    destruct (promiseAll _ s1) as [[errors|t] s2]; simpl in *; done. }
  split.
  - rewrite List.filter_app.
    rewrite (filter_concat_rev isReaderRead (fun _ => []) (e0 :: rest) news).
    + by rewrite concat_rev_nils.
    + eapply Forall2_impl; [exact Hnews|]. intros extension new [H _].
      by apply (taskEffect_not_read ctxt root).
  - intros reader' out' extension [= <-] Hout Hin Hsc.
    assert (out' = out) as -> by congruence.
    destruct (Forall2_pick _ _ _ extension Hnews Hin) as (new & Hnew & _ & H).
    apply elem_of_app. left. apply (elem_of_concat_rev _ new); [|done].
    by apply H.
Qed.

(** What a direct dispatch adds to the trace: the firings of the roots in
    order, then at most one notification. *)
Lemma runTriggersAndNotify_segment roots args s :
  ∃ new,
    trace (_runTriggersAndNotify env this roots args s).2 = new ++ trace s
    ∧ List.filter isReaderRead new
      = match extensions this, defaultReader env with
        | _ :: _, Ok _ => rev (map ReaderRead roots)
        | _, _ => []
        end
    ∧ ∀ reader out root extension,
        defaultReader env = Ok reader -> root ∈ roots ->
        reader root = Ok out -> extension ∈ extensions this ->
        (∃ context,
           makeServiceContext env (ext_services extension) = Ok context) ->
        PipelineRun (ext_id extension)
          (readerContext env (nativeEvent args) out) root ∈ new.
Proof.
  set (fire := fun root =>
         _runTrigger env this root
           {| nativeEvent := nativeEvent args; shouldRunExtension := None |}).
  destruct (allSettled_segments fire (fun _ => True)
              (fun root new =>
                 List.filter isReaderRead new
                 = match extensions this, defaultReader env with
                   | _ :: _, Ok _ => [ReaderRead root]
                   | _, _ => []
                   end
                 ∧ ∀ reader out extension,
                     defaultReader env = Ok reader -> reader root = Ok out ->
                     extension ∈ extensions this ->
                     (∃ context,
                        makeServiceContext env (ext_services extension)
                        = Ok context) ->
                     PipelineRun (ext_id extension)
                       (readerContext env (nativeEvent args) out) root ∈ new)
              roots s) as (_ & news & Ens & Hnews); [|done|].
  { intros root s0 _ _. split; [done|].
    destruct (runTrigger_segment root
                {| nativeEvent := nativeEvent args;
                   shouldRunExtension := None |} s0) as (new & E & H1 & H2).
    cbn [shouldRunExtension nativeEvent default] in H1, H2.
    rewrite filter_stubTrue in H1, H2. by exists new. }
  assert (Hnotify : ∃ shown,
            trace (_runTriggersAndNotify env this roots args s).2
            = shown ++ concat (rev news) ++ trace s
            ∧ List.filter isReaderRead shown = []
            ∧ ∀ e, e ∈ concat (rev news) -> e ∈ shown ++ concat (rev news)).
  { unfold _runTriggersAndNotify. fold fire. unfold bind.
    destruct (allSettled (map fire roots) s) as [[results|t] s1];
      simpl in Ens.
    - unfold notifyErrors. destruct (length _ =? 0)%nat; simpl.
      + exists []. by rewrite Ens.
      + eexists [_]. rewrite Ens. split; [done|]. split; [done|].
        intros e He. apply elem_of_cons. by right.
    - exists []. simpl. by rewrite Ens. }
  destruct Hnotify as (shown & Etrace & Hshown & Hin).
  exists (shown ++ concat (rev news)). split; [by rewrite <- app_assoc|].
  split.
  - rewrite List.filter_app, Hshown. simpl.
    destruct (extensions this) as [|e0 rest]; [|destruct (defaultReader env)].
    + rewrite (filter_concat_rev isReaderRead (fun _ => []) roots news).
      * by rewrite concat_rev_nils.
      * eapply Forall2_impl; [exact Hnews|]. by intros root new [H _].
    + rewrite (filter_concat_rev isReaderRead (fun root => [ReaderRead root])
                 roots news).
      * by rewrite concat_rev_singletons.
      * eapply Forall2_impl; [exact Hnews|]. by intros root new [H _].
    + rewrite (filter_concat_rev isReaderRead (fun _ => []) roots news).
      * by rewrite concat_rev_nils.
      * eapply Forall2_impl; [exact Hnews|]. by intros root new [H _].
  - intros reader out root extension Hreader Hroot Hout Hext Hsc.
    destruct (Forall2_pick _ _ _ root Hnews Hroot) as (new & Hnew & _ & H).
    apply Hin. apply (elem_of_concat_rev _ new); [|done]. by eapply H.
Qed.
End Segments.

(** ** Arming a trigger without a kind *)

#[global] Instance sameAttached_preorder : PreOrder sameAttached.
Proof.
  split.
  - intros s. by repeat split.
  - intros s1 s2 s3 (L1 & O1 & I1 & E1) (L2 & O2 & I2 & E2).
    unfold sameAttached. repeat split; congruence.
Qed.

#[global] Instance sameAttached_frame : FiringFrame sameAttached (fun _ => True).
Proof. split; [apply _ | intros; by repeat split ..]. Qed.

#[global] Instance sameDispatcher_frame :
  FiringFrame sameDispatcher (fun _ => True).
Proof. split; [apply _ | by intros ..]. Qed.



(** ** The firings of one dispatched event *)

Section EventFirings.
Context (env : Env) (this : Instance).

(** What one call of the handler adds to the trace: one firing that reads
    its root when the dispatch is direct, an extension is installed and the
    reader is available; no firing otherwise. *)
Lemma eventHandler_segment event s :
  ∃ new, trace (eventHandler env this event s).2 = new ++ trace s
         ∧ reads new
           = match dispatcher s, extensions this, defaultReader env with
             | Some Direct, _ :: _, Ok _ => 1%nat
             | _, _, _ => 0%nat
             end.
Proof.
  unfold eventHandler. cbv zeta.
  set (element := match targetMode this with
                  | Root => _
                  | EventTarget => _
                  end).
  set (args := {| nativeEvent := _; shouldRunExtension := _ |}).
  unfold debouncedRunTriggersAndNotify, bind, gets. cbn beta iota.
  destruct (dispatcher s) as [[|wait options]|].
  - destruct (runTriggersAndNotify_segment env this [element] args s)
      as (new & En & Hreads & _).
    exists new. split; [done|]. unfold reads. rewrite Hreads.
    by destruct (extensions this), (defaultReader env).
  - by exists [DebounceCall [element] (nativeEvent args)].
  - by exists [].
Qed.

(** The calls of the handler for one event come one after the other, each
    with the dispatcher it found. *)
Lemma dispatched_event_segment name event ancestors s :
  let calls :=
    handlerCalls (listeners s) (self this) name (target event :: ancestors) in
  ∃ new,
    trace (act env this (EventDispatched name event ancestors) s).2
    = new ++ trace s
    ∧ reads new
      = (length calls
         * match dispatcher s, extensions this, defaultReader env with
           | Some Direct, _ :: _, Ok _ => 1
           | _, _, _ => 0
           end)%nat.
Proof.
  intros calls. cbn [act]. unfold bind at 1, gets. cbn beta iota. fold calls.
  set (each := match dispatcher s, extensions this, defaultReader env with
               | Some Direct, _ :: _, Ok _ => 1%nat
               | _, _, _ => 0%nat
               end).
  destruct (allSettled_segments
              (fun _ : Node * string * nat => eventHandler env this event)
              (fun s0 => dispatcher s0 = dispatcher s)
              (fun _ new => reads new = each) calls s)
    as (_ & news & Ens & Hnews); [|done|].
  { intros call s0 _ Hs0. split.
    - rewrite <- Hs0.
      by apply (eventHandler_preserves sameDispatcher (fun _ => True)).
    - destruct (eventHandler_segment event s0) as (new & En & Hreads).
      exists new. split; [done|]. by rewrite Hreads, Hs0. }
  exists (concat (rev news)). split.
  - unfold bind. destruct (allSettled _ s) as [[settled|t] s1]; exact Ens.
  - by apply reads_concat_rev.
Qed.
End EventFirings.

(** The calls made on one node: one per binding of the handler there, for
    each time the event string of the instance names the type. *)
Lemma handlerCalls_node this name node (ls : list (Node * string * nat)) :
  (∀ l, l ∈ ls -> l.2 = self this -> Some l.1.2 = domTrigger this) ->
  length (flat_map (fun l =>
                      if bool_decide (l.1.1 = node) && Nat.eqb l.2 (self this)
                      then repeat l (typeCount l.1.2 name)
                      else []) ls)
  = (registrations ls node (default "" (domTrigger this)) (self this)
     * boundTimes this name)%nat.
Proof.
  unfold registrations. induction ls as [|l ls IH]; intros Hown; [done|].
  cbn [flat_map List.filter]. rewrite length_app, IH.
  2:{ intros l' Hl'. apply Hown, elem_of_cons. by right. }
  unfold sameListener at 2.
  destruct (decide (l.1.1 = node)) as [Hnode|Hnode];
    destruct (Nat.eqb l.2 (self this)) eqn:Hself.
  - apply Nat.eqb_eq in Hself.
    assert (Hl : Some l.1.2 = domTrigger this).
    { apply Hown; [apply elem_of_cons; by left | done]. }
    rewrite bool_decide_true by done.
    rewrite bool_decide_true by (apply list_elem_of_singleton; done).
    unfold boundTimes. rewrite <- Hl. cbn [default from_option andb].
    rewrite String.eqb_refl. cbn [andb length].
    rewrite repeat_length. lia.
  - rewrite bool_decide_true by done. cbn [andb].
    rewrite andb_false_r. cbn [length]. lia.
  - rewrite bool_decide_false by done.
    rewrite bool_decide_false
      by (intros H; by apply list_elem_of_singleton in H).
    cbn [andb length]. lia.
  - rewrite bool_decide_false by done.
    rewrite bool_decide_false
      by (intros H; by apply list_elem_of_singleton in H).
    cbn [andb length]. lia.
Qed.

Lemma handlerCalls_length this s name path :
  ownTypes this s -> singleListener this s ->
  length (handlerCalls (listeners s) (self this) name path)
  = (length (boundNodes this s path) * boundTimes this name)%nat.
Proof.
  intros Hown Hsingle. unfold handlerCalls, boundNodes.
  induction path as [|node path IH]; [done|].
  cbn [flat_map List.filter]. rewrite length_app, IH.
  rewrite (handlerCalls_node this name node (listeners s) Hown).
  pose proof (Hsingle node (default "" (domTrigger this))) as Hle.
  destruct (registrations (listeners s) node _ (self this)) as [|[|n]];
    cbn [Nat.ltb Nat.leb length]; lia.
Qed.

(** ** The event string of the bindings *)

#[global] Instance bindsOwn_preorder this : PreOrder (bindsOwn this).
Proof.
  split.
  - intros s l Hl. by left.
  - intros s1 s2 s3 H1 H2 l Hl. destruct (H2 l Hl) as [Hl2|Hnew]; auto.
Qed.

Lemma bindsOwn_same this s s' :
  listeners s' = listeners s -> bindsOwn this s s'.
Proof. intros E l Hl. left. by rewrite <- E. Qed.

#[global] Instance bindsOwn_frame this :
  FiringFrame (bindsOwn this) (fun _ => True).
Proof. split; [apply _ | intros; by apply bindsOwn_same ..]. Qed.

Lemma ownTypes_bindsOwn this s s' :
  ownTypes this s -> bindsOwn this s s' -> ownTypes this s'.
Proof.
  intros Hown Hstep l Hl Hself. destruct (Hstep l Hl) as [Hold|Hnew]; auto.
Qed.

Section BindsOwn.
Context (env : Env) (this : Instance).

Lemma jqOff_bindsOwn elements event handler :
  preserves (bindsOwn this) (jqOff elements event handler).
Proof.
  intros s l Hl. left.
  rewrite (proj1 (jqOff_state elements event handler s)) in Hl.
  apply list_elem_of_In, filter_In in Hl as [Hl _]. by apply list_elem_of_In.
Qed.

Lemma jqOn_bindsOwn elements event handler :
  Some event = domTrigger this ->
  preserves (bindsOwn this) (jqOn elements event handler).
Proof.
  intros Hevent s l Hl. cbn in Hl. apply elem_of_app in Hl as [Hl|Hl].
  - by left.
  - right. apply list_elem_of_fmap in Hl as (n & -> & _). exact Hevent.
Qed.

Ltac own_step :=
  first
    [ apply jqOff_bindsOwn
    | apply jqOn_bindsOwn; done
    | apply (debouncedRunTriggersAndNotify_preserves (bindsOwn this)
               (fun _ => True)); done
    | preserves_step
    | apply preserves_modify; intros ?; apply bindsOwn_same; reflexivity
    | match goal with
      | |- preserves _ (if ?b then _ else _) => destruct b
      | |- preserves _ (match ?x with _ => _ end) => destruct x
      end ].

Lemma cancelObservers_bindsOwn :
  preserves (bindsOwn this) (cancelObservers this).
Proof.
  unfold cancelObservers. preserves_step; [preserves_step|].
  preserves_step.
  - preserves_step. unfold runCancelHandler.
    destruct a0; first [apply jqOff_bindsOwn | own_step].
  - own_step.
Qed.

Lemma handlers_bindsOwn element :
  preserves (bindsOwn this) (attachDOMTrigger_handlers this element).
Proof.
  unfold attachDOMTrigger_handlers.
  destruct (domTrigger this) as [event|] eqn:Hevent; [|own_step].
  destruct (String.eqb event ""); [own_step|].
  unfold deref. destruct element as [elements|]; [|repeat own_step].
  preserves_step; [own_step|].
  preserves_step; [apply jqOff_bindsOwn|].
  preserves_step; [by apply jqOn_bindsOwn|]. own_step.
Qed.

Lemma observerCallback_bindsOwn callback element :
  preserves (bindsOwn this) (observerCallback env this callback element).
Proof.
  destruct callback; cbn [observerCallback].
  - own_step.
  - unfold observe. own_step.
  - apply handlers_bindsOwn.
Qed.

Lemma watch_bindsOwn selector callback :
  preserves (bindsOwn this)
    (observer <- initialize env this selector callback ;;
     addCancelHandler (CancelDisconnect observer)).
Proof.
  unfold initialize, newObserver, addCancelHandler.
  preserves_step; [|own_step].
  preserves_step; [|repeat own_step].
  preserves_step. apply observerCallback_bindsOwn.
Qed.

Lemma documentTrigger_bindsOwn :
  trigger this = Some Selectionchange ∨ trigger this = Some Statechange ->
  preserves (bindsOwn this) (attachDocumentTrigger this).
Proof.
  intros Hkind.
  assert (Hevent : Some (triggerString this) = domTrigger this).
  { unfold triggerString, domTrigger. by destruct Hkind as [-> | ->]. }
  unfold attachDocumentTrigger, addCancelHandler.
  preserves_step; [apply jqOff_bindsOwn|].
  preserves_step; [by apply jqOn_bindsOwn|]. repeat own_step.
Qed.

Lemma attachDOMTrigger_bindsOwn root watch :
  preserves (bindsOwn this) (attachDOMTrigger env this root watch).
Proof.
  unfold attachDOMTrigger.
  preserves_step; [apply handlers_bindsOwn|].
  destruct watch; [|own_step]. case_bool_decide; [own_step|].
  preserves_step; [apply cancelObservers_bindsOwn | apply watch_bindsOwn].
Qed.

Lemma run_bindsOwn : preserves (bindsOwn this) (run env this).
Proof.
  unfold run.
  preserves_step; [apply cancelObservers_bindsOwn|].
  preserves_step.
  { unfold getRoot, addCancelHandler. repeat own_step. }
  assert (Hassert : ∀ root,
            preserves (bindsOwn this) (assertElement this root)).
  { intros root. unfold assertElement, deref. repeat own_step. }
  destruct (trigger this) as [[]|] eqn:Hkind;
    try (preserves_step; [apply Hassert | apply attachDOMTrigger_bindsOwn]).
  - unfold deref. repeat own_step.
  - unfold attachInterval.
    preserves_step; [apply cancelObservers_bindsOwn|].
    unfold emit. repeat own_step.
  - preserves_step; [apply Hassert|]. unfold attachAppearTrigger.
    preserves_step; [apply cancelObservers_bindsOwn|].
    unfold newObserver, deref, observe.
    repeat first [apply watch_bindsOwn | own_step].
  - unfold attachInitializeTrigger.
    preserves_step; [apply cancelObservers_bindsOwn|].
    destruct (attachMode this); [|apply watch_bindsOwn].
    unfold deref. repeat own_step.
  - apply documentTrigger_bindsOwn. by left.
  - apply documentTrigger_bindsOwn. by right.
  - apply attachDOMTrigger_bindsOwn.
  - own_step.
Qed.

Lemma uninstall_bindsOwn : preserves (bindsOwn this) (uninstall env this).
Proof.
  unfold uninstall.
  preserves_step; [apply cancelObservers_bindsOwn|].
  destruct (isEmpty _); [own_step|].
  destruct (_ <? _)%nat; [|own_step].
  preserves_step; [own_step|].
  preserves_step; [preserves_step; apply jqOff_bindsOwn|]. own_step.
Qed.

Lemma act_bindsOwn a : preserves (bindsOwn this) (act env this a).
Proof.
  destruct a as [| | |id element|name event ancestors]; cbn [act].
  - unfold install. repeat own_step.
  - apply run_bindsOwn.
  - apply uninstall_bindsOwn.
  - preserves_step; [preserves_step|].
    destruct (List.find _ _) as [[i [selector callback|observed]]|];
      [apply observerCallback_bindsOwn | preserves_step ..].
  - repeat preserves_step.
    apply preserves_allSettled; [apply _|]. apply Forall_forall.
    intros task Hin. apply list_elem_of_fmap in Hin as (l & -> & _).
    by apply (eventHandler_preserves (bindsOwn this) (fun _ => True)).
Qed.
End BindsOwn.

Lemma exec_ownTypes this script s :
  ownTypes this s -> ownTypes this (exec this script s).
Proof.
  revert s. induction script as [|[env a] rest IH]; intros s Hs; [done|].
  cbn [exec]. apply IH. apply (ownTypes_bindsOwn this s); [done|].
  apply (act_bindsOwn env this a s).
Qed.

(** ** One listener, and the firings of one event *)



